(** * A shallow embedding of the chess core of react-chess-game

    The development follows [src/models/types.ts] (the data model),
    [src/utils/boardUtils.ts] ([isValidPosition], [deepClone], the
    algebraic names of squares, FEN),
    [src/utils/gameUtils.ts] (move generation, check detection, legality
    filter, [applyMove], the game-state classifier, move validation),
    [src/utils/aiUtils.ts] (static evaluation and minimax search) and
    [src/components/ChessGame.tsx] (the state of the game component and its
    handlers).

    JavaScript numbers that hold rows, columns, depths and scores are
    integers throughout the core and are modelled by [Z]; the two infinite
    bounds of the search are added by the type [Num]. *)

From Stdlib Require Import Ascii String.
From Stdlib Require Import ZArith List Bool Lia.
Import ListNotations.
Local Open Scope Z_scope.

(** ** Data model ([models/types.ts]) *)

Inductive PieceType : Type := KING | QUEEN | ROOK | BISHOP | KNIGHT | PAWN.

Inductive PieceColor : Type := WHITE | BLACK.

(** [Piece]: the optional [specialAbilities] array is never read nor written
    by the core and is left out. *)
Record Piece : Type := mkPiece {
  ptype : PieceType;
  color : PieceColor;
  hasMoved : bool
}.

Record Position : Type := mkPos { row : Z; col : Z }.

Inductive MoveType : Type :=
| NORMAL | CAPTURE | CASTLE_KINGSIDE | CASTLE_QUEENSIDE
| EN_PASSANT | PROMOTION | CAPTURE_AND_PROMOTION | SPECIAL_ABILITY.

Record Move : Type := mkMove {
  from : Position;
  to : Position;
  mtype : MoveType;
  piece : Piece;
  capturedPiece : option Piece;
  promotionPieceType : option PieceType;
  castlingRookFrom : option Position;
  castlingRookTo : option Position;
  enPassantCapturePos : option Position
}.

(** One entry of the castling-rights object. *)
Record SideRights : Type := mkRights { kingSide : bool; queenSide : bool }.

(** The castling-rights object is keyed by colour; a key may be absent, which
    the source reads through [castlingRights[kingColor]?.kingSide]. *)
Record CastlingRights : Type := mkCastling {
  rightsWhite : option SideRights;
  rightsBlack : option SideRights
}.

Definition rightsOf (cr : CastlingRights) (c : PieceColor) : option SideRights :=
  match c with WHITE => rightsWhite cr | BLACK => rightsBlack cr end.

(** The default value of the [castlingRights] parameter. *)
Definition defaultCastlingRights : CastlingRights :=
  mkCastling (Some (mkRights true true)) (Some (mkRights true true)).

Definition BOARD_SIZE : Z := 8.

Definition Board : Type := list (list (option Piece)).

Record Direction : Type := mkDir { drow : Z; dcol : Z }.

Definition NORTH := mkDir (-1) 0.
Definition NORTHEAST := mkDir (-1) 1.
Definition EAST := mkDir 0 1.
Definition SOUTHEAST := mkDir 1 1.
Definition SOUTH := mkDir 1 0.
Definition SOUTHWEST := mkDir 1 (-1).
Definition WEST := mkDir 0 (-1).
Definition NORTHWEST := mkDir (-1) (-1).

Definition KNIGHT_MOVES : list Direction :=
  [ mkDir (-2) (-1); mkDir (-2) 1; mkDir (-1) (-2); mkDir (-1) 2;
    mkDir 1 (-2); mkDir 1 2; mkDir 2 (-1); mkDir 2 1 ].

Definition PIECE_VALUES (t : PieceType) : Z :=
  match t with
  | PAWN => 100 | KNIGHT => 320 | BISHOP => 330
  | ROOK => 500 | QUEEN => 900 | KING => 20000
  end.

(** ** Decidable equalities used by the source's [===] tests *)

Definition colorEqb (a b : PieceColor) : bool :=
  match a, b with WHITE, WHITE | BLACK, BLACK => true | _, _ => false end.

Definition typeEqb (a b : PieceType) : bool :=
  match a, b with
  | KING, KING | QUEEN, QUEEN | ROOK, ROOK
  | BISHOP, BISHOP | KNIGHT, KNIGHT | PAWN, PAWN => true
  | _, _ => false
  end.

Definition posEqb (p q : Position) : bool :=
  (row p =? row q) && (col p =? col q).

Definition isPromotionType (t : MoveType) : bool :=
  match t with PROMOTION | CAPTURE_AND_PROMOTION => true | _ => false end.

Definition isCastleType (t : MoveType) : bool :=
  match t with CASTLE_KINGSIDE | CASTLE_QUEENSIDE => true | _ => false end.

Definition isEnPassantType (t : MoveType) : bool :=
  match t with EN_PASSANT => true | _ => false end.

Definition opponent (c : PieceColor) : PieceColor :=
  match c with WHITE => BLACK | BLACK => WHITE end.

(** ** Board access ([boardUtils.ts])

    A board is the 8 by 8 array of the source.  [getCell] is the read
    [board[row][col]] and [setCell] the write [board[row][col] = v].  Every
    read and write the theorems below speak about happens on the grid
    ([wf_board], [isValidPosition]); off the grid the source raises a
    [TypeError] on a missing row and JavaScript grows a row on a large
    column, which is outside the model: there [getCell] answers [None] and
    [setCell] leaves the board as it is. *)

Definition isValidPosition (p : Position) : bool :=
  (0 <=? row p) && (row p <? BOARD_SIZE) && (0 <=? col p) && (col p <? BOARD_SIZE).

Definition getCell (b : Board) (p : Position) : option Piece :=
  if (0 <=? row p) && (0 <=? col p) then
    match nth_error b (Z.to_nat (row p)) with
    | Some r =>
        match nth_error r (Z.to_nat (col p)) with
        | Some c => c
        | None => None
        end
    | None => None
    end
  else None.

Fixpoint setNth {A : Type} (n : nat) (x : A) (l : list A) : list A :=
  match l with
  | [] => []
  | y :: l' =>
      match n with
      | O => x :: l'
      | S n' => y :: setNth n' x l'
      end
  end.

Definition setCell (b : Board) (p : Position) (v : option Piece) : Board :=
  if (0 <=? row p) && (0 <=? col p) then
    match nth_error b (Z.to_nat (row p)) with
    | Some r => setNth (Z.to_nat (row p)) (setNth (Z.to_nat (col p)) v r) b
    | None => b
    end
  else b.

(** The truthiness test [if (piece)] / [!board[r][c]] on a cell. *)
Definition occupied (c : option Piece) : bool :=
  match c with Some _ => true | None => false end.

(** The shape the data model gives a board: 8 rows of 8 cells. *)
Definition wf_board (b : Board) : bool :=
  (length b =? 8)%nat && forallb (fun r => (length r =? 8)%nat) b.

(** [deepClone] is [JSON.parse(JSON.stringify(obj))]: every row, cell and
    piece object is rebuilt from its fields. *)
Definition clonePiece (p : Piece) : Piece :=
  mkPiece (ptype p) (color p) (hasMoved p).

Definition deepClone (b : Board) : Board :=
  map (map (option_map clonePiece)) b.

(** The index ranges of the source's nested
    [for (row = 0; row < BOARD_SIZE; row++) for (col = 0; ...)] loops,
    in visiting order. *)
Definition indices : list Z := [0; 1; 2; 3; 4; 5; 6; 7].

Definition positions : list Position :=
  flat_map (fun r => map (fun c => mkPos r c) indices) indices.

(** ** Move generator ([gameUtils.ts])

    The source pushes moves onto a shared array; each routine below returns
    the moves it pushes, in pushing order. *)

(** A move object with none of the castling or en-passant fields. *)
Definition simpleMove (f t : Position) (ty : MoveType) (p : Piece)
    (captured : option Piece) : Move :=
  mkMove f t ty p captured None None None None.

Definition promotionPieces : list PieceType := [QUEEN; ROOK; BISHOP; KNIGHT].

Definition addPawnPromotionMoves (f t : Position) (p : Piece)
    (captured : option Piece) : list Move :=
  map (fun promotion =>
         mkMove f t
           (match captured with
            | Some _ => CAPTURE_AND_PROMOTION
            | None => PROMOTION
            end)
           p captured (Some promotion) None None None)
      promotionPieces.

Definition pawnDirection (c : PieceColor) : Z :=
  match c with WHITE => -1 | BLACK => 1 end.

(** The test [(color === WHITE && r === 0) || (color === BLACK && r === 7)]. *)
Definition isPromotionRow (c : PieceColor) (r : Z) : bool :=
  match c with WHITE => r =? 0 | BLACK => r =? 7 end.

(** The test [(color === WHITE && row === 6) || (color === BLACK && row === 1)]. *)
Definition isStartRow (c : PieceColor) (r : Z) : bool :=
  match c with WHITE => r =? 6 | BLACK => r =? 1 end.

Definition pawnForwardMoves (b : Board) (position : Position) (p : Piece) : list Move :=
  let direction := pawnDirection (color p) in
  let oneForward := mkPos (row position + direction) (col position) in
  if isValidPosition oneForward && negb (occupied (getCell b oneForward)) then
    (if isPromotionRow (color p) (row oneForward)
     then addPawnPromotionMoves position oneForward p None
     else [simpleMove position oneForward NORMAL p None])
    ++
    (if isStartRow (color p) (row position) then
       let twoForward := mkPos (row position + 2 * direction) (col position) in
       if isValidPosition twoForward && negb (occupied (getCell b twoForward))
       then [simpleMove position twoForward NORMAL p None]
       else []
     else [])
  else [].

(** The body of the loop over the two capture squares. *)
Definition pawnCaptureMoves (b : Board) (position : Position) (p : Piece)
    (enPassantTarget : option Position) (captureMove : Position) : list Move :=
  if isValidPosition captureMove then
    (match getCell b captureMove with
     | Some targetPiece =>
         if negb (colorEqb (color targetPiece) (color p)) then
           if isPromotionRow (color p) (row captureMove)
           then addPawnPromotionMoves position captureMove p (Some targetPiece)
           else [simpleMove position captureMove CAPTURE p (Some targetPiece)]
         else []
     | None => []
     end)
    ++
    (match enPassantTarget with
     | Some ep =>
         if (row captureMove =? row ep) && (col captureMove =? col ep) then
           let capturedPawnPos := mkPos (row position) (col ep) in
           match getCell b capturedPawnPos with
           | Some capturedPawn =>
               if typeEqb (ptype capturedPawn) PAWN
                  && negb (colorEqb (color capturedPawn) (color p))
               then [mkMove position captureMove EN_PASSANT p (Some capturedPawn)
                       None None None (Some capturedPawnPos)]
               else []
           | None => []
           end
         else []
     | None => []
     end)
  else [].

Definition getPawnMoves (b : Board) (position : Position) (p : Piece)
    (enPassantTarget : option Position) : list Move :=
  let direction := pawnDirection (color p) in
  pawnForwardMoves b position p
  ++ flat_map (pawnCaptureMoves b position p enPassantTarget)
       [ mkPos (row position + direction) (col position - 1);
         mkPos (row position + direction) (col position + 1) ].

(** The body shared by the knight loop and the king's one-square loop:
    a quiet move onto an empty square, a capture onto an enemy piece. *)
Definition stepMoves (b : Board) (position : Position) (p : Piece)
    (d : Direction) : list Move :=
  let newPos := mkPos (row position + drow d) (col position + dcol d) in
  if isValidPosition newPos then
    match getCell b newPos with
    | None => [simpleMove position newPos NORMAL p None]
    | Some targetPiece =>
        if negb (colorEqb (color targetPiece) (color p))
        then [simpleMove position newPos CAPTURE p (Some targetPiece)]
        else []
    end
  else [].

Definition getKnightMoves (b : Board) (position : Position) (p : Piece) : list Move :=
  flat_map (stepMoves b position p) KNIGHT_MOVES.

(** The [while (isValidPosition(...))] loop of [getLinearMoves] along one
    direction, from the candidate square [(newRow, newCol)].  The loop leaves
    the grid after at most [BOARD_SIZE] squares; [fuel] bounds its
    iterations (see [linearRay_fuel]). *)
Fixpoint linearRay (fuel : nat) (b : Board) (position : Position) (p : Piece)
    (d : Direction) (newRow newCol : Z) : list Move :=
  match fuel with
  | O => []
  | S fuel' =>
      let newPos := mkPos newRow newCol in
      if isValidPosition newPos then
        match getCell b newPos with
        | None =>
            simpleMove position newPos NORMAL p None
            :: linearRay fuel' b position p d (newRow + drow d) (newCol + dcol d)
        | Some targetPiece =>
            if negb (colorEqb (color targetPiece) (color p))
            then [simpleMove position newPos CAPTURE p (Some targetPiece)]
            else []
        end
      else []
  end.

Definition getLinearMoves (b : Board) (position : Position) (p : Piece)
    (directions : list Direction) : list Move :=
  flat_map (fun d => linearRay 8 b position p d
                       (row position + drow d) (col position + dcol d))
           directions.

Definition diagonalDirections : list Direction :=
  [NORTHEAST; SOUTHEAST; SOUTHWEST; NORTHWEST].

Definition straightDirections : list Direction :=
  [NORTH; EAST; SOUTH; WEST].

Definition allDirections : list Direction :=
  [NORTH; NORTHEAST; EAST; SOUTHEAST; SOUTH; SOUTHWEST; WEST; NORTHWEST].

Definition getBishopMoves (b : Board) (position : Position) (p : Piece) : list Move :=
  getLinearMoves b position p diagonalDirections.

Definition getRookMoves (b : Board) (position : Position) (p : Piece) : list Move :=
  getLinearMoves b position p straightDirections.

Definition getQueenMoves (b : Board) (position : Position) (p : Piece) : list Move :=
  getLinearMoves b position p allDirections.

(** The rook test of the castling branches:
    [rookPiece && type === ROOK && color === kingColor && !hasMoved]. *)
Definition isCastlingRook (c : option Piece) (kingColor : PieceColor) : bool :=
  match c with
  | Some rookPiece =>
      typeEqb (ptype rookPiece) ROOK
      && colorEqb (color rookPiece) kingColor
      && negb (hasMoved rookPiece)
  | None => false
  end.

Definition kingRankOf (c : PieceColor) : Z :=
  match c with WHITE => 7 | BLACK => 0 end.

Definition castlingMoves (b : Board) (position : Position) (p : Piece)
    (castlingRights : CastlingRights) : list Move :=
  if negb (hasMoved p) then
    let kingColor := color p in
    let kingRank := kingRankOf kingColor in
    (if match rightsOf castlingRights kingColor with
        | Some r => kingSide r
        | None => false
        end
     then
       if negb (occupied (getCell b (mkPos kingRank 5)))
          && negb (occupied (getCell b (mkPos kingRank 6)))
       then
         if isCastlingRook (getCell b (mkPos kingRank 7)) kingColor
         then [mkMove position (mkPos kingRank 6) CASTLE_KINGSIDE p None None
                 (Some (mkPos kingRank 7)) (Some (mkPos kingRank 5)) None]
         else []
       else []
     else [])
    ++
    (if match rightsOf castlingRights kingColor with
        | Some r => queenSide r
        | None => false
        end
     then
       if negb (occupied (getCell b (mkPos kingRank 1)))
          && negb (occupied (getCell b (mkPos kingRank 2)))
          && negb (occupied (getCell b (mkPos kingRank 3)))
       then
         if isCastlingRook (getCell b (mkPos kingRank 0)) kingColor
         then [mkMove position (mkPos kingRank 2) CASTLE_QUEENSIDE p None None
                 (Some (mkPos kingRank 0)) (Some (mkPos kingRank 3)) None]
         else []
       else []
     else [])
  else [].

Definition getKingMoves (b : Board) (position : Position) (p : Piece)
    (castlingRights : CastlingRights) : list Move :=
  flat_map (stepMoves b position p) allDirections
  ++ castlingMoves b position p castlingRights.

Definition getPossibleMoves (b : Board) (position : Position)
    (enPassantTarget : option Position) (castlingRights : CastlingRights)
    : list Move :=
  match getCell b position with
  | None => []
  | Some p =>
      match ptype p with
      | PAWN => getPawnMoves b position p enPassantTarget
      | KNIGHT => getKnightMoves b position p
      | BISHOP => getBishopMoves b position p
      | ROOK => getRookMoves b position p
      | QUEEN => getQueenMoves b position p
      | KING => getKingMoves b position p castlingRights
      end
  end.

(** ** Apply-move *)

Definition applyMove (b : Board) (m : Move) : Board :=
  let b1 := setCell b (from m) None in
  let b2 :=
    if isPromotionType (mtype m) then
      setCell b1 (to m)
        (Some (mkPiece
                 (match promotionPieceType m with Some t => t | None => QUEEN end)
                 (color (piece m)) true))
    else
      setCell b1 (to m)
        (Some (mkPiece (ptype (piece m)) (color (piece m)) true)) in
  let b3 :=
    if isCastleType (mtype m) then
      match castlingRookFrom m, castlingRookTo m with
      | Some rookFrom, Some rookTo =>
          let rook := getCell b2 rookFrom in
          let b2' := setCell b2 rookFrom None in
          match rook with
          | Some r =>
              setCell b2' rookTo (Some (mkPiece (ptype r) (color r) true))
          | None => b2'
          end
      | _, _ => b2
      end
    else b2 in
  if isEnPassantType (mtype m) then
    match enPassantCapturePos m with
    | Some capturePos => setCell b3 capturePos None
    | None => b3
    end
  else b3.

(** [getEnPassantTarget]: the target a move creates, if any. *)
Definition getEnPassantTarget (m : Move) : option Position :=
  if typeEqb (ptype (piece m)) PAWN
     && match mtype m with NORMAL => true | _ => false end
  then
    let rowDiff := Z.abs (row (to m) - row (from m)) in
    if rowDiff =? 2 then
      let direction := match color (piece m) with WHITE => 1 | BLACK => -1 end in
      Some (mkPos (row (to m) + direction) (col (to m)))
    else None
  else None.

(** ** Check detector, legality filter and game-state classifier *)

Definition isKingOf (kingColor : PieceColor) (c : option Piece) : bool :=
  match c with
  | Some p => typeEqb (ptype p) KING && colorEqb (color p) kingColor
  | None => false
  end.

(** The first loop of [isKingInCheck]: the first king of the colour in
    row-major order, if any. *)
Definition findKing (b : Board) (kingColor : PieceColor) : option Position :=
  find (fun pos => isKingOf kingColor (getCell b pos)) positions.

Definition attacks (b : Board) (kingPosition : Position) (opponentColor : PieceColor)
    (pos : Position) : bool :=
  match getCell b pos with
  | Some p =>
      colorEqb (color p) opponentColor
      && existsb (fun m => posEqb (to m) kingPosition)
           (getPossibleMoves b pos None defaultCastlingRights)
  | None => false
  end.

Definition isKingInCheck (b : Board) (kingColor : PieceColor) : bool :=
  match findKing b kingColor with
  | None => false
  | Some kingPosition =>
      existsb (attacks b kingPosition (opponent kingColor)) positions
  end.

Definition filterLegalMoves (b : Board) (moves : list Move)
    (currentPlayer : PieceColor) : list Move :=
  filter (fun m =>
            let newBoard := applyMove (deepClone b) m in
            negb (isKingInCheck newBoard currentPlayer))
         moves.

(** The body of the double loop shared by [isCheckmate] and [isStalemate]:
    does the piece on [pos], if of the player's colour, have a legal move
    ([legalMoves.length > 0])? *)
Definition hasLegalMove (b : Board) (playerColor : PieceColor) (pos : Position) : bool :=
  match getCell b pos with
  | Some p =>
      colorEqb (color p) playerColor
      && negb (length (filterLegalMoves b
                         (getPossibleMoves b pos None defaultCastlingRights)
                         playerColor) =? 0)%nat
  | None => false
  end.

Definition isCheckmate (b : Board) (playerColor : PieceColor) : bool :=
  if negb (isKingInCheck b playerColor) then false
  else negb (existsb (hasLegalMove b playerColor) positions).

Definition isStalemate (b : Board) (playerColor : PieceColor) : bool :=
  if isKingInCheck b playerColor then false
  else negb (existsb (hasLegalMove b playerColor) positions).

(** ** Position evaluator ([aiUtils.ts]) *)

Definition Table : Type := list (list Z).

Definition pawnTable : Table :=
  [ [0; 0; 0; 0; 0; 0; 0; 0];
    [50; 50; 50; 50; 50; 50; 50; 50];
    [10; 10; 20; 30; 30; 20; 10; 10];
    [5; 5; 10; 25; 25; 10; 5; 5];
    [0; 0; 0; 20; 20; 0; 0; 0];
    [5; -5; -10; 0; 0; -10; -5; 5];
    [5; 10; 10; -20; -20; 10; 10; 5];
    [0; 0; 0; 0; 0; 0; 0; 0] ].

Definition knightTable : Table :=
  [ [-50; -40; -30; -30; -30; -30; -40; -50];
    [-40; -20; 0; 0; 0; 0; -20; -40];
    [-30; 0; 10; 15; 15; 10; 0; -30];
    [-30; 5; 15; 20; 20; 15; 5; -30];
    [-30; 0; 15; 20; 20; 15; 0; -30];
    [-30; 5; 10; 15; 15; 10; 5; -30];
    [-40; -20; 0; 5; 5; 0; -20; -40];
    [-50; -40; -30; -30; -30; -30; -40; -50] ].

Definition bishopTable : Table :=
  [ [-20; -10; -10; -10; -10; -10; -10; -20];
    [-10; 0; 0; 0; 0; 0; 0; -10];
    [-10; 0; 10; 10; 10; 10; 0; -10];
    [-10; 5; 5; 10; 10; 5; 5; -10];
    [-10; 0; 5; 10; 10; 5; 0; -10];
    [-10; 5; 5; 5; 5; 5; 5; -10];
    [-10; 0; 5; 0; 0; 5; 0; -10];
    [-20; -10; -10; -10; -10; -10; -10; -20] ].

Definition rookTable : Table :=
  [ [0; 0; 0; 0; 0; 0; 0; 0];
    [5; 10; 10; 10; 10; 10; 10; 5];
    [-5; 0; 0; 0; 0; 0; 0; -5];
    [-5; 0; 0; 0; 0; 0; 0; -5];
    [-5; 0; 0; 0; 0; 0; 0; -5];
    [-5; 0; 0; 0; 0; 0; 0; -5];
    [-5; 0; 0; 0; 0; 0; 0; -5];
    [0; 0; 0; 5; 5; 0; 0; 0] ].

Definition queenTable : Table :=
  [ [-20; -10; -10; -5; -5; -10; -10; -20];
    [-10; 0; 0; 0; 0; 0; 0; -10];
    [-10; 0; 5; 5; 5; 5; 0; -10];
    [-5; 0; 5; 5; 5; 5; 0; -5];
    [0; 0; 5; 5; 5; 5; 0; -5];
    [-10; 5; 5; 5; 5; 5; 0; -10];
    [-10; 0; 5; 0; 0; 0; 0; -10];
    [-20; -10; -10; -5; -5; -10; -10; -20] ].

Definition kingTable : Table :=
  [ [-30; -40; -40; -50; -50; -40; -40; -30];
    [-30; -40; -40; -50; -50; -40; -40; -30];
    [-30; -40; -40; -50; -50; -40; -40; -30];
    [-30; -40; -40; -50; -50; -40; -40; -30];
    [-20; -30; -30; -40; -40; -30; -30; -20];
    [-10; -20; -20; -20; -20; -20; -20; -10];
    [20; 20; 0; 0; 0; 0; 20; 20];
    [20; 30; 10; 0; 0; 10; 30; 20] ].

(** Endgame king table ([PIECE_SQUARE_TABLES.kingEndgame]). *)
Definition kingEndgame : Table :=
  [ [-50; -40; -30; -20; -20; -30; -40; -50];
    [-30; -20; -10; 0; 0; -10; -20; -30];
    [-30; -10; 20; 30; 30; 20; -10; -30];
    [-30; -10; 30; 40; 40; 30; -10; -30];
    [-30; -10; 30; 40; 40; 30; -10; -30];
    [-30; -10; 20; 30; 30; 20; -10; -30];
    [-30; -30; 0; 0; 0; 0; -30; -30];
    [-50; -30; -30; -30; -30; -30; -30; -50] ].

Definition PIECE_SQUARE_TABLES (t : PieceType) : Table :=
  match t with
  | PAWN => pawnTable
  | KNIGHT => knightTable
  | BISHOP => bishopTable
  | ROOK => rookTable
  | QUEEN => queenTable
  | KING => kingTable
  end.

(** [table[r][c]]; the evaluator indexes tables with rows and columns of the
    grid only. *)
Definition tableAt (t : Table) (r c : Z) : Z :=
  nth (Z.to_nat c) (nth (Z.to_nat r) t []) 0.

Definition evaluateMaterial (b : Board) : Z :=
  fold_left
    (fun score pos =>
       match getCell b pos with
       | Some p =>
           let pieceValue := PIECE_VALUES (ptype p) in
           if colorEqb (color p) BLACK then score + pieceValue
           else score - pieceValue
       | None => score
       end)
    positions 0.

(** The four counters of [isEndgamePhase] after the scan. *)
Record PhaseCount : Type := mkCount {
  whiteQueens : Z; blackQueens : Z; whitePieceCount : Z; blackPieceCount : Z
}.

Definition countPhase (b : Board) : PhaseCount :=
  fold_left
    (fun k pos =>
       match getCell b pos with
       | Some p =>
           if colorEqb (color p) WHITE then
             mkCount
               (if typeEqb (ptype p) QUEEN then whiteQueens k + 1 else whiteQueens k)
               (blackQueens k) (whitePieceCount k + 1) (blackPieceCount k)
           else
             mkCount (whiteQueens k)
               (if typeEqb (ptype p) QUEEN then blackQueens k + 1 else blackQueens k)
               (whitePieceCount k) (blackPieceCount k + 1)
       | None => k
       end)
    positions (mkCount 0 0 0 0).

Definition isEndgamePhase (b : Board) : bool :=
  let k := countPhase b in
  ((whiteQueens k =? 0) && (blackQueens k =? 0))
  || ((whitePieceCount k <=? 4) && (blackPieceCount k <=? 4)).

(** The value [posValue] that [evaluatePositions] adds or subtracts for the
    piece [p] on [pos]: the statements of the loop body in order, the last
    assignment to [posValue] being the one in force. *)
Definition positionValue (b : Board) (pos : Position) (p : Piece) : Z :=
  let posValue := 0 in
  let posValue :=
    if typeEqb (ptype p) KING then
      let isEndgame := isEndgamePhase b in
      if isEndgame then tableAt kingEndgame (row pos) (col pos)
      else tableAt (PIECE_SQUARE_TABLES (ptype p)) (row pos) (col pos)
    else tableAt (PIECE_SQUARE_TABLES (ptype p)) (row pos) (col pos) in
  let adjustedRow := if colorEqb (color p) BLACK then row pos else 7 - row pos in
  let adjustedCol := if colorEqb (color p) BLACK then col pos else 7 - col pos in
  let posValue := tableAt (PIECE_SQUARE_TABLES (ptype p)) adjustedRow adjustedCol in
  posValue.

Definition evaluatePositions (b : Board) : Z :=
  fold_left
    (fun score pos =>
       match getCell b pos with
       | Some p =>
           let posValue := positionValue b pos p in
           if colorEqb (color p) BLACK then score + posValue
           else score - posValue
       | None => score
       end)
    positions 0.

Definition evaluatePawnShield (b : Board) (kingPos : Position)
    (kingColor : PieceColor) : Z :=
  let pawnDir := match kingColor with WHITE => -1 | BLACK => 1 end in
  fold_left
    (fun score pos =>
       if (0 <=? row pos) && (row pos <? BOARD_SIZE)
          && (0 <=? col pos) && (col pos <? BOARD_SIZE) then
         match getCell b pos with
         | Some p =>
             if typeEqb (ptype p) PAWN && colorEqb (color p) kingColor
             then score + 10 else score
         | None => score
         end
       else score)
    [ mkPos (row kingPos + pawnDir) (col kingPos - 1);
      mkPos (row kingPos + pawnDir) (col kingPos);
      mkPos (row kingPos + pawnDir) (col kingPos + 1) ]
    0.

(** The king scan of [evaluateKingSafety] has no [break]: the last king of
    each colour in row-major order is kept. *)
Definition kingPositions (b : Board) : option Position * option Position :=
  fold_left
    (fun wb pos =>
       match getCell b pos with
       | Some p =>
           if typeEqb (ptype p) KING then
             if colorEqb (color p) WHITE then (Some pos, snd wb)
             else (fst wb, Some pos)
           else wb
       | None => wb
       end)
    positions (None, None).

Definition evaluateKingSafety (b : Board) : Z :=
  match kingPositions b with
  | (Some whiteKingPos, Some blackKingPos) =>
      let score := 0 in
      let score := if isKingInCheck b WHITE then score + 50 else score in
      let score := if isKingInCheck b BLACK then score - 50 else score in
      let score := score + evaluatePawnShield b blackKingPos BLACK in
      let score := score - evaluatePawnShield b whiteKingPos WHITE in
      score
  | _ => 0
  end.

Definition evaluateMobility (b : Board) : Z :=
  let counts :=
    fold_left
      (fun wb pos =>
         match getCell b pos with
         | Some p =>
             let moves := getPossibleMoves b pos None defaultCastlingRights in
             let legalMoves := filterLegalMoves b moves (color p) in
             if colorEqb (color p) WHITE
             then (fst wb + Z.of_nat (length legalMoves), snd wb)
             else (fst wb, snd wb + Z.of_nat (length legalMoves))
         | None => wb
         end)
      positions (0, 0) in
  let whiteMoveCount := fst counts in
  let blackMoveCount := snd counts in
  0 + blackMoveCount * 2 - whiteMoveCount * 2.

(** [evaluateBoard], with its four terms named: [material], [positions],
    [kingSafety] and [mobility] stand for the calls [evaluateMaterial(board)],
    [evaluatePositions(board)], [evaluateKingSafety(board)] and
    [evaluateMobility(board)], so that a statement can say which of them the
    returned score depends on. *)
Definition evaluateBoardWith (material positions kingSafety mobility : Board -> Z)
    (b : Board) : Z :=
  let score := 0 in
  let materialScore := material b in
  let score := score + materialScore in
  let positionScore := positions b in
  let score := score + positionScore in
  if isCheckmate b WHITE then 10000
  else if isCheckmate b BLACK then -10000
  else if isStalemate b WHITE || isStalemate b BLACK then 0
  else
    let kingScore := kingSafety b in
    let score := score + kingScore in
    let mobilityScore := mobility b in
    let score := score + mobilityScore in
    score.

Definition evaluateBoard (b : Board) : Z :=
  evaluateBoardWith evaluateMaterial evaluatePositions
    evaluateKingSafety evaluateMobility b.

(** ** Search engine ([aiUtils.ts]) *)

(** JavaScript numbers of the search: the integer scores and the two bounds
    [-Infinity] and [Infinity]. *)
Inductive Num : Type := NegInf | Fin (z : Z) | PosInf.

(** [a < b], [a <= b], [Math.max], [Math.min] on these numbers. *)
Definition numLtb (a b : Num) : bool :=
  match a, b with
  | NegInf, NegInf => false
  | NegInf, _ => true
  | Fin _, NegInf => false
  | Fin x, Fin y => x <? y
  | Fin _, PosInf => true
  | PosInf, _ => false
  end.

Definition numLeb (a b : Num) : bool := negb (numLtb b a).

Definition numMax (a b : Num) : Num := if numLtb a b then b else a.

Definition numMin (a b : Num) : Num := if numLtb b a then b else a.

(** The loop that fills [allMoves] in [findBestMove] and [minimax]: the
    legal moves of every piece of [playerColor], in row-major order. *)
Definition allMoves (b : Board) (playerColor : PieceColor)
    (enPassantTarget : option Position) (castlingRights : CastlingRights)
    : list Move :=
  flat_map
    (fun pos =>
       match getCell b pos with
       | Some p =>
           if colorEqb (color p) playerColor then
             let possibleMoves :=
               getPossibleMoves b pos enPassantTarget castlingRights in
             filterLegalMoves b possibleMoves playerColor
           else []
       | None => []
       end)
    positions.

(** The terminal test of [minimax]. *)
Definition isTerminal (b : Board) (depth : Z) : bool :=
  (depth =? 0) || isCheckmate b WHITE || isCheckmate b BLACK
  || isStalemate b WHITE || isStalemate b BLACK.

(** A call that does not return within the recursion budget yields [None];
    [Some v] is the returned number.  [child newBoard alpha beta] is the
    recursive call on a child position. *)
Section Loops.
Variable child : Board -> Num -> Num -> option Num.
Variable board : Board.

(** The maximizing loop, from the running [alpha] and [maxEval]. *)
Fixpoint maxLoop (moves : list Move) (alpha beta maxEval : Num) : option Num :=
  match moves with
  | [] => Some maxEval
  | move :: rest =>
      let newBoard := applyMove (deepClone board) move in
      match child newBoard alpha beta with
      | None => None
      | Some ev =>
          let maxEval := numMax maxEval ev in
          let alpha := numMax alpha ev in
          if numLeb beta alpha then Some maxEval
          else maxLoop rest alpha beta maxEval
      end
  end.

(** The minimizing loop, from the running [beta] and [minEval]. *)
Fixpoint minLoop (moves : list Move) (alpha beta minEval : Num) : option Num :=
  match moves with
  | [] => Some minEval
  | move :: rest =>
      let newBoard := applyMove (deepClone board) move in
      match child newBoard alpha beta with
      | None => None
      | Some ev =>
          let minEval := numMin minEval ev in
          let beta := numMin beta ev in
          if numLeb beta alpha then Some minEval
          else minLoop rest alpha beta minEval
      end
  end.
End Loops.

(** [minimax]; [fuel] is the number of nested [minimax] calls the call may
    use, itself included. *)
Fixpoint minimax (fuel : nat) (b : Board) (depth : Z) (alpha beta : Num)
    (isMaximizingPlayer : bool) (enPassantTarget : option Position)
    (castlingRights : CastlingRights) : option Num :=
  match fuel with
  | O => None
  | S fuel' =>
      if isTerminal b depth then Some (Fin (evaluateBoard b))
      else
        let playerColor := if isMaximizingPlayer then BLACK else WHITE in
        let moves := allMoves b playerColor enPassantTarget castlingRights in
        if (length moves =? 0)%nat then Some (Fin (evaluateBoard b))
        else if isMaximizingPlayer then
          maxLoop
            (fun newBoard alpha beta =>
               minimax fuel' newBoard (depth - 1) alpha beta false
                 enPassantTarget castlingRights)
            b moves alpha beta NegInf
        else
          minLoop
            (fun newBoard alpha beta =>
               minimax fuel' newBoard (depth - 1) alpha beta true
                 enPassantTarget castlingRights)
            b moves alpha beta PosInf
  end.

(** The root loop of [findBestMove], from the running [bestMove] and
    [bestScore]; [score newBoard] is the call to [minimax] on the child. *)
Fixpoint bestLoop (score : Board -> option Num) (board : Board) (isBlack : bool)
    (moves : list Move) (bestMove : option Move) (bestScore : Num)
    : option (option Move) :=
  match moves with
  | [] => Some bestMove
  | move :: rest =>
      let newBoard := applyMove (deepClone board) move in
      match score newBoard with
      | None => None
      | Some s =>
          if isBlack then
            if numLtb bestScore s
            then bestLoop score board isBlack rest (Some move) s
            else bestLoop score board isBlack rest bestMove bestScore
          else
            if numLtb s bestScore
            then bestLoop score board isBlack rest (Some move) s
            else bestLoop score board isBlack rest bestMove bestScore
      end
  end.

(** [findBestMove]: [None] when the search does not return within [fuel]
    nested [minimax] calls, [Some None] for the source's [null],
    [Some (Some m)] for a move. *)
Definition findBestMove (fuel : nat) (b : Board) (depth : Z) (isBlack : bool)
    (enPassantTarget : option Position) (castlingRights : CastlingRights)
    : option (option Move) :=
  let playerColor := if isBlack then BLACK else WHITE in
  let moves := allMoves b playerColor enPassantTarget castlingRights in
  if (length moves =? 0)%nat then Some None
  else
    bestLoop
      (fun newBoard =>
         minimax fuel newBoard (depth - 1) NegInf PosInf (negb isBlack)
           enPassantTarget castlingRights)
      b isBlack moves None (if isBlack then NegInf else PosInf).

(** ** Notions used by the statements *)

(** The board after the first two writes of [applyMove]: origin emptied,
    destination written. *)
Definition afterPieceWrite (b : Board) (m : Move) : Board :=
  setCell (setCell b (from m) None) (to m)
    (Some (if isPromotionType (mtype m)
           then mkPiece (match promotionPieceType m with
                         | Some t => t
                         | None => QUEEN
                         end) (color (piece m)) true
           else mkPiece (ptype (piece m)) (color (piece m)) true)).

Definition validOpt (p : option Position) : bool :=
  match p with Some q => isValidPosition q | None => true end.

(** Every position a move carries is a position of the grid. *)
Definition move_on_grid (m : Move) : bool :=
  isValidPosition (from m) && isValidPosition (to m)
  && validOpt (castlingRookFrom m) && validOpt (castlingRookTo m)
  && validOpt (enPassantCapturePos m).

(** The later writes of [applyMove] that empty the destination square again:
    a castling move whose rook starts on the destination, an en-passant move
    whose captured pawn stands on it.  The move generator produces neither. *)
Definition clearsDestination (m : Move) : bool :=
  (isCastleType (mtype m)
   && match castlingRookFrom m, castlingRookTo m with
      | Some rookFrom, Some rookTo =>
          posEqb rookFrom (to m) && negb (posEqb rookTo (to m))
      | _, _ => false
      end)
  || (isEnPassantType (mtype m)
      && match enPassantCapturePos m with
         | Some capturePos => posEqb capturePos (to m)
         | None => false
         end).

(** No king of the colour on any square of the grid, as a test. *)
Definition noKingOf (b : Board) (kingColor : PieceColor) : bool :=
  forallb (fun pos => negb (isKingOf kingColor (getCell b pos))) positions.

(** Squares left on the grid from coordinate [x] walking by [dx]: the
    measure that bounds the ray loop of [getLinearMoves]. *)
Definition stepsLeft (dx x : Z) : Z :=
  if (0 <=? x) && (x <? 8) then (if 0 <? dx then 8 - x else x + 1) else 0.

Definition rayBound (d : Direction) (r c : Z) : Z :=
  if drow d =? 0 then stepsLeft (dcol d) c else stepsLeft (drow d) r.

(** The side whose moves [minimax] enumerates. *)
Definition sideToMove (isMaximizingPlayer : bool) : PieceColor :=
  if isMaximizingPlayer then BLACK else WHITE.

(** The cases in which the search is said to stop: depth zero, a checkmate
    or stalemate of either colour, or no legal move for the side to move. *)
Definition searchStops (b : Board) (depth : Z) (isMaximizingPlayer : bool)
    (enPassantTarget : option Position) (castlingRights : CastlingRights) : Prop :=
  depth = 0
  \/ isCheckmate b WHITE = true \/ isCheckmate b BLACK = true
  \/ isStalemate b WHITE = true \/ isStalemate b BLACK = true
  \/ allMoves b (sideToMove isMaximizingPlayer) enPassantTarget castlingRights = [].

(** A finite score. *)
Definition isFin (v : Num) : Prop := exists z, v = Fin z.

(** The child position [minimax] searches first. *)
Definition firstChild (b : Board) (isMaximizingPlayer : bool)
    (enPassantTarget : option Position) (castlingRights : CastlingRights)
    : option Board :=
  match allMoves b (sideToMove isMaximizingPlayer) enPassantTarget castlingRights with
  | m :: _ => Some (applyMove (deepClone b) m)
  | [] => None
  end.

(** ** The positional term as the specification words it *)

(** Every piece is scored by the table of its type at its own cell, the king
    by the endgame king table when the endgame predicate holds. *)
Definition positionValue_spec (b : Board) (pos : Position) (p : Piece) : Z :=
  if typeEqb (ptype p) KING && isEndgamePhase b
  then tableAt kingEndgame (row pos) (col pos)
  else tableAt (PIECE_SQUARE_TABLES (ptype p)) (row pos) (col pos).

Definition evaluatePositions_spec (b : Board) : Z :=
  fold_left
    (fun score pos =>
       match getCell b pos with
       | Some p =>
           if colorEqb (color p) BLACK
           then score + positionValue_spec b pos p
           else score - positionValue_spec b pos p
       | None => score
       end)
    positions 0.

(** ** Example positions *)

Definition emptyRow : list (option Piece) := repeat None 8%nat.

Definition emptyBoard : Board := repeat emptyRow 8%nat.

(** [place b l] puts the listed pieces on [b]. *)
Definition place (b : Board) (l : list (Position * Piece)) : Board :=
  fold_left (fun acc x => setCell acc (fst x) (Some (snd x))) l b.

(** A piece that has already moved (no castling is generated for it). *)
Definition moved (t : PieceType) (c : PieceColor) : Piece := mkPiece t c true.

(** The board [parseFEN] builds from [INITIAL_POSITION]: no piece has moved. *)
Definition backRank (c : PieceColor) : list (option Piece) :=
  map (fun t => Some (mkPiece t c false))
      [ROOK; KNIGHT; BISHOP; QUEEN; KING; BISHOP; KNIGHT; ROOK].

Definition pawnRank (c : PieceColor) : list (option Piece) :=
  repeat (Some (mkPiece PAWN c false)) 8%nat.

Definition initialBoard : Board :=
  [ backRank BLACK; pawnRank BLACK; emptyRow; emptyRow;
    emptyRow; emptyRow; pawnRank WHITE; backRank WHITE ].

(** The mate of the specification's third scenario: white is checkmated,
    black is neither checkmated nor stalemated. *)
Definition whiteMated : Board :=
  place emptyBoard
    [ (mkPos 7 7, moved KING WHITE); (mkPos 6 6, moved QUEEN BLACK);
      (mkPos 5 5, moved KING BLACK) ].

(** Black, not in check, has no legal move; nobody is checkmated. *)
Definition blackStalemated : Board :=
  place emptyBoard
    [ (mkPos 0 0, moved KING BLACK); (mkPos 1 2, moved QUEEN WHITE);
      (mkPos 7 7, moved KING WHITE) ].

(** Both kings smothered in their corners, each in check by a knight that
    nothing can capture. *)
Definition bothMated : Board :=
  place emptyBoard
    [ (mkPos 7 7, moved KING WHITE); (mkPos 6 6, moved PAWN WHITE);
      (mkPos 6 7, moved PAWN WHITE); (mkPos 7 6, moved ROOK WHITE);
      (mkPos 6 5, moved KNIGHT BLACK);
      (mkPos 0 0, moved KING BLACK); (mkPos 1 0, moved PAWN BLACK);
      (mkPos 1 1, moved PAWN BLACK); (mkPos 0 1, moved ROOK BLACK);
      (mkPos 1 2, moved KNIGHT WHITE) ].

(** The black king in double check by two white knights, each pinned to the
    white king by a black rook; white, not in check, has no legal move. *)
Definition matedAndStalemated : Board :=
  place emptyBoard
    [ (mkPos 7 0, moved KING WHITE); (mkPos 6 0, moved KNIGHT WHITE);
      (mkPos 7 1, moved KNIGHT WHITE);
      (mkPos 5 2, moved KING BLACK); (mkPos 3 0, moved ROOK BLACK);
      (mkPos 7 2, moved ROOK BLACK); (mkPos 5 1, moved PAWN BLACK);
      (mkPos 4 2, moved PAWN BLACK); (mkPos 4 3, moved PAWN BLACK);
      (mkPos 5 3, moved PAWN BLACK); (mkPos 6 2, moved PAWN BLACK) ].

(** Two kings only: the endgame predicate holds. *)
Definition twoKings : Board :=
  place emptyBoard
    [ (mkPos 3 3, moved KING BLACK); (mkPos 7 7, moved KING WHITE) ].

(** A white pawn one step from promotion, a black rook on the square it
    captures to. *)
Definition promotionBoard : Board :=
  place emptyBoard
    [ (mkPos 1 0, moved PAWN WHITE); (mkPos 0 1, moved ROOK BLACK);
      (mkPos 7 4, moved KING WHITE); (mkPos 0 7, moved KING BLACK) ].

(** The same with a black pawn beside the white pawn, for an en-passant
    target put on the rook's square, which no game produces. *)
Definition strayTargetBoard : Board :=
  place promotionBoard [ (mkPos 1 1, moved PAWN BLACK) ].

(** White may castle king side. *)
Definition castleBoard : Board :=
  place emptyBoard
    [ (mkPos 7 4, mkPiece KING WHITE false); (mkPos 7 7, mkPiece ROOK WHITE false);
      (mkPos 0 4, moved KING BLACK) ].

Definition castleMove : Move :=
  mkMove (mkPos 7 4) (mkPos 7 6) CASTLE_KINGSIDE (mkPiece KING WHITE false)
    None None (Some (mkPos 7 7)) (Some (mkPos 7 5)) None.

(** A rook with no king of the other colour on the board. *)
Definition loneRook : Board :=
  place emptyBoard [ (mkPos 0 4, moved ROOK BLACK) ].

(** Two kings shuffling in the upper right corner: the black king between
    (0,7) and (1,7), the white king between (0,5) and (1,5).  In each of the
    four positions the first legal move of the side to move leads to the
    next one: A (black to move), B (white), C (black), D (white), A. *)
Definition shuffle (blackRow whiteRow : Z) : Board :=
  place emptyBoard
    [ (mkPos blackRow 7, moved KING BLACK); (mkPos whiteRow 5, moved KING WHITE) ].

Definition shuffleA : Board := shuffle 0 0.
Definition shuffleB : Board := shuffle 1 0.
Definition shuffleC : Board := shuffle 1 1.
Definition shuffleD : Board := shuffle 0 1.

(** * Further code of the repository *)

(** ** Move validation ([gameUtils.ts]) *)

(** [isValidMove]: [None] is the source's [null]. *)
Definition isValidMove (b : Board) (fromPos toPos : Position)
    (enPassantTarget : option Position) (castlingRights : CastlingRights)
    : option Move :=
  match getCell b fromPos with
  | None => None
  | Some p =>
      let possibleMoves := getPossibleMoves b fromPos enPassantTarget castlingRights in
      let legalMoves := filterLegalMoves b possibleMoves (color p) in
      find (fun move => (row (to move) =? row toPos) && (col (to move) =? col toPos))
           legalMoves
  end.

(** ** Game state of the component ([components/ChessGame.tsx]) *)

Inductive GameState : Type := ACTIVE | CHECK | CHECKMATE | STALEMATE | DRAW.

Definition calculateGameState (newBoard : Board) (nextPlayer : PieceColor)
    : GameState :=
  if isKingInCheck newBoard nextPlayer then
    if isCheckmate newBoard nextPlayer then CHECKMATE else CHECK
  else if isStalemate newBoard nextPlayer then STALEMATE
  else ACTIVE.

(** The en-passant target [makeMove] computes after a move. *)
Definition makeMove_enPassantTarget (m : Move) : option Position :=
  if typeEqb (ptype (piece m)) PAWN
     && (Z.abs (row (from m) - row (to m)) =? 2)
  then
    let direction := match color (piece m) with WHITE => 1 | BLACK => -1 end in
    Some (mkPos (row (to m) + direction) (col (to m)))
  else None.

(** The assignments [newCastlingRights[color].kingSide = false] and
    [... .queenSide = false]: they raise a [TypeError] ([None]) when the
    object has no entry for the colour. *)
Definition setRights (cr : CastlingRights) (c : PieceColor) (r : SideRights)
    : CastlingRights :=
  match c with
  | WHITE => mkCastling (Some r) (rightsBlack cr)
  | BLACK => mkCastling (rightsWhite cr) (Some r)
  end.

Definition clearKingSide (cr : CastlingRights) (c : PieceColor)
    : option CastlingRights :=
  match rightsOf cr c with
  | Some r => Some (setRights cr c (mkRights false (queenSide r)))
  | None => None
  end.

Definition clearQueenSide (cr : CastlingRights) (c : PieceColor)
    : option CastlingRights :=
  match rightsOf cr c with
  | Some r => Some (setRights cr c (mkRights (kingSide r) false))
  | None => None
  end.

(** Sequencing of statements that may raise. *)
Definition andThen {A B : Type} (x : option A) (k : A -> option B) : option B :=
  match x with Some a => k a | None => None end.

(** [updateCastlingRights]: the rights object after the move, [None] when
    an assignment raises. *)
Definition updateCastlingRights (m : Move) (newCastlingRights : CastlingRights)
    : option CastlingRights :=
  let p := piece m in
  andThen
    (if typeEqb (ptype p) KING then
       andThen (clearKingSide newCastlingRights (color p))
               (fun cr => clearQueenSide cr (color p))
     else Some newCastlingRights)
    (fun cr1 =>
       andThen
         (if typeEqb (ptype p) ROOK then
            if col (from m) =? 7 then clearKingSide cr1 (color p)
            else if col (from m) =? 0 then clearQueenSide cr1 (color p)
            else Some cr1
          else Some cr1)
         (fun cr2 =>
            match capturedPiece m with
            | Some captured =>
                if typeEqb (ptype captured) ROOK then
                  let opponentColor := opponent (color p) in
                  if col (to m) =? 7 then clearKingSide cr2 opponentColor
                  else if col (to m) =? 0 then clearQueenSide cr2 opponentColor
                  else Some cr2
                else Some cr2
            | None => Some cr2
            end)).

(** ** The shapes of generated moves *)

(** The moves the generator can push for the piece [p] standing on
    [position], each with the tests of the source that guard the push. *)
Inductive GeneratedShape (b : Board) (position : Position) (p : Piece)
    (ep : option Position) (cr : CastlingRights) : Move -> Prop :=
| shape_quiet (t : Position) :
    isValidPosition t = true -> getCell b t = None ->
    GeneratedShape b position p ep cr (simpleMove position t NORMAL p None)
| shape_capture (t : Position) (x : Piece) :
    isValidPosition t = true -> getCell b t = Some x -> color x <> color p ->
    GeneratedShape b position p ep cr (simpleMove position t CAPTURE p (Some x))
| shape_promotion (t : Position) (promotion : PieceType) :
    ptype p = PAWN ->
    isValidPosition t = true -> getCell b t = None ->
    isPromotionRow (color p) (row t) = true ->
    In promotion promotionPieces ->
    GeneratedShape b position p ep cr
      (mkMove position t PROMOTION p None (Some promotion) None None None)
| shape_capture_promotion (t : Position) (x : Piece) (promotion : PieceType) :
    ptype p = PAWN ->
    isValidPosition t = true -> getCell b t = Some x -> color x <> color p ->
    isPromotionRow (color p) (row t) = true ->
    In promotion promotionPieces ->
    GeneratedShape b position p ep cr
      (mkMove position t CAPTURE_AND_PROMOTION p (Some x) (Some promotion)
         None None None)
| shape_en_passant (t e : Position) (capturedPawn : Piece) :
    ptype p = PAWN ->
    ep = Some e -> t = e ->
    isValidPosition t = true ->
    row t = row position + pawnDirection (color p) ->
    (col t = col position - 1 \/ col t = col position + 1) ->
    getCell b (mkPos (row position) (col e)) = Some capturedPawn ->
    ptype capturedPawn = PAWN -> color capturedPawn <> color p ->
    GeneratedShape b position p ep cr
      (mkMove position t EN_PASSANT p (Some capturedPawn) None None None
         (Some (mkPos (row position) (col e))))
| shape_castle_kingside (r : SideRights) :
    ptype p = KING -> hasMoved p = false ->
    rightsOf cr (color p) = Some r -> kingSide r = true ->
    getCell b (mkPos (kingRankOf (color p)) 5) = None ->
    getCell b (mkPos (kingRankOf (color p)) 6) = None ->
    isCastlingRook (getCell b (mkPos (kingRankOf (color p)) 7)) (color p) = true ->
    GeneratedShape b position p ep cr
      (mkMove position (mkPos (kingRankOf (color p)) 6) CASTLE_KINGSIDE p None None
         (Some (mkPos (kingRankOf (color p)) 7))
         (Some (mkPos (kingRankOf (color p)) 5)) None)
| shape_castle_queenside (r : SideRights) :
    ptype p = KING -> hasMoved p = false ->
    rightsOf cr (color p) = Some r -> queenSide r = true ->
    getCell b (mkPos (kingRankOf (color p)) 1) = None ->
    getCell b (mkPos (kingRankOf (color p)) 2) = None ->
    getCell b (mkPos (kingRankOf (color p)) 3) = None ->
    isCastlingRook (getCell b (mkPos (kingRankOf (color p)) 0)) (color p) = true ->
    GeneratedShape b position p ep cr
      (mkMove position (mkPos (kingRankOf (color p)) 2) CASTLE_QUEENSIDE p None None
         (Some (mkPos (kingRankOf (color p)) 0))
         (Some (mkPos (kingRankOf (color p)) 3)) None).

(** The directions along which a piece slides. *)
Definition slidingDirections (t : PieceType) : list Direction :=
  match t with
  | BISHOP => diagonalDirections
  | ROOK => straightDirections
  | QUEEN => allDirections
  | _ => []
  end.

(** The offsets by which a piece steps: the knight's jumps, the king's
    eight neighbours. *)
Definition stepDirections (t : PieceType) : list Direction :=
  match t with
  | KNIGHT => KNIGHT_MOVES
  | KING => allDirections
  | _ => []
  end.

(** The square [k] steps from [position] along [d]. *)
Definition stepsFrom (position : Position) (d : Direction) (k : Z) : Position :=
  mkPos (row position + k * drow d) (col position + k * dcol d).

(** One rights entry grants no more than another. *)
Definition sideLeb (r' r : SideRights) : Prop :=
  (kingSide r' = true -> kingSide r = true)
  /\ (queenSide r' = true -> queenSide r = true).

(** The rights object [cr'] has the entries of [cr] and grants no more. *)
Definition rightsLeb (cr' cr : CastlingRights) : Prop :=
  forall c,
    match rightsOf cr' c, rightsOf cr c with
    | Some r', Some r => sideLeb r' r
    | None, None => True
    | _, _ => False
    end.

(** ** The squares a call of [applyMove] writes *)


(** ** The search without cut-offs *)

(** The loops of [minimax] with the test [beta <= alpha] left out, and with
    it the window: every move of the list is searched. *)
Section PlainLoops.
Variable child : Board -> option Num.
Variable board : Board.

Fixpoint plainMaxLoop (moves : list Move) (maxEval : Num) : option Num :=
  match moves with
  | [] => Some maxEval
  | move :: rest =>
      let newBoard := applyMove (deepClone board) move in
      match child newBoard with
      | None => None
      | Some ev => plainMaxLoop rest (numMax maxEval ev)
      end
  end.

Fixpoint plainMinLoop (moves : list Move) (minEval : Num) : option Num :=
  match moves with
  | [] => Some minEval
  | move :: rest =>
      let newBoard := applyMove (deepClone board) move in
      match child newBoard with
      | None => None
      | Some ev => plainMinLoop rest (numMin minEval ev)
      end
  end.
End PlainLoops.

(** The minimax value of a position: [minimax] without its cut-offs. *)
Fixpoint minimaxValue (fuel : nat) (b : Board) (depth : Z)
    (isMaximizingPlayer : bool) (enPassantTarget : option Position)
    (castlingRights : CastlingRights) : option Num :=
  match fuel with
  | O => None
  | S fuel' =>
      if isTerminal b depth then Some (Fin (evaluateBoard b))
      else
        let playerColor := if isMaximizingPlayer then BLACK else WHITE in
        let moves := allMoves b playerColor enPassantTarget castlingRights in
        if (length moves =? 0)%nat then Some (Fin (evaluateBoard b))
        else if isMaximizingPlayer then
          plainMaxLoop
            (fun newBoard =>
               minimaxValue fuel' newBoard (depth - 1) false
                 enPassantTarget castlingRights)
            b moves NegInf
        else
          plainMinLoop
            (fun newBoard =>
               minimaxValue fuel' newBoard (depth - 1) true
                 enPassantTarget castlingRights)
            b moves PosInf
  end.

(** What a search within the window [(alpha, beta)] owes to the value [v]:
    the result [r] is [v] when [v] lies inside the window, and lies on the
    same side of the window as [v] otherwise. *)
Definition agreesInWindow (alpha beta v r : Num) : Prop :=
  (numLtb alpha v = true -> numLtb v beta = true -> r = v)
  /\ (numLeb v alpha = true -> numLeb r alpha = true)
  /\ (numLeb beta v = true -> numLeb beta r = true).

(** The numbers whose finite part is at most [B] in absolute value, and
    their seats among the integers, the two infinities just outside
    [[-B, B]]: on these numbers the order is the order of the seats. *)
Definition within (B : Z) (x : Num) : Prop :=
  match x with Fin z => - B <= z <= B | _ => 0 <= B end.

Definition seat (B : Z) (x : Num) : Z :=
  match x with NegInf => - B - 1 | Fin z => z | PosInf => B + 1 end.

Definition spread (x : Num) : Z :=
  match x with Fin z => Z.abs z | _ => 0 end.

(** [s] is strictly better than [t] for the side [findBestMove] moves. *)
Definition better (isBlack : bool) (s t : Num) : bool :=
  if isBlack then numLtb t s else numLtb s t.

(** ** Algebraic notation ([boardUtils.ts])

    Strings are sequences of code units below 256; [toLowerCase] maps the
    capital letters among them to the small ones and keeps every other
    unit. *)

Definition FILES : list string :=
  ["a"; "b"; "c"; "d"; "e"; "f"; "g"; "h"]%string.

Definition RANKS : list string :=
  ["8"; "7"; "6"; "5"; "4"; "3"; "2"; "1"]%string.

Definition toLowerCaseUnit (c : ascii) : ascii :=
  let n := N_of_ascii c in
  if ((65 <=? n) && (n <=? 90)
      || (192 <=? n) && (n <=? 222) && negb (n =? 215))%N
  then ascii_of_N (n + 32) else c.

Fixpoint toLowerCase (s : string) : string :=
  match s with
  | EmptyString => EmptyString
  | String c rest => String (toLowerCaseUnit c) (toLowerCase rest)
  end.

(** [s.charAt(i)]: the empty string beyond the end. *)
Definition charAt (s : string) (i : nat) : string :=
  match String.get i s with
  | Some c => String c EmptyString
  | None => EmptyString
  end.

Definition includes (l : list string) (x : string) : bool :=
  existsb (String.eqb x) l.

Fixpoint indexOfFrom (l : list string) (x : string) (i : Z) : Z :=
  match l with
  | [] => -1
  | y :: rest => if String.eqb y x then i else indexOfFrom rest x (i + 1)
  end.

Definition indexOf (l : list string) (x : string) : Z := indexOfFrom l x 0.

Definition algebraicToCoords (algebraic : string) : option Position :=
  if (String.length algebraic =? 0)%nat
     || negb (String.length algebraic =? 2)%nat
  then None
  else
    let file := toLowerCase (charAt algebraic 0) in
    let rank := charAt algebraic 1 in
    if negb (includes FILES file) || negb (includes RANKS rank) then None
    else
      let c := indexOf FILES file in
      let r := indexOf RANKS rank in
      Some (mkPos r c).

Definition coordsToAlgebraic (position : Position) : option string :=
  let r := row position in
  let c := col position in
  if (r <? 0) || (r >=? BOARD_SIZE) || (c <? 0) || (c >=? BOARD_SIZE) then None
  else
    let file := nth (Z.to_nat c) FILES EmptyString in
    let rank := nth (Z.to_nat r) RANKS EmptyString in
    Some (file ++ rank)%string.

(** ** Material, piece by piece *)

(** What [evaluateMaterial] adds for the content of one cell. *)
Definition pieceScore (c : option Piece) : Z :=
  match c with
  | Some p =>
      if colorEqb (color p) BLACK then PIECE_VALUES (ptype p)
      else - PIECE_VALUES (ptype p)
  | None => 0
  end.

Definition sumOver {A : Type} (f : A -> Z) (l : list A) : Z :=
  fold_right (fun x acc => f x + acc) 0 l.

(** The direction in which a colour's gains move the score: up for black,
    down for white. *)
Definition scoreSign (c : PieceColor) : Z :=
  match c with BLACK => 1 | WHITE => -1 end.

(** The value of the piece a move records as captured, and the value a
    promotion adds to the pawn's. *)
Definition capturedValue (m : Move) : Z :=
  match capturedPiece m with
  | Some x => PIECE_VALUES (ptype x)
  | None => 0
  end.

Definition promotionGain (m : Move) : Z :=
  match promotionPieceType m with
  | Some t => PIECE_VALUES t - PIECE_VALUES PAWN
  | None => 0
  end.

(** ** Further example positions and moves *)

(** A white pawn on (3,4) beside a black pawn that has just advanced two
    squares to (3,5): the en-passant target is (2,5). *)
Definition enPassantBoard : Board :=
  place emptyBoard
    [ (mkPos 3 4, moved PAWN WHITE); (mkPos 3 5, moved PAWN BLACK);
      (mkPos 7 4, moved KING WHITE); (mkPos 0 4, moved KING BLACK) ].

Definition enPassantMove : Move :=
  mkMove (mkPos 3 4) (mkPos 2 5) EN_PASSANT (moved PAWN WHITE)
    (Some (moved PAWN BLACK)) None None None (Some (mkPos 3 5)).

(** The two-square advance of the pawn on (6,4) from the initial position. *)
Definition pawnDouble : Move :=
  simpleMove (mkPos 6 4) (mkPos 4 4) NORMAL (mkPiece PAWN WHITE false) None.

(** On [promotionBoard]: the pawn takes the rook and becomes a queen. *)
Definition promotionCapture : Move :=
  mkMove (mkPos 1 0) (mkPos 0 1) CAPTURE_AND_PROMOTION (moved PAWN WHITE)
    (Some (moved ROOK BLACK)) (Some QUEEN) None None None.

(** On [loneRook]: the rook slides three squares down its file. *)
Definition rookSlide : Move :=
  simpleMove (mkPos 0 4) (mkPos 3 4) NORMAL (moved ROOK BLACK) None.

(** The castling rights left to white and black after [castleMove]. *)
Definition rightsAfterCastle : CastlingRights :=
  mkCastling (Some (mkRights false false)) (Some (mkRights true true)).

(** ** FEN ([boardUtils.ts])

    The four structured fields of a FEN string: the board, the side to
    move, the castling rights and the en-passant target.  The two clocks
    that end the string are numbers; [clocks] stands for the text
    [halfmoveClock + ' ' + fullmoveNumber] that [boardToFEN] appends, and
    [parseFEN] is followed up to the en-passant target (its two [parseInt]
    calls on the clock parts touch no other field). *)

Record FENState : Type := mkFEN {
  fenBoard : Board;
  fenActiveColor : PieceColor;
  fenCastlingRights : CastlingRights;
  fenEnPassantTarget : option Position
}.

(** [toUpperCase] on one code unit: the small letters become capital.  (Of
    the units below 256 the source applies it to, the three whose capital
    is no single unit below 256 are no piece letters, neither are their
    capitals.) *)
Definition toUpperCaseUnit (c : ascii) : ascii :=
  let n := N_of_ascii c in
  if ((97 <=? n) && (n <=? 122)
      || (224 <=? n) && (n <=? 254) && negb (n =? 247))%N
  then ascii_of_N (n - 32) else c.

Definition pieceChar (p : Piece) : ascii :=
  let pieceChar :=
    match ptype p with
    | PAWN => "p" | ROOK => "r" | KNIGHT => "n"
    | BISHOP => "b" | QUEEN => "q" | KING => "k"
    end%char in
  if colorEqb (color p) WHITE then toUpperCaseUnit pieceChar else pieceChar.

(** [fen += emptyCount]: the decimal rendering of a count of empty squares,
    which the loop over eight cells keeps between 1 and 8. *)
Definition digitString (n : Z) : string :=
  String (ascii_of_N (48 + Z.to_N n)) EmptyString.

(** The body of the loop over the cells of row [i]; the state is the text
    so far and [emptyCount]. *)
Definition emitCell (b : Board) (i : Z) (st : string * Z) (j : Z) : string * Z :=
  let fen := fst st in
  let emptyCount := snd st in
  match getCell b (mkPos i j) with
  | None => (fen, emptyCount + 1)
  | Some piece =>
      let st' :=
        if 0 <? emptyCount then ((fen ++ digitString emptyCount)%string, 0)
        else (fen, emptyCount) in
      ((fst st' ++ String (pieceChar piece) EmptyString)%string, snd st')
  end.

(** The body of the loop over the rows. *)
Definition emitRow (b : Board) (fen : string) (i : Z) : string :=
  let st := fold_left (emitCell b i) indices (fen, 0) in
  let fen :=
    if 0 <? snd st then (fst st ++ digitString (snd st))%string else fst st in
  if i <? BOARD_SIZE - 1 then (fen ++ "/")%string else fen.

(** [boardToFEN]: [None] when the castling rights lack the entry of a
    colour, where the source raises. *)
Definition boardToFEN (gameState : FENState) (clocks : string) : option string :=
  let fen := fold_left (emitRow (fenBoard gameState)) indices EmptyString in
  let fen :=
    (fen ++ " "
         ++ (if colorEqb (fenActiveColor gameState) WHITE then "w" else "b"))%string in
  match rightsOf (fenCastlingRights gameState) WHITE,
        rightsOf (fenCastlingRights gameState) BLACK with
  | Some white, Some black =>
      let castlingString := EmptyString in
      let castlingString :=
        if kingSide white then (castlingString ++ "K")%string else castlingString in
      let castlingString :=
        if queenSide white then (castlingString ++ "Q")%string else castlingString in
      let castlingString :=
        if kingSide black then (castlingString ++ "k")%string else castlingString in
      let castlingString :=
        if queenSide black then (castlingString ++ "q")%string else castlingString in
      let fen :=
        (fen ++ " "
             ++ (if String.eqb castlingString EmptyString then "-"
                 else castlingString))%string in
      let fen :=
        (fen ++ " "
             ++ match fenEnPassantTarget gameState with
                | Some target =>
                    match coordsToAlgebraic target with
                    | Some name => name
                    | None => "null"
                    end
                | None => "-"
                end)%string in
      Some (fen ++ " " ++ clocks)%string
  | _, _ => None
  end.

(** [s.split(sep)] for a separator of one unit. *)
Fixpoint splitOn (sep : ascii) (s : string) : list string :=
  match s with
  | EmptyString => [EmptyString]
  | String c rest =>
      if Ascii.eqb c sep then EmptyString :: splitOn sep rest
      else
        match splitOn sep rest with
        | x :: xs => String c x :: xs
        | [] => [String c EmptyString]
        end
  end.

(** [s.includes(c)] for a string [c] of one unit. *)
Fixpoint includesUnit (s : string) (c : ascii) : bool :=
  match s with
  | EmptyString => false
  | String x rest => Ascii.eqb x c || includesUnit rest c
  end.

(** [parseInt(char)] and [isNaN(Number(char))] for a string of one unit:
    [Number] reads a digit as its value and a white-space unit as 0, and
    [parseInt] reads digits only. *)
Definition digitValue (char : ascii) : option Z :=
  let n := N_of_ascii char in
  if ((48 <=? n) && (n <=? 57))%N then Some (Z.of_N n - 48) else None.

Definition isWhiteSpaceUnit (char : ascii) : bool :=
  existsb (N.eqb (N_of_ascii char)) [9; 10; 11; 12; 13; 32; 160]%N.

Definition isNaNNumber (char : ascii) : bool :=
  match digitValue char with
  | Some _ => false
  | None => negb (isWhiteSpaceUnit char)
  end.

(** The [switch] on [char.toUpperCase()]. *)
Definition pieceTypeOf (upper : ascii) : option PieceType :=
  if Ascii.eqb upper "P" then Some PAWN
  else if Ascii.eqb upper "R" then Some ROOK
  else if Ascii.eqb upper "N" then Some KNIGHT
  else if Ascii.eqb upper "B" then Some BISHOP
  else if Ascii.eqb upper "Q" then Some QUEEN
  else if Ascii.eqb upper "K" then Some KING
  else None.

(** The body of the loop over the units of a row text.  The state is the
    row under construction and [col], [None] standing for [NaN]; the whole
    state is [None] once a piece is written beyond the eighth cell, where
    the source makes the row longer than the grid is wide.  A write at
    column [NaN] touches no cell. *)
Definition parseUnit (st : option (list (option Piece) * option Z)) (char : ascii)
    : option (list (option Piece) * option Z) :=
  match st with
  | None => None
  | Some (cells, col) =>
      if isNaNNumber char then
        let color :=
          if Ascii.eqb char (toUpperCaseUnit char) then WHITE else BLACK in
        match pieceTypeOf (toUpperCaseUnit char) with
        | Some type =>
            match col with
            | Some c =>
                if c <? BOARD_SIZE then
                  Some (setNth (Z.to_nat c) (Some (mkPiece type color false)) cells,
                        Some (c + 1))
                else None
            | None => Some (cells, None)
            end
        | None => Some (cells, col)
        end
      else
        Some (cells,
              match col, digitValue char with
              | Some c, Some d => Some (c + d)
              | _, _ => None
              end)
  end.

Fixpoint parseUnits (s : string) (st : option (list (option Piece) * option Z))
    : option (list (option Piece) * option Z) :=
  match s with
  | EmptyString => st
  | String char rest => parseUnits rest (parseUnit st char)
  end.

(** One row; [rows[i]] is [None] when the board part has fewer rows, where
    the source raises. *)
Definition parseRow (rowText : option string) : option (list (option Piece)) :=
  match rowText with
  | None => None
  | Some text => option_map fst (parseUnits text (Some (emptyRow, Some 0)))
  end.

Definition parseBoard (boardPart : string) : option Board :=
  let rows := splitOn "/" boardPart in
  fold_right
    (fun i acc =>
       match parseRow (nth_error rows (Z.to_nat i)), acc with
       | Some cells, Some below => Some (cells :: below)
       | _, _ => None
       end)
    (Some []) indices.

(** [parseFEN]: [None] where the source raises (fewer than eight rows, no
    castling part) or leaves the 8x8 grid. *)
Definition parseFEN (fen : string) : option FENState :=
  let parts := splitOn " " fen in
  let boardPart := nth 0 parts EmptyString in
  let activeColorPart := nth_error parts 1 in
  let castlingPart := nth_error parts 2 in
  let enPassantPart := nth_error parts 3 in
  match parseBoard boardPart with
  | None => None
  | Some board =>
      let activeColor :=
        match activeColorPart with
        | Some part => if String.eqb part "w" then WHITE else BLACK
        | None => BLACK
        end in
      match castlingPart with
      | None => None
      | Some part =>
          let castlingRights :=
            mkCastling
              (Some (mkRights (includesUnit part "K") (includesUnit part "Q")))
              (Some (mkRights (includesUnit part "k") (includesUnit part "q"))) in
          let enPassantTarget :=
            match enPassantPart with
            | Some target =>
                if String.eqb target "-" then None else algebraicToCoords target
            | None => None
            end in
          Some (mkFEN board activeColor castlingRights enPassantTarget)
      end
  end.

(** The initial position as the source writes it. *)
Definition INITIAL_POSITION : string :=
  "rnbqkbnr/pppppppp/8/8/8/8/PPPPPPPP/RNBQKBNR w KQkq - 0 1".

(** A piece as FEN keeps it: without its [hasMoved] flag. *)
Definition unmoved (p : Piece) : Piece := mkPiece (ptype p) (color p) false.

(** The text of a row from its cells, [k] empty squares pending. *)
Fixpoint rowText (k : Z) (cells : list (option Piece)) : string :=
  match cells with
  | [] => if 0 <? k then digitString k else EmptyString
  | None :: rest => rowText (k + 1) rest
  | Some p :: rest =>
      String.append (if 0 <? k then digitString k else EmptyString)
        (String (pieceChar p) (rowText 0 rest))
  end.

(** The cells of row [i] as [boardToFEN] reads them. *)
Definition cellsOf (b : Board) (i : Z) : list (option Piece) :=
  map (fun j => getCell b (mkPos i j)) indices.

Fixpoint noUnit (sep : ascii) (s : string) : bool :=
  match s with
  | EmptyString => true
  | String c rest => negb (Ascii.eqb c sep) && noUnit sep rest
  end.

(** ** The game component ([components/ChessGame.tsx])

    The state of the component is the record of its state variables.  A
    handler runs in the closure of one render: it reads that render's state
    and its [set...] calls give the next state, so that a handler is a
    function from state to state, [None] where it raises. *)

Inductive GameMode : Type :=
  TWO_PLAYER | COMPUTER_EASY | COMPUTER_MEDIUM | COMPUTER_HARD | SPECIAL_MODE.

Definition modeEqb (a b : GameMode) : bool :=
  match a, b with
  | TWO_PLAYER, TWO_PLAYER | COMPUTER_EASY, COMPUTER_EASY
  | COMPUTER_MEDIUM, COMPUTER_MEDIUM | COMPUTER_HARD, COMPUTER_HARD
  | SPECIAL_MODE, SPECIAL_MODE => true
  | _, _ => false
  end.

Definition stateEqb (a b : GameState) : bool :=
  match a, b with
  | ACTIVE, ACTIVE | CHECK, CHECK | CHECKMATE, CHECKMATE
  | STALEMATE, STALEMATE | DRAW, DRAW => true
  | _, _ => false
  end.

(** [AI_DEPTH[mode]]: [None] is [undefined]. *)
Definition AI_DEPTH (mode : GameMode) : option Z :=
  match mode with
  | COMPUTER_EASY => Some 1
  | COMPUTER_MEDIUM => Some 2
  | COMPUTER_HARD => Some 3
  | _ => None
  end.

(** [capturedPieces]: the pieces each colour has captured. *)
Record Captured : Type := mkCaptured {
  capturedByWhite : list Piece;
  capturedByBlack : list Piece
}.

Definition pushCaptured (c : Captured) (by_ : PieceColor) (x : Piece) : Captured :=
  match by_ with
  | WHITE => mkCaptured (capturedByWhite c ++ [x]) (capturedByBlack c)
  | BLACK => mkCaptured (capturedByWhite c) (capturedByBlack c ++ [x])
  end.

Record Game : Type := mkGame {
  s_board : Board;
  s_currentPlayer : PieceColor;
  s_gameState : GameState;
  s_selectedPosition : option Position;
  s_validMoves : list Move;
  s_gameMode : GameMode;
  s_moveHistory : list Move;
  s_capturedPieces : Captured;
  s_enPassantTarget : option Position;
  s_castlingRights : CastlingRights;
  s_isAIThinking : bool
}.

Definition initializeBoard (s : Game) : option Game :=
  match parseFEN INITIAL_POSITION with
  | None => None
  | Some parsed =>
      Some (mkGame (fenBoard parsed) (fenActiveColor parsed) ACTIVE None []
              (s_gameMode s) [] (mkCaptured [] [])
              (fenEnPassantTarget parsed) (fenCastlingRights parsed) false)
  end.

Definition selectPiece (s : Game) (position : Position) : Game :=
  match getCell (s_board s) position with
  | None =>
      mkGame (s_board s) (s_currentPlayer s) (s_gameState s) (Some position)
        (s_validMoves s) (s_gameMode s) (s_moveHistory s) (s_capturedPieces s)
        (s_enPassantTarget s) (s_castlingRights s) (s_isAIThinking s)
  | Some _ =>
      let possibleMoves :=
        getPossibleMoves (s_board s) position (s_enPassantTarget s)
          (s_castlingRights s) in
      let legalMoves :=
        filterLegalMoves (s_board s) possibleMoves (s_currentPlayer s) in
      mkGame (s_board s) (s_currentPlayer s) (s_gameState s) (Some position)
        legalMoves (s_gameMode s) (s_moveHistory s) (s_capturedPieces s)
        (s_enPassantTarget s) (s_castlingRights s) (s_isAIThinking s)
  end.

(** [makeMove]; the deep copies of the captured pieces and of the castling
    rights are equal to what they copy. *)
Definition makeMove (s : Game) (move : Move) : option Game :=
  let newBoard := applyMove (deepClone (s_board s)) move in
  match updateCastlingRights move (s_castlingRights s) with
  | None => None
  | Some newCastlingRights =>
      let newCapturedPieces :=
        match capturedPiece move with
        | Some captured =>
            pushCaptured (s_capturedPieces s) (color (piece move)) captured
        | None => s_capturedPieces s
        end in
      let newEnPassantTarget := makeMove_enPassantTarget move in
      let newMoveHistory := s_moveHistory s ++ [move] in
      let nextPlayer :=
        if colorEqb (s_currentPlayer s) WHITE then BLACK else WHITE in
      let newGameState := calculateGameState newBoard nextPlayer in
      Some (mkGame newBoard nextPlayer newGameState (s_selectedPosition s)
              (s_validMoves s) (s_gameMode s) newMoveHistory newCapturedPieces
              newEnPassantTarget newCastlingRights (s_isAIThinking s))
  end.

Definition deselect (s : Game) : Game :=
  mkGame (s_board s) (s_currentPlayer s) (s_gameState s) None []
    (s_gameMode s) (s_moveHistory s) (s_capturedPieces s)
    (s_enPassantTarget s) (s_castlingRights s) (s_isAIThinking s).

(** The test [piece && piece.color === currentPlayer]. *)
Definition ownPiece (s : Game) (position : Position) : bool :=
  match getCell (s_board s) position with
  | Some piece => colorEqb (color piece) (s_currentPlayer s)
  | None => false
  end.

Definition handleSquareClick (s : Game) (position : Position) : option Game :=
  if negb (stateEqb (s_gameState s) ACTIVE) then Some s
  else if s_isAIThinking s
          || (colorEqb (s_currentPlayer s) BLACK
              && negb (modeEqb (s_gameMode s) TWO_PLAYER))
  then Some s
  else
    match s_selectedPosition s with
    | Some selectedPosition =>
        match find (fun move => (row (to move) =? row position)
                                && (col (to move) =? col position))
                   (s_validMoves s) with
        | Some moveToMake => option_map deselect (makeMove s moveToMake)
        | None =>
            if (row selectedPosition =? row position)
               && (col selectedPosition =? col position)
            then Some (deselect s)
            else if ownPiece s position then Some (selectPiece s position)
            else Some (deselect s)
        end
    | None =>
        if ownPiece s position then Some (selectPiece s position) else Some s
    end.

(** [updateGameState]: the state with the game state recomputed. *)
Definition updateGameState (s : Game) (newBoard : Board) (nextPlayer : PieceColor)
    : Game :=
  let newGameState :=
    if isKingInCheck newBoard nextPlayer then
      if isCheckmate newBoard nextPlayer then CHECKMATE else CHECK
    else if isStalemate newBoard nextPlayer then STALEMATE
    else ACTIVE in
  mkGame (s_board s) (s_currentPlayer s) newGameState (s_selectedPosition s)
    (s_validMoves s) (s_gameMode s) (s_moveHistory s) (s_capturedPieces s)
    (s_enPassantTarget s) (s_castlingRights s) (s_isAIThinking s).

Definition stopThinking (s : Game) : Game :=
  mkGame (s_board s) (s_currentPlayer s) (s_gameState s) (s_selectedPosition s)
    (s_validMoves s) (s_gameMode s) (s_moveHistory s) (s_capturedPieces s)
    (s_enPassantTarget s) (s_castlingRights s) false.

(** [performAIMove], the body of [makeAIMove]; [fuel] is the budget of the
    search, [None] a search that does not return or a handler that raises. *)
Definition performAIMove (fuel : nat) (s : Game) : option Game :=
  let depth :=
    match AI_DEPTH (s_gameMode s) with
    | Some d => if d =? 0 then 1 else d
    | None => 1
    end in
  match findBestMove fuel (s_board s) depth true (s_enPassantTarget s)
          (s_castlingRights s) with
  | None => None
  | Some (Some aiMove) => option_map stopThinking (makeMove s aiMove)
  | Some None => Some (stopThinking (updateGameState s (s_board s) BLACK))
  end.

(** The loop of [undoMove] that replays the kept moves on the initial
    board, with the castling rights and the captured pieces. *)
Definition replayStep (acc : option (Board * CastlingRights * Captured))
    (move : Move) : option (Board * CastlingRights * Captured) :=
  match acc with
  | None => None
  | Some (newBoard, newCastlingRights, captured) =>
      match updateCastlingRights move newCastlingRights with
      | None => None
      | Some rights =>
          Some (applyMove newBoard move, rights,
                match capturedPiece move with
                | Some x => pushCaptured captured (color (piece move)) x
                | None => captured
                end)
      end
  end.

Definition undoMove (s : Game) : option Game :=
  if (length (s_moveHistory s) =? 0)%nat then Some s
  else
    let movesToUndo :=
      if negb (modeEqb (s_gameMode s) TWO_PLAYER) then 2%nat else 1%nat in
    if (length (s_moveHistory s) <? movesToUndo)%nat then Some s
    else
      match parseFEN INITIAL_POSITION with
      | None => None
      | Some parsed =>
          let newMoveHistory :=
            firstn (length (s_moveHistory s) - movesToUndo) (s_moveHistory s) in
          match fold_left replayStep newMoveHistory
                  (Some (fenBoard parsed, fenCastlingRights parsed,
                         mkCaptured [] [])) with
          | None => None
          | Some (newBoard, newCastlingRights, captured) =>
              let player :=
                if (Nat.even (length newMoveHistory)) then WHITE else BLACK in
              Some (updateGameState
                      (mkGame newBoard player ACTIVE None [] (s_gameMode s)
                         newMoveHistory captured None newCastlingRights
                         (s_isAIThinking s))
                      newBoard player)
          end
      end.

Definition changeGameMode (s : Game) (mode : GameMode) : option Game :=
  initializeBoard
    (mkGame (s_board s) (s_currentPlayer s) (s_gameState s)
       (s_selectedPosition s) (s_validMoves s) mode (s_moveHistory s)
       (s_capturedPieces s) (s_enPassantTarget s) (s_castlingRights s)
       (s_isAIThinking s)).

Definition restartGame (s : Game) : option Game := initializeBoard s.

(** *** Notions for the statements on the component *)

(** The board, the castling rights and the captured pieces after the moves
    of a history, played from the initial position. *)
Definition replay (history : list Move)
    : option (Board * CastlingRights * Captured) :=
  fold_left replayStep history
    (Some (initialBoard, defaultCastlingRights, mkCaptured [] [])).

Definition playerAfter (history : list Move) : PieceColor :=
  if Nat.even (length history) then WHITE else BLACK.

(** The state agrees with its move history. *)
Definition replayed (s : Game) : Prop :=
  replay (s_moveHistory s)
  = Some (s_board s, s_castlingRights s, s_capturedPieces s)
  /\ s_currentPlayer s = playerAfter (s_moveHistory s)
  /\ s_gameState s = calculateGameState (s_board s) (s_currentPlayer s).

(** The moves offered for the selected piece are legal moves of the player
    to move, and none is offered while the computer is to move. *)
Definition selectionOk (s : Game) : Prop :=
  (forall m, In m (s_validMoves s) ->
             In m (allMoves (s_board s) (s_currentPlayer s)
                     (s_enPassantTarget s) (s_castlingRights s)))
  /\ (s_currentPlayer s = BLACK -> s_gameMode s <> TWO_PLAYER ->
      s_validMoves s = []).

(** Several moves made in a row. *)
Definition makeMoves (s : Game) (moves : list Move) : option Game :=
  fold_left (fun acc move =>
               match acc with
               | Some current => makeMove current move
               | None => None
               end) moves (Some s).

(** The number of moves [undoMove] takes back. *)
Definition movesToUndo (mode : GameMode) : nat :=
  if negb (modeEqb mode TWO_PLAYER) then 2%nat else 1%nat.

(** A new game between two players, and a game against the computer with
    black to move in the corner position [shuffleA]. *)
Definition newGame : Game :=
  mkGame initialBoard WHITE ACTIVE None [] TWO_PLAYER []
    (mkCaptured [] []) None defaultCastlingRights false.

Definition computerGame : Game :=
  mkGame shuffleA BLACK ACTIVE None [] COMPUTER_EASY []
    (mkCaptured [] []) None defaultCastlingRights true.

(** * Properties *)

(** ** Reads after writes on the grid *)

Section SetNth.
Context {A : Type}.

Lemma setNth_length (n : nat) (x : A) (l : list A) :
  length (setNth n x l) = length l.
Proof.
  revert n; induction l as [|y l IH]; intros [|n]; simpl; auto.
Qed.

Lemma nth_error_setNth_same (n : nat) (x : A) (l : list A) :
  (n < length l)%nat -> nth_error (setNth n x l) n = Some x.
Proof.
  revert n; induction l as [|y l IH]; intros [|n] H; simpl in *;
    try lia; auto.
  apply IH; lia.
Qed.

Lemma nth_error_setNth_other (n m : nat) (x : A) (l : list A) :
  n <> m -> nth_error (setNth n x l) m = nth_error l m.
Proof.
  revert n m; induction l as [|y l IH]; intros [|n] [|m] H; simpl;
    try congruence; auto.
Qed.
End SetNth.

Lemma position_eq_dec (p q : Position) : {p = q} + {p <> q}.
Proof.
  destruct p as [r c], q as [r' c'].
  destruct (Z.eq_dec r r'), (Z.eq_dec c c'); subst; auto;
    right; intros H; inversion H; contradiction.
Defined.

Lemma posEqb_true_iff (p q : Position) : posEqb p q = true <-> p = q.
Proof.
  destruct p as [r c], q as [r' c']; unfold posEqb; simpl.
  rewrite andb_true_iff, !Z.eqb_eq. split.
  - intros [-> ->]; reflexivity.
  - intros H; inversion H; auto.
Qed.

Lemma posEqb_refl (p : Position) : posEqb p p = true.
Proof. apply posEqb_true_iff; reflexivity. Qed.

Lemma posEqb_false_iff (p q : Position) : posEqb p q = false <-> p <> q.
Proof.
  rewrite <- posEqb_true_iff. destruct (posEqb p q); split; congruence.
Qed.

Lemma wf_board_rows (b : Board) :
  wf_board b = true ->
  length b = 8%nat /\ (forall r, In r b -> length r = 8%nat).
Proof.
  unfold wf_board. rewrite andb_true_iff, Nat.eqb_eq, forallb_forall.
  intros [Hl Hr]; split; auto.
  intros r Hin. apply Nat.eqb_eq, Hr, Hin.
Qed.

Lemma isValidPosition_bounds (p : Position) :
  isValidPosition p = true <-> 0 <= row p < 8 /\ 0 <= col p < 8.
Proof.
  unfold isValidPosition, BOARD_SIZE.
  rewrite !andb_true_iff, !Z.leb_le, !Z.ltb_lt. lia.
Qed.

Lemma getCell_setCell_same (b : Board) (p : Position) (v : option Piece) :
  wf_board b = true -> isValidPosition p = true ->
  getCell (setCell b p v) p = v.
Proof.
  intros Hwf Hp. apply wf_board_rows in Hwf as [Hlen Hrows].
  apply isValidPosition_bounds in Hp as [Hr Hc].
  unfold getCell, setCell.
  replace ((0 <=? row p) && (0 <=? col p)) with true
    by (symmetry; apply andb_true_iff; split; apply Z.leb_le; lia).
  destruct (nth_error b (Z.to_nat (row p))) as [r|] eqn:Er.
  - rewrite nth_error_setNth_same by lia.
    rewrite nth_error_setNth_same; auto.
    rewrite (Hrows r) by (eapply nth_error_In; eauto). lia.
  - apply nth_error_None in Er. lia.
Qed.

Lemma getCell_setCell_other (b : Board) (p q : Position) (v : option Piece) :
  q <> p -> getCell (setCell b p v) q = getCell b q.
Proof.
  intros Hne. unfold getCell, setCell.
  destruct ((0 <=? row p) && (0 <=? col p)) eqn:Ep; auto.
  destruct (nth_error b (Z.to_nat (row p))) as [r|] eqn:Er; auto.
  destruct ((0 <=? row q) && (0 <=? col q)) eqn:Eq; auto.
  apply andb_true_iff in Ep as [Hpr Hpc], Eq as [Hqr Hqc].
  apply Z.leb_le in Hpr, Hpc, Hqr, Hqc.
  destruct (Nat.eq_dec (Z.to_nat (row p)) (Z.to_nat (row q))) as [Hrow|Hrow].
  - rewrite <- Hrow.
    rewrite nth_error_setNth_same by (apply nth_error_Some; congruence).
    rewrite Er.
    rewrite nth_error_setNth_other; auto.
    intros Hcol. apply Hne.
    destruct p as [pr pc], q as [qr qc]; simpl in *.
    f_equal; lia.
  - rewrite nth_error_setNth_other by auto. reflexivity.
Qed.

Lemma wf_board_setCell (b : Board) (p : Position) (v : option Piece) :
  wf_board b = true -> wf_board (setCell b p v) = true.
Proof.
  intros Hwf. pose proof (wf_board_rows b Hwf) as [Hlen Hrows].
  unfold setCell.
  destruct ((0 <=? row p) && (0 <=? col p)); auto.
  destruct (nth_error b (Z.to_nat (row p))) as [r|] eqn:Er; auto.
  unfold wf_board. rewrite setNth_length, Hlen. simpl.
  apply forallb_forall. intros x Hx. apply Nat.eqb_eq.
  apply In_nth_error in Hx as [n Hn].
  destruct (Nat.eq_dec (Z.to_nat (row p)) n) as [<-|Hneq].
  - rewrite nth_error_setNth_same in Hn by (apply nth_error_Some; congruence).
    inversion Hn; subst. rewrite setNth_length.
    apply Hrows. eapply nth_error_In; eauto.
  - rewrite nth_error_setNth_other in Hn by auto.
    apply Hrows. eapply nth_error_In; eauto.
Qed.

(** The JSON round trip rebuilds an equal board. *)
Lemma deepClone_id (b : Board) : deepClone b = b.
Proof.
  unfold deepClone.
  rewrite <- (map_id b) at 2. apply map_ext. intros r.
  rewrite <- (map_id r) at 2. apply map_ext. intros [[t c h]|]; reflexivity.
Qed.

Lemma positions_valid (pos : Position) :
  In pos positions -> isValidPosition pos = true.
Proof.
  assert (H : forallb isValidPosition positions = true) by reflexivity.
  rewrite forallb_forall in H. apply H.
Qed.

Lemma valid_in_positions (pos : Position) :
  isValidPosition pos = true -> In pos positions.
Proof.
  intros H. apply isValidPosition_bounds in H as [Hr Hc].
  destruct pos as [r c]; cbn [row col] in Hr, Hc.
  assert (Hr' : r = 0 \/ r = 1 \/ r = 2 \/ r = 3 \/ r = 4 \/ r = 5 \/ r = 6 \/ r = 7) by lia.
  assert (Hc' : c = 0 \/ c = 1 \/ c = 2 \/ c = 3 \/ c = 4 \/ c = 5 \/ c = 6 \/ c = 7) by lia.
  unfold positions. apply in_flat_map. exists r. split.
  - unfold indices. simpl. intuition.
  - apply in_map. unfold indices. simpl. intuition.
Qed.

Lemma getCell_setCell (b : Board) (p q : Position) (v : option Piece) :
  wf_board b = true -> isValidPosition p = true ->
  getCell (setCell b p v) q = if posEqb q p then v else getCell b q.
Proof.
  intros Hwf Hp. destruct (posEqb q p) eqn:E.
  - apply posEqb_true_iff in E; subst. apply getCell_setCell_same; auto.
  - apply posEqb_false_iff in E. apply getCell_setCell_other; auto.
Qed.

Lemma move_on_grid_parts (m : Move) :
  move_on_grid m = true ->
  isValidPosition (from m) = true /\ isValidPosition (to m) = true
  /\ validOpt (castlingRookFrom m) = true /\ validOpt (castlingRookTo m) = true
  /\ validOpt (enPassantCapturePos m) = true.
Proof.
  unfold move_on_grid. rewrite !andb_true_iff. tauto.
Qed.

(** Rewrites every read of a written board into a test on the position. *)
Ltac read_writes :=
  repeat (rewrite getCell_setCell by (repeat apply wf_board_setCell; assumption)).

(** ** The ray loop needs no more than eight iterations *)

Lemma stepsLeft_le (dx x : Z) : stepsLeft dx x <= 8.
Proof.
  unfold stepsLeft.
  destruct (Z.leb_spec 0 x), (Z.ltb_spec x 8), (Z.ltb_spec 0 dx); cbn [andb]; lia.
Qed.

Lemma stepsLeft_off (dx x : Z) : stepsLeft dx x <= 0 -> ~ 0 <= x < 8.
Proof.
  unfold stepsLeft.
  destruct (Z.leb_spec 0 x), (Z.ltb_spec x 8), (Z.ltb_spec 0 dx); cbn [andb]; lia.
Qed.

Lemma stepsLeft_step (dx x : Z) :
  dx <> 0 -> 0 <= x < 8 -> stepsLeft dx (x + dx) <= stepsLeft dx x - 1.
Proof.
  unfold stepsLeft. intros Hdx Hx.
  destruct (Z.leb_spec 0 x), (Z.ltb_spec x 8), (Z.ltb_spec 0 dx),
    (Z.leb_spec 0 (x + dx)), (Z.ltb_spec (x + dx) 8); cbn [andb]; lia.
Qed.

Lemma linearRay_off_grid (fuel : nat) (b : Board) (position : Position)
    (p : Piece) (d : Direction) (r c : Z) :
  isValidPosition (mkPos r c) = false ->
  linearRay fuel b position p d r c = [].
Proof. intros H. destruct fuel; simpl; [|rewrite H]; reflexivity. Qed.

Lemma linearRay_stable (k n : nat) (b : Board) (position : Position) (p : Piece)
    (d : Direction) :
  drow d <> 0 \/ dcol d <> 0 ->
  forall r c,
    rayBound d r c <= Z.of_nat n ->
    linearRay (n + k) b position p d r c = linearRay n b position p d r c.
Proof.
  intros Hd. induction n as [|n IH]; intros r c Hb.
  - assert (Hoff : isValidPosition (mkPos r c) = false).
    { destruct (isValidPosition (mkPos r c)) eqn:Ev; auto.
      apply isValidPosition_bounds in Ev. simpl in Ev.
      unfold rayBound in Hb.
      destruct (drow d =? 0); apply stepsLeft_off in Hb; lia. }
    rewrite !linearRay_off_grid by exact Hoff. reflexivity.
  - simpl. destruct (isValidPosition (mkPos r c)) eqn:Ev; auto.
    destruct (getCell b (mkPos r c)); auto.
    f_equal. apply IH.
    apply isValidPosition_bounds in Ev. simpl in Ev.
    unfold rayBound in *.
    destruct (Z.eqb_spec (drow d) 0) as [E0|E0].
    + assert (Hc : dcol d <> 0) by (destruct Hd; congruence).
      pose proof (stepsLeft_step (dcol d) c Hc). lia.
    + pose proof (stepsLeft_step (drow d) r E0). lia.
Qed.

(** The bound [BOARD_SIZE] on the iterations of the ray loop loses nothing:
    a larger bound yields the same moves. *)
Lemma linearRay_fuel (n : nat) (b : Board) (position : Position) (p : Piece)
    (d : Direction) (r c : Z) :
  drow d <> 0 \/ dcol d <> 0 -> (8 <= n)%nat ->
  linearRay n b position p d r c = linearRay 8 b position p d r c.
Proof.
  intros Hd Hn. replace n with (8 + (n - 8))%nat by lia.
  apply linearRay_stable; auto.
  unfold rayBound.
  destruct (drow d =? 0); [pose proof (stepsLeft_le (dcol d) c)
                          | pose proof (stepsLeft_le (drow d) r)]; lia.
Qed.

(** ** Generated moves stay on the grid *)

Lemma simpleMove_on_grid (f t : Position) (ty : MoveType) (p : Piece)
    (captured : option Piece) :
  isValidPosition f = true -> isValidPosition t = true ->
  move_on_grid (simpleMove f t ty p captured) = true.
Proof.
  intros Hf Ht. unfold move_on_grid, simpleMove; simpl.
  rewrite Hf, Ht. reflexivity.
Qed.

Lemma addPawnPromotionMoves_on_grid (f t : Position) (p : Piece)
    (captured : option Piece) (m : Move) :
  isValidPosition f = true -> isValidPosition t = true ->
  In m (addPawnPromotionMoves f t p captured) -> move_on_grid m = true.
Proof.
  intros Hf Ht. unfold addPawnPromotionMoves. rewrite in_map_iff.
  intros (x & <- & _). unfold move_on_grid; simpl. rewrite Hf, Ht. reflexivity.
Qed.

Lemma pawnForwardMoves_on_grid (b : Board) (position : Position) (p : Piece)
    (m : Move) :
  isValidPosition position = true ->
  In m (pawnForwardMoves b position p) -> move_on_grid m = true.
Proof.
  intros Hv. unfold pawnForwardMoves. cbv zeta.
  set (oneForward := mkPos (row position + pawnDirection (color p)) (col position)).
  set (twoForward := mkPos (row position + 2 * pawnDirection (color p)) (col position)).
  destruct (isValidPosition oneForward && negb (occupied (getCell b oneForward)))
    eqn:E1; [|intros []].
  apply andb_true_iff in E1 as [E1 _].
  rewrite in_app_iff. intros [H|H].
  - destruct (isPromotionRow (color p) (row oneForward)).
    + refine (addPawnPromotionMoves_on_grid _ _ _ _ _ _ _ H); auto.
    + destruct H as [<-|[]]. apply simpleMove_on_grid; auto.
  - destruct (isStartRow (color p) (row position)); [|destruct H].
    destruct (isValidPosition twoForward && negb (occupied (getCell b twoForward)))
      eqn:E2; [|destruct H].
    apply andb_true_iff in E2 as [E2 _].
    destruct H as [<-|[]]. apply simpleMove_on_grid; auto.
Qed.

Lemma pawnCaptureMoves_on_grid (b : Board) (position : Position) (p : Piece)
    (ep : option Position) (captureMove : Position) (m : Move) :
  isValidPosition position = true ->
  In m (pawnCaptureMoves b position p ep captureMove) -> move_on_grid m = true.
Proof.
  intros Hv. unfold pawnCaptureMoves.
  destruct (isValidPosition captureMove) eqn:Ec; [|intros []].
  rewrite in_app_iff. intros [H|H].
  - destruct (getCell b captureMove) as [t|]; [|destruct H].
    destruct (negb (colorEqb (color t) (color p))); [|destruct H].
    destruct (isPromotionRow (color p) (row captureMove)).
    + refine (addPawnPromotionMoves_on_grid _ _ _ _ _ _ _ H); auto.
    + destruct H as [<-|[]]. apply simpleMove_on_grid; auto.
  - destruct ep as [e|]; [|destruct H].
    destruct ((row captureMove =? row e) && (col captureMove =? col e)) eqn:E;
      [|destruct H].
    cbv zeta in H.
    destruct (getCell b (mkPos (row position) (col e))) as [cp|]; [|destruct H].
    destruct (typeEqb (ptype cp) PAWN && negb (colorEqb (color cp) (color p)));
      [|destruct H].
    destruct H as [<-|[]].
    unfold move_on_grid; simpl. rewrite Hv, Ec. simpl.
    apply andb_true_iff in E as [_ E]. apply Z.eqb_eq in E.
    apply isValidPosition_bounds in Hv, Ec.
    apply isValidPosition_bounds. simpl. lia.
Qed.

Lemma stepMoves_on_grid (b : Board) (position : Position) (p : Piece)
    (d : Direction) (m : Move) :
  isValidPosition position = true ->
  In m (stepMoves b position p d) -> move_on_grid m = true.
Proof.
  intros Hv. unfold stepMoves. cbv zeta.
  set (newPos := mkPos (row position + drow d) (col position + dcol d)).
  destruct (isValidPosition newPos) eqn:E; [|intros []].
  destruct (getCell b newPos) as [t|].
  - destruct (negb (colorEqb (color t) (color p))); [|intros []].
    intros [<-|[]]. apply simpleMove_on_grid; auto.
  - intros [<-|[]]. apply simpleMove_on_grid; auto.
Qed.

Lemma linearRay_on_grid (fuel : nat) (b : Board) (position : Position)
    (p : Piece) (d : Direction) (m : Move) :
  isValidPosition position = true ->
  forall r c, In m (linearRay fuel b position p d r c) -> move_on_grid m = true.
Proof.
  intros Hv. induction fuel as [|fuel IH]; intros r c; simpl; [intros []|].
  destruct (isValidPosition (mkPos r c)) eqn:E; [|intros []].
  destruct (getCell b (mkPos r c)) as [t|].
  - destruct (negb (colorEqb (color t) (color p))); [|intros []].
    intros [<-|[]]. apply simpleMove_on_grid; auto.
  - intros [<-|H]; [apply simpleMove_on_grid; auto | eapply IH; eauto].
Qed.

Lemma getLinearMoves_on_grid (b : Board) (position : Position) (p : Piece)
    (directions : list Direction) (m : Move) :
  isValidPosition position = true ->
  In m (getLinearMoves b position p directions) -> move_on_grid m = true.
Proof.
  intros Hv. unfold getLinearMoves. rewrite in_flat_map.
  intros (d & _ & H). eapply linearRay_on_grid; eauto.
Qed.

Lemma castlingMoves_on_grid (b : Board) (position : Position) (p : Piece)
    (cr : CastlingRights) (m : Move) :
  isValidPosition position = true ->
  In m (castlingMoves b position p cr) -> move_on_grid m = true.
Proof.
  intros Hv. unfold castlingMoves. cbv zeta.
  destruct (negb (hasMoved p)); [|intros []].
  rewrite in_app_iff. intros [H|H].
  - destruct (match rightsOf cr (color p) with Some r => kingSide r | None => false end);
      [|destruct H].
    destruct (_ && _); [|destruct H].
    destruct (isCastlingRook _ _); [|destruct H].
    destruct H as [<-|[]]. unfold move_on_grid; simpl. rewrite Hv.
    destruct (color p); reflexivity.
  - destruct (match rightsOf cr (color p) with Some r => queenSide r | None => false end);
      [|destruct H].
    destruct (_ && _); [|destruct H].
    destruct (isCastlingRook _ _); [|destruct H].
    destruct H as [<-|[]]. unfold move_on_grid; simpl. rewrite Hv.
    destruct (color p); reflexivity.
Qed.

(** Every move generated for a square of the grid has all its positions on
    the grid: the domain on which [applyMove] is modelled. *)
Lemma getPossibleMoves_on_grid (b : Board) (position : Position)
    (ep : option Position) (cr : CastlingRights) :
  isValidPosition position = true ->
  forallb move_on_grid (getPossibleMoves b position ep cr) = true.
Proof.
  intros Hv. apply forallb_forall. intros m.
  unfold getPossibleMoves.
  destruct (getCell b position) as [p|]; [|intros []].
  destruct (ptype p).
  - unfold getKingMoves. rewrite in_app_iff, in_flat_map.
    intros [(d & _ & H)|H].
    + eapply stepMoves_on_grid; eauto.
    + eapply castlingMoves_on_grid; eauto.
  - apply getLinearMoves_on_grid; auto.
  - apply getLinearMoves_on_grid; auto.
  - apply getLinearMoves_on_grid; auto.
  - unfold getKnightMoves. rewrite in_flat_map.
    intros (d & _ & H). eapply stepMoves_on_grid; eauto.
  - unfold getPawnMoves. cbv zeta. rewrite in_app_iff, in_flat_map.
    intros [H|(cm & _ & H)].
    + eapply pawnForwardMoves_on_grid; eauto.
    + eapply pawnCaptureMoves_on_grid; eauto.
Qed.

(** A generated move carries the piece that stands on its origin square. *)
Lemma getPossibleMoves_piece (b : Board) (position : Position)
    (ep : option Position) (cr : CastlingRights) (m : Move) :
  In m (getPossibleMoves b position ep cr) ->
  getCell b position = Some (piece m) /\ from m = position.
Proof.
  unfold getPossibleMoves.
  destruct (getCell b position) as [p|]; [|intros []].
  assert (Hstep : forall d, In m (stepMoves b position p d) ->
                            Some p = Some (piece m) /\ from m = position).
  { intros d. unfold stepMoves. cbv zeta.
    destruct (isValidPosition _); [|intros []].
    destruct (getCell b _) as [t|].
    - destruct (negb (colorEqb (color t) (color p))); [|intros []].
      intros [<-|[]]. split; reflexivity.
    - intros [<-|[]]. split; reflexivity. }
  assert (Hray : forall fuel d r c,
             In m (linearRay fuel b position p d r c) ->
             Some p = Some (piece m) /\ from m = position).
  { induction fuel as [|fuel IH]; intros d r c; simpl; [intros []|].
    destruct (isValidPosition (mkPos r c)); [|intros []].
    destruct (getCell b (mkPos r c)) as [t|].
    - destruct (negb (colorEqb (color t) (color p))); [|intros []].
      intros [<-|[]]. split; reflexivity.
    - intros [<-|H]; [split; reflexivity | eapply IH; eauto]. }
  assert (Hlin : forall ds, In m (getLinearMoves b position p ds) ->
                            Some p = Some (piece m) /\ from m = position).
  { intros ds. unfold getLinearMoves. rewrite in_flat_map.
    intros (d & _ & H). eapply Hray; eauto. }
  assert (Hpromo : forall t captured,
             In m (addPawnPromotionMoves position t p captured) ->
             Some p = Some (piece m) /\ from m = position).
  { intros t captured. unfold addPawnPromotionMoves. rewrite in_map_iff.
    intros (x & <- & _). split; reflexivity. }
  destruct (ptype p).
  - unfold getKingMoves. rewrite in_app_iff, in_flat_map.
    intros [(d & _ & H)|H]; [eapply Hstep; eauto|].
    revert H. unfold castlingMoves. cbv zeta.
    destruct (negb (hasMoved p)); [|intros []].
    rewrite in_app_iff. intros [H|H].
    + destruct (match rightsOf cr (color p) with
                | Some r => kingSide r | None => false end); [|destruct H].
      destruct (_ && _); [|destruct H].
      destruct (isCastlingRook _ _); [|destruct H].
      destruct H as [<-|[]]. split; reflexivity.
    + destruct (match rightsOf cr (color p) with
                | Some r => queenSide r | None => false end); [|destruct H].
      destruct (_ && _); [|destruct H].
      destruct (isCastlingRook _ _); [|destruct H].
      destruct H as [<-|[]]. split; reflexivity.
  - apply Hlin.
  - apply Hlin.
  - apply Hlin.
  - unfold getKnightMoves. rewrite in_flat_map.
    intros (d & _ & H). eapply Hstep; eauto.
  - unfold getPawnMoves. cbv zeta. rewrite in_app_iff, in_flat_map.
    intros [H|(cm & _ & H)].
    + revert H. unfold pawnForwardMoves. cbv zeta.
      destruct (isValidPosition _ && _); [|intros []].
      rewrite in_app_iff. intros [H|H].
      * destruct (isPromotionRow _ _); [eapply Hpromo; eauto|].
        destruct H as [<-|[]]. split; reflexivity.
      * destruct (isStartRow _ _); [|destruct H].
        destruct (isValidPosition _ && _); [|destruct H].
        destruct H as [<-|[]]. split; reflexivity.
    + revert H. unfold pawnCaptureMoves.
      destruct (isValidPosition cm); [|intros []].
      rewrite in_app_iff. intros [H|H].
      * destruct (getCell b cm) as [t|]; [|destruct H].
        destruct (negb (colorEqb (color t) (color p))); [|destruct H].
        destruct (isPromotionRow _ _); [eapply Hpromo; eauto|].
        destruct H as [<-|[]]. split; reflexivity.
      * destruct ep as [e|]; [|destruct H].
        destruct ((row cm =? row e) && (col cm =? col e)); [|destruct H].
        cbv zeta in H.
        destruct (getCell b (mkPos (row position) (col e))) as [cp|]; [|destruct H].
        destruct (typeEqb (ptype cp) PAWN && negb (colorEqb (color cp) (color p)));
          [|destruct H].
        destruct H as [<-|[]]. split; reflexivity.
Qed.

(** ** Generated moves leave their origin *)

Lemma position_neq (p : Position) (r c : Z) :
  r <> row p \/ c <> col p -> mkPos r c <> p.
Proof. intros H E. rewrite <- E in H. simpl in H. lia. Qed.

Lemma simpleMove_keeps_destination (f t : Position) (ty : MoveType) (p : Piece)
    (captured : option Piece) :
  clearsDestination (simpleMove f t ty p captured) = false.
Proof.
  unfold clearsDestination, simpleMove; simpl.
  rewrite !andb_false_r. reflexivity.
Qed.

Lemma linearRay_to (fuel : nat) (b : Board) (position : Position) (p : Piece)
    (d : Direction) (m : Move) :
  forall r c,
    In m (linearRay fuel b position p d r c) ->
    clearsDestination m = false
    /\ exists k, 0 <= k /\ to m = mkPos (r + k * drow d) (c + k * dcol d).
Proof.
  induction fuel as [|fuel IH]; intros r c; simpl; [intros []|].
  destruct (isValidPosition (mkPos r c)); [|intros []].
  assert (Hhere : forall ty captured,
             simpleMove position (mkPos r c) ty p captured = m ->
             clearsDestination m = false
             /\ exists k, 0 <= k /\ to m = mkPos (r + k * drow d) (c + k * dcol d)).
  { intros ty captured <-. split; [apply simpleMove_keeps_destination|].
    exists 0. split; [lia|]. simpl. f_equal; lia. }
  destruct (getCell b (mkPos r c)) as [t|].
  - destruct (negb (colorEqb (color t) (color p))); [|intros []].
    intros [H|[]]. eapply Hhere; eauto.
  - intros [H|H]; [eapply Hhere; eauto|].
    apply IH in H as (Hc & k & Hk & Hto). split; [exact Hc|].
    exists (k + 1). split; [lia|]. rewrite Hto. f_equal; lia.
Qed.

(** Every generated move goes to another square than its origin, and none
    of the later writes of [applyMove] empties its destination. *)
Lemma getPossibleMoves_displaces (b : Board) (position : Position)
    (ep : option Position) (cr : CastlingRights) (m : Move) :
  In m (getPossibleMoves b position ep cr) ->
  from m = position /\ to m <> from m /\ clearsDestination m = false.
Proof.
  intros Hin.
  destruct (getPossibleMoves_piece _ _ _ _ _ Hin) as [Hcell Hfrom].
  split; [exact Hfrom|]. rewrite Hfrom.
  revert Hin. unfold getPossibleMoves. rewrite Hcell.
  generalize (piece m) at 1 2 3 4 5 6 7. intros p.
  assert (Hstep : forall d, (drow d <> 0 \/ dcol d <> 0) ->
                            In m (stepMoves b position p d) ->
                            to m <> position /\ clearsDestination m = false).
  { intros d Hd. unfold stepMoves. cbv zeta.
    destruct (isValidPosition (mkPos (row position + drow d) (col position + dcol d)));
      [|intros []].
    destruct (getCell b (mkPos (row position + drow d) (col position + dcol d)))
      as [t|].
    - destruct (negb (colorEqb (color t) (color p))); [|intros []].
      intros [<-|[]]. split; [|apply simpleMove_keeps_destination].
      cbn [to simpleMove]. apply position_neq. lia.
    - intros [<-|[]]. split; [|apply simpleMove_keeps_destination].
      cbn [to simpleMove]. apply position_neq. lia. }
  assert (Hlin : forall ds,
             (forall d, In d ds -> In d allDirections) ->
             In m (getLinearMoves b position p ds) ->
             to m <> position /\ clearsDestination m = false).
  { intros ds Hds. unfold getLinearMoves. rewrite in_flat_map.
    intros (d & Hd & H). apply linearRay_to in H as (Hc & k & Hk & Hto).
    split; [|exact Hc]. rewrite Hto. apply position_neq.
    apply Hds in Hd. simpl in Hd.
    repeat (destruct Hd as [<-|Hd]; [simpl; lia|]). destruct Hd. }
  assert (Hpromo : forall t captured,
             t <> position ->
             In m (addPawnPromotionMoves position t p captured) ->
             to m <> position /\ clearsDestination m = false).
  { intros t captured Ht. unfold addPawnPromotionMoves. rewrite in_map_iff.
    intros (x & <- & _). split; [exact Ht|].
    unfold clearsDestination; simpl. destruct captured; reflexivity. }
  destruct (ptype p).
  - unfold getKingMoves. rewrite in_app_iff, in_flat_map.
    intros [(d & Hd & H)|H].
    + apply (Hstep d); auto. simpl in Hd.
      repeat (destruct Hd as [<-|Hd]; [simpl; lia|]). destruct Hd.
    + revert H. unfold castlingMoves. cbv zeta.
      destruct (negb (hasMoved p)); [|intros []].
      rewrite in_app_iff. intros [H|H].
      * destruct (match rightsOf cr (color p) with
                  | Some r => kingSide r | None => false end); [|destruct H].
        destruct (negb (occupied (getCell b (mkPos (kingRankOf (color p)) 5)))
                  && negb (occupied (getCell b (mkPos (kingRankOf (color p)) 6))))
          eqn:E; [|destruct H].
        destruct (isCastlingRook _ _); [|destruct H].
        destruct H as [<-|[]]. simpl. split.
        -- intros Hp. rewrite Hp, Hcell in E. simpl in E.
           rewrite andb_false_r in E. discriminate.
        -- unfold clearsDestination; simpl. destruct (color p); reflexivity.
      * destruct (match rightsOf cr (color p) with
                  | Some r => queenSide r | None => false end); [|destruct H].
        destruct (negb (occupied (getCell b (mkPos (kingRankOf (color p)) 1)))
                  && negb (occupied (getCell b (mkPos (kingRankOf (color p)) 2)))
                  && negb (occupied (getCell b (mkPos (kingRankOf (color p)) 3))))
          eqn:E; [|destruct H].
        destruct (isCastlingRook _ _); [|destruct H].
        destruct H as [<-|[]]. simpl. split.
        -- intros Hp. rewrite Hp, Hcell in E. simpl in E.
           rewrite andb_false_r in E. discriminate.
        -- unfold clearsDestination; simpl. destruct (color p); reflexivity.
  - apply Hlin. auto.
  - apply Hlin. unfold straightDirections, allDirections. simpl. intuition.
  - apply Hlin. unfold diagonalDirections, allDirections. simpl. intuition.
  - unfold getKnightMoves. rewrite in_flat_map.
    intros (d & Hd & H). apply (Hstep d); auto. simpl in Hd.
    repeat (destruct Hd as [<-|Hd]; [simpl; lia|]). destruct Hd.
  - assert (Hdir : pawnDirection (color p) <> 0) by (destruct (color p); simpl; lia).
    unfold getPawnMoves. cbv zeta. rewrite in_app_iff, in_flat_map.
    intros [H|(cm & Hcm & H)].
    + revert H. unfold pawnForwardMoves. cbv zeta.
      destruct (isValidPosition _ && _); [|intros []].
      rewrite in_app_iff. intros [H|H].
      * destruct (isPromotionRow _ _).
        -- revert H. apply Hpromo. apply position_neq. lia.
        -- destruct H as [<-|[]]. split; [|apply simpleMove_keeps_destination].
           cbn [to simpleMove]. apply position_neq. lia.
      * destruct (isStartRow _ _); [|destruct H].
        destruct (isValidPosition _ && _); [|destruct H].
        destruct H as [<-|[]]. split; [|apply simpleMove_keeps_destination].
        cbn [to simpleMove]. apply position_neq. lia.
    + assert (Hne : cm <> position).
      { destruct Hcm as [<-|[<-|[]]]; apply position_neq; lia. }
      assert (Hrow : row cm = row position + pawnDirection (color p)).
      { destruct Hcm as [<-|[<-|[]]]; reflexivity. }
      revert H. unfold pawnCaptureMoves.
      destruct (isValidPosition cm); [|intros []].
      rewrite in_app_iff. intros [H|H].
      * destruct (getCell b cm) as [t|]; [|destruct H].
        destruct (negb (colorEqb (color t) (color p))); [|destruct H].
        destruct (isPromotionRow _ _).
        -- revert H. apply Hpromo. exact Hne.
        -- destruct H as [<-|[]]. split; [exact Hne|].
           apply simpleMove_keeps_destination.
      * destruct ep as [e|]; [|destruct H].
        destruct ((row cm =? row e) && (col cm =? col e)); [|destruct H].
        cbv zeta in H.
        destruct (getCell b (mkPos (row position) (col e))) as [cp|]; [|destruct H].
        destruct (typeEqb (ptype cp) PAWN && negb (colorEqb (color cp) (color p)));
          [|destruct H].
        destruct H as [<-|[]]. split; [exact Hne|].
        unfold clearsDestination, posEqb; simpl.
        replace (row position =? row cm) with false; [reflexivity|].
        symmetry. apply Z.eqb_neq. lia.
Qed.

(** ** Apply-move *)

(** C10 (frame of a quiet move or capture): for a move of type normal or
    capture on the grid, [applyMove] leaves the destination holding the moved
    piece with [hasMoved] true, leaves the origin empty (the origin being
    another square than the destination), and changes no other cell. *)
Theorem applyMove_frame (b : Board) (m : Move) :
  wf_board b = true -> move_on_grid m = true ->
  mtype m = NORMAL \/ mtype m = CAPTURE ->
  getCell (applyMove b m) (to m)
    = Some (mkPiece (ptype (piece m)) (color (piece m)) true)
  /\ (from m <> to m -> getCell (applyMove b m) (from m) = None)
  /\ (forall pos, pos <> from m -> pos <> to m ->
        getCell (applyMove b m) pos = getCell b pos).
Proof.
  intros Hwf Hm Hty.
  apply move_on_grid_parts in Hm as (Hf & Ht & _).
  assert (E : applyMove b m
              = setCell (setCell b (from m) None) (to m)
                  (Some (mkPiece (ptype (piece m)) (color (piece m)) true))).
  { unfold applyMove. destruct Hty as [-> | ->]; reflexivity. }
  rewrite E. repeat split.
  - read_writes. rewrite posEqb_refl. reflexivity.
  - intros Hne. read_writes.
    apply posEqb_false_iff in Hne. rewrite Hne, posEqb_refl. reflexivity.
  - intros pos Hpf Hpt. read_writes.
    apply posEqb_false_iff in Hpf, Hpt. rewrite Hpt, Hpf. reflexivity.
Qed.

Lemma applyMove_steps (b : Board) (m : Move) :
  applyMove b m =
  let b2 := afterPieceWrite b m in
  let b3 :=
    if isCastleType (mtype m) then
      match castlingRookFrom m, castlingRookTo m with
      | Some rookFrom, Some rookTo =>
          match getCell b2 rookFrom with
          | Some r =>
              setCell (setCell b2 rookFrom None) rookTo
                (Some (mkPiece (ptype r) (color r) true))
          | None => setCell b2 rookFrom None
          end
      | _, _ => b2
      end
    else b2 in
  if isEnPassantType (mtype m) then
    match enPassantCapturePos m with
    | Some capturePos => setCell b3 capturePos None
    | None => b3
    end
  else b3.
Proof.
  unfold applyMove, afterPieceWrite.
  destruct (isPromotionType (mtype m)); reflexivity.
Qed.

Lemma wf_afterPieceWrite (b : Board) (m : Move) :
  wf_board b = true -> wf_board (afterPieceWrite b m) = true.
Proof.
  intros H. unfold afterPieceWrite. repeat apply wf_board_setCell. exact H.
Qed.


(** Every piece on the board after [applyMove] has [hasMoved] true or is the
    content the same cell had before. *)
Lemma applyMove_moved_or_kept (b : Board) (m : Move) :
  wf_board b = true -> move_on_grid m = true ->
  forall pos p, getCell (applyMove b m) pos = Some p ->
                hasMoved p = true \/ getCell b pos = Some p.
Proof.
  intros Hwf Hm pos p.
  pose proof (wf_afterPieceWrite b m Hwf) as Hwf2.
  apply move_on_grid_parts in Hm as (Hf & Ht & Hrf & Hrt & Hep).
  assert (Hb2 : forall q x, getCell (afterPieceWrite b m) q = Some x ->
                            hasMoved x = true \/ getCell b q = Some x).
  { intros q x. unfold afterPieceWrite. read_writes.
    destruct (posEqb q (to m)).
    - intros H; inversion H; subst; left.
      destruct (isPromotionType (mtype m)); reflexivity.
    - destruct (posEqb q (from m)); [discriminate | auto]. }
  rewrite applyMove_steps. cbv zeta.
  destruct (isCastleType (mtype m)) eqn:Ec;
    destruct (isEnPassantType (mtype m)) eqn:Ee;
    try (destruct (mtype m); discriminate).
  - destruct (castlingRookFrom m) as [rf|]; [|apply Hb2].
    destruct (castlingRookTo m) as [rt|]; [|apply Hb2].
    simpl in Hrf, Hrt.
    destruct (getCell (afterPieceWrite b m) rf) as [r|] eqn:Er; read_writes.
    + destruct (posEqb pos rt).
      * intros H; inversion H; subst; left; reflexivity.
      * destruct (posEqb pos rf); [discriminate | apply Hb2].
    + destruct (posEqb pos rf); [discriminate | apply Hb2].
  - destruct (enPassantCapturePos m) as [cp|]; [|apply Hb2].
    simpl in Hep. read_writes.
    destruct (posEqb pos cp); [discriminate | apply Hb2].
  - apply Hb2.
Qed.

(** C8 ([hasMoved] is set by a move and never reset): for a move on the
    grid, the piece [applyMove] writes to the destination has [hasMoved]
    true, and so has whatever piece stands there when the call ends (the
    square is empty then only if a later write of the same call empties it
    again); the rook relocated by a castling move has [hasMoved] true; a
    cell that held a piece with [hasMoved] true holds no piece with
    [hasMoved] false afterwards, every piece of the new board having
    [hasMoved] true or being the untouched content of its cell. *)
Theorem applyMove_hasMoved (b : Board) (m : Move) :
  wf_board b = true -> move_on_grid m = true ->
  (exists p, getCell (afterPieceWrite b m) (to m) = Some p /\ hasMoved p = true)
  /\ (clearsDestination m = false ->
      exists p, getCell (applyMove b m) (to m) = Some p /\ hasMoved p = true)
  /\ (forall p, getCell (applyMove b m) (to m) = Some p -> hasMoved p = true)
  /\ (forall rookFrom rookTo rook,
        isCastleType (mtype m) = true ->
        castlingRookFrom m = Some rookFrom -> castlingRookTo m = Some rookTo ->
        rookFrom <> from m -> rookFrom <> to m ->
        getCell b rookFrom = Some rook ->
        getCell (applyMove b m) rookTo
          = Some (mkPiece (ptype rook) (color rook) true))
  /\ (forall pos p p',
        getCell b pos = Some p -> hasMoved p = true ->
        getCell (applyMove b m) pos = Some p' -> hasMoved p' = true)
  /\ (forall pos p,
        getCell (applyMove b m) pos = Some p ->
        hasMoved p = true \/ getCell b pos = Some p).
Proof.
  intros Hwf Hm.
  pose proof (applyMove_moved_or_kept b m Hwf Hm) as Hkept.
  pose proof (wf_afterPieceWrite b m Hwf) as Hwf2.
  pose proof Hm as Hm'.
  apply move_on_grid_parts in Hm' as (Hf & Ht & Hrf & Hrt & Hep).
  assert (Hto : exists x, getCell (afterPieceWrite b m) (to m) = Some x
                          /\ hasMoved x = true).
  { unfold afterPieceWrite. read_writes. rewrite posEqb_refl.
    eexists; split; [reflexivity|].
    destruct (isPromotionType (mtype m)); reflexivity. }
  split; [exact Hto|]. split; [|split; [|split; [|split]]].
  - intros Hclr. unfold clearsDestination in Hclr.
    apply orb_false_iff in Hclr as [Hc He].
    rewrite applyMove_steps. cbv zeta.
    destruct (isCastleType (mtype m)) eqn:Ec;
      destruct (isEnPassantType (mtype m)) eqn:Ee;
      try (destruct (mtype m); discriminate); simpl in Hc, He.
    + destruct (castlingRookFrom m) as [rf|]; [|exact Hto].
      destruct (castlingRookTo m) as [rt|]; [|exact Hto].
      simpl in Hrf, Hrt.
      destruct (getCell (afterPieceWrite b m) rf) as [r|] eqn:Er; read_writes.
      * destruct (posEqb (to m) rt) eqn:Et.
        -- eexists; split; reflexivity.
        -- destruct (posEqb (to m) rf) eqn:Etf; [|exact Hto].
           apply posEqb_true_iff in Etf. rewrite <- Etf in Hc.
           rewrite posEqb_refl in Hc. simpl in Hc.
           apply negb_false_iff, posEqb_true_iff in Hc.
           rewrite Hc, posEqb_refl in Et. discriminate.
      * destruct (posEqb (to m) rf) eqn:Etf; [|exact Hto].
        apply posEqb_true_iff in Etf. rewrite <- Etf in Er.
        destruct Hto as (x & Hx & _). congruence.
    + destruct (enPassantCapturePos m) as [cp|]; [|exact Hto].
      simpl in Hep. read_writes.
      destruct (posEqb (to m) cp) eqn:Et; [|exact Hto].
      apply posEqb_true_iff in Et. rewrite Et, posEqb_refl in He. discriminate.
    + exact Hto.
  - intros p Hp. destruct (Hkept _ _ Hp) as [H|H]; [exact H|].
    rewrite applyMove_steps in Hp. cbv zeta in Hp.
    destruct Hto as (x & Hx & Hmoved).
    destruct (isCastleType (mtype m)) eqn:Ec;
      destruct (isEnPassantType (mtype m)) eqn:Ee;
      try (destruct (mtype m); discriminate).
    + destruct (castlingRookFrom m) as [rf|]; [|congruence].
      destruct (castlingRookTo m) as [rt|]; [|congruence].
      simpl in Hrf, Hrt.
      destruct (getCell (afterPieceWrite b m) rf) as [r|] eqn:Er;
        revert Hp; read_writes.
      * destruct (posEqb (to m) rt).
        -- intros Hp; inversion Hp; reflexivity.
        -- destruct (posEqb (to m) rf); [discriminate | congruence].
      * destruct (posEqb (to m) rf); [discriminate | congruence].
    + destruct (enPassantCapturePos m) as [cp|]; [|congruence].
      simpl in Hep. revert Hp. read_writes.
      destruct (posEqb (to m) cp); [discriminate | congruence].
    + congruence.
  - intros rf rt rook Hc Erf Ert Hnf Hnt Hrook.
    rewrite applyMove_steps. cbv zeta.
    rewrite Hc, Erf, Ert. rewrite Erf in Hrf. rewrite Ert in Hrt.
    simpl in Hrf, Hrt.
    assert (Er : getCell (afterPieceWrite b m) rf = Some rook).
    { unfold afterPieceWrite. read_writes.
      apply posEqb_false_iff in Hnf, Hnt. rewrite Hnt, Hnf. exact Hrook. }
    rewrite Er.
    replace (isEnPassantType (mtype m)) with false
      by (destruct (mtype m); simpl in *; congruence).
    read_writes. rewrite posEqb_refl. reflexivity.
  - intros pos p p' Hp Hmv Hp'.
    destruct (Hkept _ _ Hp') as [H|H]; [exact H | congruence].
  - exact Hkept.
Qed.

(** ** Check detector *)

Lemma colorEqb_true_iff (a c : PieceColor) : colorEqb a c = true <-> a = c.
Proof. destruct a, c; simpl; split; congruence. Qed.

Lemma typeEqb_true_iff (a c : PieceType) : typeEqb a c = true <-> a = c.
Proof. destruct a, c; simpl; split; congruence. Qed.

Lemma find_all_false {A : Type} (f : A -> bool) (l : list A) :
  (forall x, In x l -> f x = false) -> find f l = None.
Proof.
  intros H. destruct (find f l) as [x|] eqn:E; auto.
  apply find_some in E as [Hin Hx]. rewrite (H x Hin) in Hx. discriminate.
Qed.

(** C9 (a board without the king): on a board of the grid shape with no king
    of the queried colour on any square, [isKingInCheck] answers false. *)
Theorem isKingInCheck_no_king (b : Board) (kingColor : PieceColor) :
  wf_board b = true ->
  (forall pos p, isValidPosition pos = true -> getCell b pos = Some p ->
                 ptype p = KING -> color p <> kingColor) ->
  isKingInCheck b kingColor = false.
Proof.
  intros _ Hno. unfold isKingInCheck, findKing.
  rewrite (find_all_false _ positions); auto.
  intros pos Hin. unfold isKingOf.
  destruct (getCell b pos) as [p|] eqn:Ep; auto.
  destruct (typeEqb (ptype p) KING) eqn:Et; auto.
  destruct (colorEqb (color p) kingColor) eqn:Ec; auto.
  apply typeEqb_true_iff in Et. apply colorEqb_true_iff in Ec.
  exfalso. eapply Hno; eauto using positions_valid.
Qed.

(** ** Legality filter *)

(** C2 (the legality filter): on a board of the grid shape and candidate
    moves on the grid, [filterLegalMoves] keeps a move exactly when the king
    of the colour is not in check on the board obtained by applying the move
    to a deep copy; it keeps every occurrence of such a move, in the order
    of the candidates, and drops every other one. *)
Theorem filterLegalMoves_exact (b : Board) (moves : list Move) (c : PieceColor) :
  wf_board b = true -> forallb move_on_grid moves = true ->
  (forall m, In m (filterLegalMoves b moves c) <->
             In m moves /\ isKingInCheck (applyMove (deepClone b) m) c = false)
  /\ (forall before m after,
        moves = before ++ m :: after ->
        filterLegalMoves b moves c
          = filterLegalMoves b before c
            ++ (if isKingInCheck (applyMove (deepClone b) m) c then [] else [m])
            ++ filterLegalMoves b after c).
Proof.
  intros _ _. split.
  - intros m. unfold filterLegalMoves. rewrite filter_In.
    cbv zeta. rewrite negb_true_iff. reflexivity.
  - intros before m after ->. unfold filterLegalMoves.
    rewrite filter_app. simpl.
    destruct (isKingInCheck (applyMove (deepClone b) m) c); reflexivity.
Qed.

(** ** Game-state classifier *)

Lemma existsb_false_iff {A : Type} (f : A -> bool) (l : list A) :
  existsb f l = false <-> forall x, In x l -> f x = false.
Proof.
  split.
  - intros H x Hin. destruct (f x) eqn:E; auto.
    rewrite <- H. symmetry. apply existsb_exists. eauto.
  - intros H. destruct (existsb f l) eqn:E; auto.
    apply existsb_exists in E as (x & Hin & Hx).
    rewrite (H x Hin) in Hx. discriminate.
Qed.

Lemma flat_map_nil_iff {A B : Type} (f : A -> list B) (l : list A) :
  flat_map f l = [] <-> forall x, In x l -> f x = [].
Proof.
  induction l as [|a l IH]; simpl.
  - split; [intros _ x [] | reflexivity].
  - split.
    + intros H. apply app_eq_nil in H as [Ha Hl].
      intros x [<-|Hin]; auto. apply IH; auto.
    + intros H. rewrite (H a) by auto. simpl. apply IH. auto.
Qed.

(** No piece of the colour has a legal move, over the squares of the grid. *)
Lemma no_legal_move_iff (b : Board) (c : PieceColor) :
  existsb (hasLegalMove b c) positions = false <->
  forall pos p, isValidPosition pos = true -> getCell b pos = Some p ->
                color p = c ->
                filterLegalMoves b
                  (getPossibleMoves b pos None defaultCastlingRights) c = [].
Proof.
  rewrite existsb_false_iff. unfold hasLegalMove. split.
  - intros H pos p Hv Hp Hc.
    specialize (H pos (valid_in_positions pos Hv)).
    rewrite Hp in H. apply colorEqb_true_iff in Hc. rewrite Hc in H.
    simpl in H. apply negb_false_iff, Nat.eqb_eq in H.
    apply length_zero_iff_nil. exact H.
  - intros H pos Hin. destruct (getCell b pos) as [p|] eqn:Ep; auto.
    destruct (colorEqb (color p) c) eqn:Ec; auto.
    apply colorEqb_true_iff in Ec.
    rewrite (H pos p (positions_valid pos Hin) Ep Ec). reflexivity.
Qed.

Lemma allMoves_nil_iff (b : Board) (c : PieceColor)
    (ep : option Position) (cr : CastlingRights) :
  allMoves b c ep cr = [] <->
  forall pos p, isValidPosition pos = true -> getCell b pos = Some p ->
                color p = c ->
                filterLegalMoves b (getPossibleMoves b pos ep cr) c = [].
Proof.
  unfold allMoves. rewrite flat_map_nil_iff. split.
  - intros H pos p Hv Hp Hc.
    specialize (H pos (valid_in_positions pos Hv)).
    rewrite Hp in H. apply colorEqb_true_iff in Hc. rewrite Hc in H. exact H.
  - intros H pos Hin. destruct (getCell b pos) as [p|] eqn:Ep; auto.
    destruct (colorEqb (color p) c) eqn:Ec; auto.
    apply colorEqb_true_iff in Ec.
    apply (H pos p (positions_valid pos Hin) Ep Ec).
Qed.

(** C1 (checkmate): on a board of the grid shape, [isCheckmate] is true
    exactly when the king of the colour is in check and no piece of the
    colour has a legal move, that is, the legal moves of all its pieces
    together (pseudo-legal moves generated with the default en-passant target
    and castling rights, as [isCheckmate] does) form the empty list. *)
Theorem isCheckmate_iff (b : Board) (c : PieceColor) :
  wf_board b = true ->
  (isCheckmate b c = true <->
   isKingInCheck b c = true
   /\ forall pos p, isValidPosition pos = true -> getCell b pos = Some p ->
                    color p = c ->
                    filterLegalMoves b
                      (getPossibleMoves b pos None defaultCastlingRights) c = [])
  /\ (isCheckmate b c = true <->
      isKingInCheck b c = true /\ allMoves b c None defaultCastlingRights = []).
Proof.
  intros _.
  assert (H : isCheckmate b c = true <->
              isKingInCheck b c = true
              /\ existsb (hasLegalMove b c) positions = false).
  { unfold isCheckmate. destruct (isKingInCheck b c); simpl.
    - rewrite negb_true_iff. tauto.
    - split; [discriminate | intros [? _]; discriminate]. }
  split.
  - rewrite H, no_legal_move_iff. reflexivity.
  - rewrite H, no_legal_move_iff, allMoves_nil_iff. reflexivity.
Qed.

(** The companion fact for stalemate, used by the evaluator and the search. *)
Lemma isStalemate_iff (b : Board) (c : PieceColor) :
  isStalemate b c = true <->
  isKingInCheck b c = false /\ allMoves b c None defaultCastlingRights = [].
Proof.
  unfold isStalemate. rewrite allMoves_nil_iff, <- no_legal_move_iff.
  destruct (isKingInCheck b c); simpl.
  - split; [discriminate | intros [? _]; discriminate].
  - rewrite negb_true_iff. tauto.
Qed.

(** ** Position evaluator *)

(** The terminal tests of [evaluateBoardWith] come in a fixed order. *)
Lemma evaluateBoardWith_cases (material positionTerm kingSafety mobility : Board -> Z)
    (b : Board) :
  evaluateBoardWith material positionTerm kingSafety mobility b =
  if isCheckmate b WHITE then 10000
  else if isCheckmate b BLACK then -10000
  else if isStalemate b WHITE || isStalemate b BLACK then 0
  else material b + positionTerm b + kingSafety b + mobility b.
Proof.
  unfold evaluateBoardWith.
  destruct (isCheckmate b WHITE), (isCheckmate b BLACK),
    (isStalemate b WHITE || isStalemate b BLACK); reflexivity.
Qed.

(** C3, as the code has it (terminal override, in the order of the tests):
    if white is checkmated the score is 10000; if white is not checkmated
    and black is, the score is -10000; if neither is checkmated and one of
    them is stalemated, the score is 0.  In the three cases the score is this
    constant whatever the material, positional, king-safety and mobility
    terms are. *)
Theorem evaluateBoard_terminal (b : Board) :
  wf_board b = true ->
  (isCheckmate b WHITE = true ->
   evaluateBoard b = 10000
   /\ forall material positionTerm kingSafety mobility,
        evaluateBoardWith material positionTerm kingSafety mobility b = 10000)
  /\ (isCheckmate b WHITE = false -> isCheckmate b BLACK = true ->
      evaluateBoard b = -10000
      /\ forall material positionTerm kingSafety mobility,
           evaluateBoardWith material positionTerm kingSafety mobility b = -10000)
  /\ (isCheckmate b WHITE = false -> isCheckmate b BLACK = false ->
      isStalemate b WHITE = true \/ isStalemate b BLACK = true ->
      evaluateBoard b = 0
      /\ forall material positionTerm kingSafety mobility,
           evaluateBoardWith material positionTerm kingSafety mobility b = 0).
Proof.
  intros _. unfold evaluateBoard. repeat split; intros;
    rewrite evaluateBoardWith_cases;
    repeat match goal with
           | H : _ = true |- _ => rewrite H
           | H : _ = false |- _ => rewrite H
           end; try reflexivity;
    match goal with
    | H : _ \/ _ |- _ =>
        destruct H as [H|H]; rewrite H; rewrite ?orb_true_r; reflexivity
    end.
Qed.

(** The terminal cases overlap: with both sides checkmated the score is
    10000 and not -10000, and with black checkmated and white stalemated the
    score is -10000 and not 0. *)
Lemma evaluateBoard_terminal_overlap :
  (wf_board bothMated = true
   /\ isCheckmate bothMated BLACK = true
   /\ evaluateBoard bothMated <> -10000)
  /\ (wf_board matedAndStalemated = true
      /\ isStalemate matedAndStalemated WHITE = true
      /\ evaluateBoard matedAndStalemated <> 0).
Proof.
  repeat split; try (vm_compute; reflexivity); vm_compute; discriminate.
Qed.

(** Whatever the game phase, [positionValue] is a lookup in the table of the
    piece type: the endgame look-up is overwritten by the last assignment. *)
Lemma positionValue_standard_table (b : Board) (pos : Position) (p : Piece) :
  positionValue b pos p =
  tableAt (PIECE_SQUARE_TABLES (ptype p))
    (if colorEqb (color p) BLACK then row pos else 7 - row pos)
    (if colorEqb (color p) BLACK then col pos else 7 - col pos).
Proof. reflexivity. Qed.

(** C4 at the failing input: with two kings only the endgame predicate
    holds, yet the black king on (3,3) is scored -50 from the standard king
    table and not 40 from the endgame king table; the positional term is -20
    where the endgame table gives 90. *)
Theorem evaluatePositions_endgame_table_unused :
  isEndgamePhase twoKings = true
  /\ getCell twoKings (mkPos 3 3) = Some (moved KING BLACK)
  /\ positionValue twoKings (mkPos 3 3) (moved KING BLACK) = tableAt kingTable 3 3
  /\ tableAt kingTable 3 3 = -50
  /\ tableAt kingEndgame 3 3 = 40
  /\ evaluatePositions twoKings = -20
  /\ evaluatePositions_spec twoKings = 90.
Proof. repeat split; vm_compute; reflexivity. Qed.

(** ** En-passant targets the code creates *)

(** The only en-passant targets generated moves create are the squares
    skipped by a two-square pawn advance: row 5 for white, row 2 for black,
    never a promotion row. *)
Lemma generated_target_rows (b : Board) (position : Position)
    (ep : option Position) (cr : CastlingRights) (m : Move) (e : Position) :
  In m (getPossibleMoves b position ep cr) ->
  getEnPassantTarget m = Some e ->
  row e = match color (piece m) with WHITE => 5 | BLACK => 2 end.
Proof.
  intros Hin Htarget.
  destruct (getPossibleMoves_piece _ _ _ _ _ Hin) as [Hcell Hfrom].
  unfold getEnPassantTarget in Htarget. cbv zeta in Htarget.
  destruct (typeEqb (ptype (piece m)) PAWN) eqn:Et; [|discriminate].
  apply typeEqb_true_iff in Et.
  destruct (mtype m) eqn:Em; try discriminate. simpl in Htarget.
  destruct (Z.abs (row (to m) - row (from m)) =? 2) eqn:Ed; [|discriminate].
  apply Z.eqb_eq in Ed. inversion Htarget; subst e. simpl. clear Htarget.
  revert Hin. unfold getPossibleMoves. rewrite Hcell, Et.
  unfold getPawnMoves. cbv zeta. rewrite in_app_iff, in_flat_map.
  intros [H|(cm & _ & H)].
  - revert H. unfold pawnForwardMoves. cbv zeta.
    destruct (isValidPosition _ && _); [|intros []].
    rewrite in_app_iff. intros [H|H].
    + destruct (isPromotionRow _ _).
      * unfold addPawnPromotionMoves in H. apply in_map_iff in H as (x & Hx & _).
        rewrite <- Hx in Em. discriminate.
      * destruct H as [Hm|[]]. rewrite <- Hm in Ed. simpl in Ed.
        destruct (color (piece m)); simpl in Ed; lia.
    + destruct (isStartRow (color (piece m)) (row position)) eqn:Es; [|destruct H].
      destruct (isValidPosition _ && _); [|destruct H].
      destruct H as [Hm|[]]. rewrite <- Hm. simpl.
      destruct (color (piece m)); simpl in *; apply Z.eqb_eq in Es; lia.
  - revert H. unfold pawnCaptureMoves.
    destruct (isValidPosition cm); [|intros []].
    rewrite in_app_iff. intros [H|H].
    + destruct (getCell b cm) as [t|]; [|destruct H].
      destruct (negb (colorEqb (color t) (color (piece m)))); [|destruct H].
      destruct (isPromotionRow _ _).
      * unfold addPawnPromotionMoves in H. apply in_map_iff in H as (x & Hx & _).
        rewrite <- Hx in Em. discriminate.
      * destruct H as [Hm|[]]. rewrite <- Hm in Em. discriminate.
    + destruct ep as [t|]; [|destruct H].
      destruct ((row cm =? row t) && (col cm =? col t)); [|destruct H].
      cbv zeta in H.
      destruct (getCell b (mkPos (row position) (col t))) as [cp|]; [|destruct H].
      destruct (typeEqb (ptype cp) PAWN
                && negb (colorEqb (color cp) (color (piece m)))); [|destruct H].
      destruct H as [Hm|[]]. rewrite <- Hm in Em. discriminate.
Qed.

(** Such a target is never the destination of a promotion. *)
Lemma generated_target_not_promotion (b : Board) (position : Position)
    (ep : option Position) (cr : CastlingRights) (m : Move) (c : PieceColor)
    (dest : Position) :
  In m (getPossibleMoves b position ep cr) ->
  isPromotionRow c (row dest) = true ->
  getEnPassantTarget m <> Some dest.
Proof.
  intros Hin Hrow Htarget.
  pose proof (generated_target_rows _ _ _ _ _ _ Hin Htarget) as Hr.
  destruct c; simpl in Hrow; apply Z.eqb_eq in Hrow;
    destruct (color (piece m)); lia.
Qed.

(** ** Pawn promotion *)

Lemma filter_all_false {A : Type} (f : A -> bool) (l : list A) :
  (forall x, In x l -> f x = false) -> filter f l = [].
Proof.
  induction l as [|a l IH]; simpl; intros H; auto.
  rewrite (H a) by auto. apply IH. auto.
Qed.

Lemma filter_all_true {A : Type} (f : A -> bool) (l : list A) :
  (forall x, In x l -> f x = true) -> filter f l = l.
Proof.
  induction l as [|a l IH]; simpl; intros H; auto.
  rewrite (H a) by auto. f_equal. apply IH. auto.
Qed.

Lemma addPawnPromotionMoves_to (f t : Position) (p : Piece)
    (captured : option Piece) (m : Move) :
  In m (addPawnPromotionMoves f t p captured) -> to m = t.
Proof.
  unfold addPawnPromotionMoves. rewrite in_map_iff.
  intros (x & <- & _). reflexivity.
Qed.

(** Forward pawn moves stay on the pawn's column. *)
Lemma pawnForwardMoves_col (b : Board) (position : Position) (p : Piece) (m : Move) :
  In m (pawnForwardMoves b position p) -> col (to m) = col position.
Proof.
  unfold pawnForwardMoves.
  destruct (isValidPosition _ && _); [|intros []].
  rewrite in_app_iff. intros [H|H].
  - destruct (isPromotionRow _ _).
    + apply addPawnPromotionMoves_to in H. rewrite H. reflexivity.
    + destruct H as [<-|[]]. reflexivity.
  - destruct (isStartRow _ _); [|destruct H].
    destruct (isValidPosition _ && _); [|destruct H].
    destruct H as [<-|[]]. reflexivity.
Qed.

(** Every move generated for a capture square lands on it. *)
Lemma pawnCaptureMoves_to (b : Board) (position : Position) (p : Piece)
    (ep : option Position) (captureMove : Position) (m : Move) :
  In m (pawnCaptureMoves b position p ep captureMove) -> to m = captureMove.
Proof.
  unfold pawnCaptureMoves.
  destruct (isValidPosition captureMove); [|intros []].
  rewrite in_app_iff. intros [H|H].
  - destruct (getCell b captureMove) as [t|]; [|destruct H].
    destruct (negb _); [|destruct H].
    destruct (isPromotionRow _ _).
    + eapply addPawnPromotionMoves_to; eauto.
    + destruct H as [<-|[]]. reflexivity.
  - destruct ep as [e|]; [|destruct H].
    destruct (_ && _); [|destruct H].
    destruct (getCell b _) as [cp|]; [|destruct H].
    destruct (_ && _); [|destruct H].
    destruct H as [<-|[]]. reflexivity.
Qed.

Lemma isPromotionRow_far (c : PieceColor) (r : Z) :
  isPromotionRow c r = true <-> r = match c with WHITE => 0 | BLACK => 7 end.
Proof. destruct c; simpl; apply Z.eqb_eq. Qed.

(** A pawn one step from its promotion row is not on its starting row. *)
Lemma promotion_not_start (c : PieceColor) (r : Z) :
  isPromotionRow c (r + pawnDirection c) = true -> isStartRow c r = false.
Proof.
  destruct c; simpl; rewrite Z.eqb_eq; intros H; apply Z.eqb_neq; lia.
Qed.

Lemma filter_to_elsewhere (dest : Position) (l : list Move) :
  (forall m, In m l -> to m <> dest) ->
  filter (fun m => posEqb (to m) dest) l = [].
Proof.
  intros H. apply filter_all_false. intros m Hin.
  apply posEqb_false_iff, H, Hin.
Qed.

Lemma filter_to_promotions (f dest : Position) (p : Piece) (captured : option Piece) :
  filter (fun m => posEqb (to m) dest) (addPawnPromotionMoves f dest p captured)
  = addPawnPromotionMoves f dest p captured.
Proof.
  apply filter_all_true. intros m Hin.
  apply posEqb_true_iff. eapply addPawnPromotionMoves_to; eauto.
Qed.

(** The capture square [dest] on the promotion row, holding an enemy piece
    and not being the en-passant target, gets the four promotion captures. *)
Lemma pawnCaptureMoves_promotion (b : Board) (position dest : Position)
    (p t : Piece) (ep : option Position) :
  isValidPosition dest = true -> getCell b dest = Some t ->
  color t <> color p -> isPromotionRow (color p) (row dest) = true ->
  ep <> Some dest ->
  pawnCaptureMoves b position p ep dest
  = addPawnPromotionMoves position dest p (Some t).
Proof.
  intros Hv Ht Hc Hrow Hep. unfold pawnCaptureMoves.
  rewrite Hv, Ht, Hrow.
  replace (colorEqb (color t) (color p)) with false
    by (symmetry; destruct (colorEqb (color t) (color p)) eqn:E; auto;
        apply colorEqb_true_iff in E; contradiction).
  simpl negb. cbv iota.
  destruct ep as [e|]; [|apply app_nil_r].
  destruct ((row dest =? row e) && (col dest =? col e)) eqn:E;
    [|apply app_nil_r].
  exfalso. apply Hep. f_equal.
  apply andb_true_iff in E as [Er Ec]. apply Z.eqb_eq in Er, Ec.
  destruct dest, e; simpl in *; subst; reflexivity.
Qed.

(** C7 (promotion moves): for a pawn on the grid one step from its farthest
    row (row 0 for white, row 7 for black) and a destination [dest] on that
    row which is either the empty square straight ahead or a diagonal square
    holding an enemy piece (the en-passant target, which the data model puts
    on a skipped square, not being that square), the moves of
    [getPossibleMoves] to [dest] are exactly four, in the order queen, rook,
    bishop, knight, each carrying its promotion piece type. *)
Theorem pawn_promotion_moves (b : Board) (position dest : Position) (p : Piece)
    (ep : option Position) (cr : CastlingRights) :
  wf_board b = true -> isValidPosition position = true ->
  getCell b position = Some p -> ptype p = PAWN ->
  isValidPosition dest = true ->
  row dest = row position + pawnDirection (color p) ->
  row dest = match color p with WHITE => 0 | BLACK => 7 end ->
  (col dest = col position /\ getCell b dest = None)
  \/ ((col dest = col position - 1 \/ col dest = col position + 1)
      /\ (exists t, getCell b dest = Some t /\ color t <> color p)
      /\ ep <> Some dest) ->
  filter (fun m => posEqb (to m) dest) (getPossibleMoves b position ep cr)
  = map (fun promotion =>
           mkMove position dest
             (match getCell b dest with
              | Some _ => CAPTURE_AND_PROMOTION
              | None => PROMOTION
              end)
             p (getCell b dest) (Some promotion) None None None)
        [QUEEN; ROOK; BISHOP; KNIGHT].
Proof.
  intros _ _ Hcell Hpawn Hvd Hrow Hfar Hcase.
  apply isPromotionRow_far in Hfar.
  change (map _ [QUEEN; ROOK; BISHOP; KNIGHT])
    with (addPawnPromotionMoves position dest p (getCell b dest)).
  unfold getPossibleMoves. rewrite Hcell, Hpawn. unfold getPawnMoves.
  cbv zeta. simpl flat_map. rewrite app_nil_r, !filter_app.
  set (left := mkPos (row position + pawnDirection (color p)) (col position - 1)).
  set (right := mkPos (row position + pawnDirection (color p)) (col position + 1)).
  destruct Hcase as [[Hcol Hempty] | (Hcol & (t & Ht & Hcolor) & Hep)].
  - assert (Hd : dest = mkPos (row position + pawnDirection (color p)) (col position))
      by (destruct dest; simpl in *; subst; reflexivity).
    rewrite (filter_to_elsewhere dest (pawnCaptureMoves b position p ep left)),
            (filter_to_elsewhere dest (pawnCaptureMoves b position p ep right)).
    + rewrite !app_nil_r. unfold pawnForwardMoves. cbv zeta.
      rewrite <- Hd, Hvd, Hempty, Hfar. simpl negb. simpl andb. cbv iota.
      rewrite (promotion_not_start (color p) (row position))
        by (rewrite <- Hrow; exact Hfar).
      rewrite app_nil_r. apply filter_to_promotions.
    + intros m Hin E. apply pawnCaptureMoves_to in Hin.
      rewrite Hin in E. rewrite <- E in Hcol. simpl in Hcol. lia.
    + intros m Hin E. apply pawnCaptureMoves_to in Hin.
      rewrite Hin in E. rewrite <- E in Hcol. simpl in Hcol. lia.
  - rewrite (filter_to_elsewhere dest (pawnForwardMoves b position p)).
    2:{ intros m Hin E. apply pawnForwardMoves_col in Hin.
        rewrite E in Hin. lia. }
    rewrite Ht. simpl app.
    destruct Hcol as [Hcol|Hcol].
    + assert (Hd : left = dest)
        by (destruct dest; unfold left; simpl in *; subst; reflexivity).
      rewrite (filter_to_elsewhere dest (pawnCaptureMoves b position p ep right)).
      * rewrite Hd, app_nil_r.
        rewrite (pawnCaptureMoves_promotion b position dest p t ep); auto.
        apply filter_to_promotions.
      * intros m Hin E. apply pawnCaptureMoves_to in Hin.
        rewrite Hin in E. rewrite <- E in Hcol. simpl in Hcol. lia.
    + assert (Hd : right = dest)
        by (destruct dest; unfold right; simpl in *; subst; reflexivity).
      rewrite (filter_to_elsewhere dest (pawnCaptureMoves b position p ep left)).
      * rewrite Hd. simpl app.
        rewrite (pawnCaptureMoves_promotion b position dest p t ep); auto.
        apply filter_to_promotions.
      * intros m Hin E. apply pawnCaptureMoves_to in Hin.
        rewrite Hin in E. rewrite <- E in Hcol. simpl in Hcol. lia.
Qed.

(** ** Search engine *)

Lemma isTerminal_iff (b : Board) (depth : Z) :
  isTerminal b depth = true <->
  depth = 0
  \/ isCheckmate b WHITE = true \/ isCheckmate b BLACK = true
  \/ isStalemate b WHITE = true \/ isStalemate b BLACK = true.
Proof.
  unfold isTerminal. rewrite !orb_true_iff, Z.eqb_eq.
  generalize (isCheckmate b WHITE = true) (isCheckmate b BLACK = true)
    (isStalemate b WHITE = true) (isStalemate b BLACK = true) (depth = 0).
  intros cmW cmB smW smB d0. tauto.
Qed.

Lemma length_eqb_nil {A : Type} (l : list A) :
  (length l =? 0)%nat = true <-> l = [].
Proof. rewrite Nat.eqb_eq. apply length_zero_iff_nil. Qed.

(** The guard of [minimax] as one test. *)
Lemma searchStops_iff (b : Board) (depth : Z) (isMax : bool)
    (ep : option Position) (cr : CastlingRights) :
  searchStops b depth isMax ep cr <->
  isTerminal b depth
  || (length (allMoves b (sideToMove isMax) ep cr) =? 0)%nat = true.
Proof.
  unfold searchStops. rewrite orb_true_iff, isTerminal_iff, length_eqb_nil.
  generalize (isCheckmate b WHITE = true) (isCheckmate b BLACK = true)
    (isStalemate b WHITE = true) (isStalemate b BLACK = true) (depth = 0)
    (allMoves b (sideToMove isMax) ep cr = []).
  intros cmW cmB smW smB d0 noMove. tauto.
Qed.

Section LoopFacts.
Variable child : Board -> Num -> Num -> option Num.
Variable board : Board.

(** A loop whose first recursive call does not return does not return. *)
Lemma maxLoop_first_stuck (m : Move) (rest : list Move) (alpha beta acc : Num) :
  child (applyMove (deepClone board) m) alpha beta = None ->
  maxLoop child board (m :: rest) alpha beta acc = None.
Proof. intros H. simpl. rewrite H. reflexivity. Qed.

Lemma minLoop_first_stuck (m : Move) (rest : list Move) (alpha beta acc : Num) :
  child (applyMove (deepClone board) m) alpha beta = None ->
  minLoop child board (m :: rest) alpha beta acc = None.
Proof. intros H. simpl. rewrite H. reflexivity. Qed.

Hypothesis child_returns : forall nb a be, exists v, child nb a be = Some v.

Lemma maxLoop_returns (moves : list Move) (alpha beta acc : Num) :
  exists v, maxLoop child board moves alpha beta acc = Some v.
Proof.
  revert alpha acc. induction moves as [|m rest IH]; intros alpha acc; simpl.
  - eauto.
  - destruct (child_returns (applyMove (deepClone board) m) alpha beta) as [ev ->].
    destruct (numLeb beta (numMax alpha ev)); eauto.
Qed.

Lemma minLoop_returns (moves : list Move) (alpha beta acc : Num) :
  exists v, minLoop child board moves alpha beta acc = Some v.
Proof.
  revert beta acc. induction moves as [|m rest IH]; intros beta acc; simpl.
  - eauto.
  - destruct (child_returns (applyMove (deepClone board) m) alpha beta) as [ev ->].
    destruct (numLeb (numMin beta ev) alpha); eauto.
Qed.
End LoopFacts.

Section LoopScores.
Variable child : Board -> Num -> Num -> option Num.
Variable board : Board.
Hypothesis child_fin : forall nb a be v, child nb a be = Some v -> isFin v.

Lemma maxLoop_fin (moves : list Move) (alpha beta acc v : Num) :
  acc <> PosInf -> isFin acc \/ moves <> [] ->
  maxLoop child board moves alpha beta acc = Some v -> isFin v.
Proof.
  revert alpha acc. induction moves as [|m rest IH]; intros alpha acc Hacc Hne; simpl.
  - intros H; inversion H; subst. destruct Hne as [Hf|Hf]; [exact Hf | congruence].
  - destruct (child (applyMove (deepClone board) m) alpha beta) as [ev|] eqn:E;
      [|discriminate].
    destruct (child_fin _ _ _ _ E) as [e ->].
    assert (Hmax : isFin (numMax acc (Fin e))).
    { destruct acc as [|a|]; [| |congruence]; unfold numMax; simpl.
      - exists e; reflexivity.
      - destruct (a <? e); [exists e | exists a]; reflexivity. }
    destruct (numLeb beta (numMax alpha (Fin e))).
    + intros H; inversion H; subst. exact Hmax.
    + apply IH; auto. destruct Hmax as [z ->]. discriminate.
Qed.

Lemma minLoop_fin (moves : list Move) (alpha beta acc v : Num) :
  acc <> NegInf -> isFin acc \/ moves <> [] ->
  minLoop child board moves alpha beta acc = Some v -> isFin v.
Proof.
  revert beta acc. induction moves as [|m rest IH]; intros beta acc Hacc Hne; simpl.
  - intros H; inversion H; subst. destruct Hne as [Hf|Hf]; [exact Hf | congruence].
  - destruct (child (applyMove (deepClone board) m) alpha beta) as [ev|] eqn:E;
      [|discriminate].
    destruct (child_fin _ _ _ _ E) as [e ->].
    assert (Hmin : isFin (numMin acc (Fin e))).
    { destruct acc as [|a|]; [congruence| |]; unfold numMin; simpl.
      - destruct (e <? a); [exists e | exists a]; reflexivity.
      - exists e; reflexivity. }
    destruct (numLeb (numMin beta (Fin e)) alpha).
    + intros H; inversion H; subst. exact Hmin.
    + apply IH; auto. destruct Hmin as [z ->]. discriminate.
Qed.
End LoopScores.

(** One unfolding of [minimax]. *)
Lemma minimax_unfold (fuel : nat) (b : Board) (depth : Z) (alpha beta : Num)
    (isMax : bool) (ep : option Position) (cr : CastlingRights) :
  minimax (S fuel) b depth alpha beta isMax ep cr =
  if isTerminal b depth
     || (length (allMoves b (sideToMove isMax) ep cr) =? 0)%nat
  then Some (Fin (evaluateBoard b))
  else if isMax then
    maxLoop (fun newBoard a be => minimax fuel newBoard (depth - 1) a be false ep cr)
      b (allMoves b BLACK ep cr) alpha beta NegInf
  else
    minLoop (fun newBoard a be => minimax fuel newBoard (depth - 1) a be true ep cr)
      b (allMoves b WHITE ep cr) alpha beta PosInf.
Proof.
  simpl. unfold sideToMove.
  destruct (isTerminal b depth); simpl; [reflexivity|].
  destruct isMax; destruct (length _ =? 0)%nat; reflexivity.
Qed.

(** Whatever [minimax] returns is a finite score. *)
Lemma minimax_fin (fuel : nat) :
  forall b depth alpha beta isMax ep cr v,
    minimax fuel b depth alpha beta isMax ep cr = Some v -> isFin v.
Proof.
  induction fuel as [|fuel IH]; intros b depth alpha beta isMax ep cr v.
  - discriminate.
  - rewrite minimax_unfold.
    destruct (isTerminal b depth
              || (length (allMoves b (sideToMove isMax) ep cr) =? 0)%nat) eqn:E.
    + intros H; inversion H. eexists; reflexivity.
    + apply orb_false_iff in E as [_ E].
      assert (Hne : allMoves b (sideToMove isMax) ep cr <> []).
      { intros H. apply length_eqb_nil in H. congruence. }
      destruct isMax; simpl in Hne.
      * apply maxLoop_fin; [eauto | discriminate | auto].
      * apply minLoop_fin; [eauto | discriminate | auto].
Qed.

(** With a non-negative depth below the budget, [minimax] returns. *)
Lemma minimax_returns (fuel : nat) :
  forall b depth alpha beta isMax ep cr,
    0 <= depth < Z.of_nat fuel ->
    exists v, minimax fuel b depth alpha beta isMax ep cr = Some v.
Proof.
  induction fuel as [|fuel IH]; intros b depth alpha beta isMax ep cr Hd.
  - lia.
  - rewrite minimax_unfold.
    destruct (isTerminal b depth
              || (length (allMoves b (sideToMove isMax) ep cr) =? 0)%nat) eqn:E.
    + eauto.
    + apply orb_false_iff in E as [E _].
      assert (Hd0 : depth <> 0).
      { intros ->. unfold isTerminal in E. simpl in E. discriminate. }
      destruct isMax.
      * apply maxLoop_returns. intros. apply IH. lia.
      * apply minLoop_returns. intros. apply IH. lia.
Qed.

(** C5 (when the search stops): a call of [minimax] that may make no nested
    call (budget 1) returns, and returns [evaluateBoard board], exactly when
    the depth is 0, or either colour is checkmated or stalemated, or the side
    to move has no legal move; in these cases every call returns that value,
    and in every other case the call is the maximizing or minimizing loop
    over the legal moves of the side to move, each child searched at depth
    minus one with the other side to move. *)
Theorem minimax_stops_exactly (b : Board) (depth : Z) (alpha beta : Num)
    (isMax : bool) (ep : option Position) (cr : CastlingRights) :
  wf_board b = true ->
  (minimax 1 b depth alpha beta isMax ep cr = Some (Fin (evaluateBoard b))
   <-> searchStops b depth isMax ep cr)
  /\ (searchStops b depth isMax ep cr ->
      forall fuel,
        minimax (S fuel) b depth alpha beta isMax ep cr
        = Some (Fin (evaluateBoard b)))
  /\ (~ searchStops b depth isMax ep cr ->
      minimax 1 b depth alpha beta isMax ep cr = None
      /\ forall fuel,
           minimax (S fuel) b depth alpha beta isMax ep cr
           = if isMax then
               maxLoop
                 (fun newBoard a be =>
                    minimax fuel newBoard (depth - 1) a be false ep cr)
                 b (allMoves b (sideToMove isMax) ep cr) alpha beta NegInf
             else
               minLoop
                 (fun newBoard a be =>
                    minimax fuel newBoard (depth - 1) a be true ep cr)
                 b (allMoves b (sideToMove isMax) ep cr) alpha beta PosInf).
Proof.
  intros _.
  assert (Hstop : searchStops b depth isMax ep cr ->
                  forall fuel, minimax (S fuel) b depth alpha beta isMax ep cr
                               = Some (Fin (evaluateBoard b))).
  { intros H fuel. apply searchStops_iff in H.
    rewrite minimax_unfold, H. reflexivity. }
  assert (Hgo : ~ searchStops b depth isMax ep cr ->
                forall fuel,
                  minimax (S fuel) b depth alpha beta isMax ep cr
                  = if isMax then
                      maxLoop
                        (fun newBoard a be =>
                           minimax fuel newBoard (depth - 1) a be false ep cr)
                        b (allMoves b (sideToMove isMax) ep cr) alpha beta NegInf
                    else
                      minLoop
                        (fun newBoard a be =>
                           minimax fuel newBoard (depth - 1) a be true ep cr)
                        b (allMoves b (sideToMove isMax) ep cr) alpha beta PosInf).
  { intros H fuel. rewrite searchStops_iff in H.
    apply not_true_is_false in H.
    rewrite minimax_unfold, H. destruct isMax; reflexivity. }
  assert (Hone : ~ searchStops b depth isMax ep cr ->
                 minimax 1 b depth alpha beta isMax ep cr = None).
  { intros H. rewrite (Hgo H).
    assert (Hne : allMoves b (sideToMove isMax) ep cr <> []).
    { intros E. apply H. unfold searchStops. tauto. }
    destruct (allMoves b (sideToMove isMax) ep cr) as [|m rest]; [congruence|].
    destruct isMax; reflexivity. }
  split; [|split]; auto.
  split.
  - intros H.
    destruct (isTerminal b depth
              || (length (allMoves b (sideToMove isMax) ep cr) =? 0)%nat) eqn:E.
    + apply searchStops_iff. exact E.
    + assert (Hn : ~ searchStops b depth isMax ep cr)
        by (rewrite searchStops_iff, E; discriminate).
      rewrite (Hone Hn) in H. discriminate.
  - intros H. apply Hstop. exact H.
Qed.

Section BestLoop.
Variable score : Board -> option Num.
Variable board : Board.

(** The root loop returns its running best move or a move of the list. *)
Lemma bestLoop_result (isBlack : bool) (moves : list Move)
    (bestMove : option Move) (bestScore : Num) (r : option Move) :
  bestLoop score board isBlack moves bestMove bestScore = Some r ->
  r = bestMove \/ exists m, r = Some m /\ In m moves.
Proof.
  revert bestMove bestScore.
  induction moves as [|m rest IH]; intros bestMove bestScore; simpl.
  - intros H; inversion H; auto.
  - destruct (score (applyMove (deepClone board) m)) as [s|]; [|discriminate].
    assert (Hnew : bestLoop score board isBlack rest (Some m) s = Some r ->
                   r = bestMove \/ exists m', r = Some m' /\ (m = m' \/ In m' rest)).
    { intros H. apply IH in H as [->|(m' & -> & Hin)]; right; eauto. }
    assert (Hold : bestLoop score board isBlack rest bestMove bestScore = Some r ->
                   r = bestMove \/ exists m', r = Some m' /\ (m = m' \/ In m' rest)).
    { intros H. apply IH in H as [->|(m' & -> & Hin)]; eauto. }
    destruct isBlack; [destruct (numLtb bestScore s) | destruct (numLtb s bestScore)];
      auto.
Qed.

Lemma bestLoop_returns (isBlack : bool) (moves : list Move)
    (bestMove : option Move) (bestScore : Num) :
  (forall nb, exists s, score nb = Some s) ->
  exists r, bestLoop score board isBlack moves bestMove bestScore = Some r.
Proof.
  intros Hs. revert bestMove bestScore.
  induction moves as [|m rest IH]; intros bestMove bestScore; simpl.
  - eauto.
  - destruct (Hs (applyMove (deepClone board) m)) as [s ->].
    destruct isBlack; [destruct (numLtb bestScore s) | destruct (numLtb s bestScore)];
      auto.
Qed.

(** From the initial bounds the first finite score is always taken. *)
Lemma bestLoop_picks (isBlack : bool) (moves : list Move) (r : option Move) :
  (forall nb s, score nb = Some s -> isFin s) ->
  moves <> [] ->
  bestLoop score board isBlack moves None (if isBlack then NegInf else PosInf)
    = Some r ->
  exists m, r = Some m /\ In m moves.
Proof.
  intros Hfin Hne. destruct moves as [|m rest]; [congruence|]. simpl.
  destruct (score (applyMove (deepClone board) m)) as [s|] eqn:E; [|discriminate].
  destruct (Hfin _ _ E) as [z ->].
  destruct isBlack; simpl; intros H;
    apply bestLoop_result in H as [->|(m' & -> & Hin)]; eauto.
Qed.
End BestLoop.

(** C6, as the code has it: whenever [findBestMove] returns, it returns no
    move exactly when the side to move has no legal move, and otherwise one
    of the legal moves of that side; without a legal move it returns (no
    move) for every depth, and for a depth of at least 1 it returns within
    [depth] nested [minimax] calls. *)
Theorem findBestMove_legal (b : Board) (depth : Z) (isBlack : bool)
    (ep : option Position) (cr : CastlingRights) :
  wf_board b = true ->
  (forall fuel r,
     findBestMove fuel b depth isBlack ep cr = Some r ->
     (r = None <-> allMoves b (sideToMove isBlack) ep cr = [])
     /\ (forall m, r = Some m -> In m (allMoves b (sideToMove isBlack) ep cr)))
  /\ (allMoves b (sideToMove isBlack) ep cr = [] ->
      forall fuel, findBestMove fuel b depth isBlack ep cr = Some None)
  /\ (1 <= depth ->
      forall fuel, depth <= Z.of_nat fuel ->
                   exists r, findBestMove fuel b depth isBlack ep cr = Some r).
Proof.
  intros _. unfold findBestMove, sideToMove. cbv zeta.
  set (moves := allMoves b (if isBlack then BLACK else WHITE) ep cr).
  split; [|split].
  - intros fuel r.
    destruct (length moves =? 0)%nat eqn:E.
    + apply length_eqb_nil in E. intros H; inversion H; subst. split.
      * tauto.
      * discriminate.
    + assert (Hne : moves <> [])
        by (intros H; apply length_eqb_nil in H; congruence).
      intros H. apply bestLoop_picks in H as (m & -> & Hin); auto.
      * split; [split; [discriminate | contradiction]|].
        intros m' Hm'; inversion Hm'; subst; exact Hin.
      * intros nb s. apply minimax_fin.
  - intros -> fuel. reflexivity.
  - intros Hd fuel Hfuel.
    destruct (length moves =? 0)%nat; [eauto|].
    apply bestLoop_returns. intros nb. apply minimax_returns. lia.
Qed.

(** *** A search that does not return *)

(** Away from depth 0 and from mates, a call whose first child does not
    return does not return. *)
Lemma minimax_follows_first (fuel : nat) (b next : Board) (depth : Z)
    (alpha beta : Num) (isMax : bool) (ep : option Position) (cr : CastlingRights) :
  depth <> 0 ->
  isCheckmate b WHITE || isCheckmate b BLACK
  || isStalemate b WHITE || isStalemate b BLACK = false ->
  firstChild b isMax ep cr = Some next ->
  minimax fuel next (depth - 1) alpha beta (negb isMax) ep cr = None ->
  minimax (S fuel) b depth alpha beta isMax ep cr = None.
Proof.
  intros Hd Hmates Hfirst Hchild. rewrite minimax_unfold.
  unfold firstChild in Hfirst.
  assert (Ht : isTerminal b depth = false).
  { unfold isTerminal. apply Z.eqb_neq in Hd. rewrite Hd.
    rewrite <- !orb_assoc in *. exact Hmates. }
  rewrite Ht.
  destruct (allMoves b (sideToMove isMax) ep cr) as [|m rest] eqn:E;
    [discriminate|].
  inversion Hfirst; subst next. simpl orb. cbv iota.
  destruct isMax; simpl in E; rewrite E.
  - apply maxLoop_first_stuck. exact Hchild.
  - apply minLoop_first_stuck. exact Hchild.
Qed.

(** Below depth 0 the search of the shuffling kings goes round for ever:
    no budget lets [minimax] return on any of the four positions. *)
Lemma shuffle_never_returns (fuel : nat) :
  forall depth alpha beta,
    depth < 0 ->
    minimax fuel shuffleA depth alpha beta true None defaultCastlingRights = None
    /\ minimax fuel shuffleB depth alpha beta false None defaultCastlingRights = None
    /\ minimax fuel shuffleC depth alpha beta true None defaultCastlingRights = None
    /\ minimax fuel shuffleD depth alpha beta false None defaultCastlingRights = None.
Proof.
  induction fuel as [|fuel IH]; intros depth alpha beta Hd.
  - repeat split.
  - assert (Hd' : depth - 1 < 0) by lia.
    destruct (IH (depth - 1) alpha beta Hd') as (HA & HB & HC & HD).
    repeat split.
    + apply (minimax_follows_first fuel shuffleA shuffleB);
        [lia | vm_compute; reflexivity | vm_compute; reflexivity | exact HB].
    + apply (minimax_follows_first fuel shuffleB shuffleC);
        [lia | vm_compute; reflexivity | vm_compute; reflexivity | exact HC].
    + apply (minimax_follows_first fuel shuffleC shuffleD);
        [lia | vm_compute; reflexivity | vm_compute; reflexivity | exact HD].
    + apply (minimax_follows_first fuel shuffleD shuffleA);
        [lia | vm_compute; reflexivity | vm_compute; reflexivity | exact HA].
Qed.

(** A root whose first child does not return does not return. *)
Lemma findBestMove_first_stuck (fuel : nat) (b next : Board) (depth : Z)
    (isBlack : bool) (ep : option Position) (cr : CastlingRights) :
  firstChild b isBlack ep cr = Some next ->
  minimax fuel next (depth - 1) NegInf PosInf (negb isBlack) ep cr = None ->
  findBestMove fuel b depth isBlack ep cr = None.
Proof.
  intros Hfirst Hchild. unfold findBestMove. cbv zeta.
  unfold firstChild, sideToMove in Hfirst.
  destruct (allMoves b (if isBlack then BLACK else WHITE) ep cr) as [|m rest];
    [discriminate|].
  inversion Hfirst; subst next.
  change ((length (m :: rest) =? 0)%nat) with false. cbv iota.
  cbn [bestLoop]. rewrite Hchild. reflexivity.
Qed.

(** At depth 0 the side to move of position A has a legal move, yet no
    budget of nested calls lets [findBestMove] return: the search below the
    root counts the depth down from -1 and never meets 0. *)
Lemma findBestMove_depth_zero_diverges :
  wf_board shuffleA = true
  /\ allMoves shuffleA BLACK None defaultCastlingRights <> []
  /\ ~ exists fuel r,
        findBestMove fuel shuffleA 0 true None defaultCastlingRights = Some r.
Proof.
  split; [reflexivity|]. split; [vm_compute; discriminate|].
  intros (fuel & r & H).
  rewrite (findBestMove_first_stuck fuel shuffleA shuffleB) in H.
  - discriminate.
  - vm_compute; reflexivity.
  - apply shuffle_never_returns. lia.
Qed.

(** ** The statements at concrete positions *)

Lemma noKingOf_sound (b : Board) (kingColor : PieceColor) :
  noKingOf b kingColor = true ->
  forall pos p, isValidPosition pos = true -> getCell b pos = Some p ->
                ptype p = KING -> color p <> kingColor.
Proof.
  unfold noKingOf. rewrite forallb_forall.
  intros H pos p Hv Hp Hk Hc.
  specialize (H pos (valid_in_positions pos Hv)).
  unfold isKingOf in H. rewrite Hp, Hk, Hc in H.
  destruct kingColor; discriminate.
Defined.

Lemma isCheckmate_iff_witness :
  wf_board whiteMated = true
  /\ (isCheckmate whiteMated WHITE = true <->
      isKingInCheck whiteMated WHITE = true
      /\ allMoves whiteMated WHITE None defaultCastlingRights = []).
Proof.
  split; [reflexivity|].
  apply (isCheckmate_iff whiteMated WHITE). reflexivity.
Defined.

Lemma filterLegalMoves_exact_witness :
  wf_board castleBoard = true
  /\ forallb move_on_grid [castleMove] = true
  /\ forall m, In m (filterLegalMoves castleBoard [castleMove] WHITE) <->
               In m [castleMove]
               /\ isKingInCheck (applyMove (deepClone castleBoard) m) WHITE = false.
Proof.
  split; [reflexivity|]. split; [reflexivity|].
  apply (filterLegalMoves_exact castleBoard [castleMove] WHITE); reflexivity.
Defined.

Lemma evaluateBoard_terminal_witness :
  (wf_board whiteMated = true /\ isCheckmate whiteMated WHITE = true
   /\ evaluateBoard whiteMated = 10000)
  /\ (wf_board matedAndStalemated = true
      /\ isCheckmate matedAndStalemated WHITE = false
      /\ isCheckmate matedAndStalemated BLACK = true
      /\ evaluateBoard matedAndStalemated = -10000)
  /\ (wf_board blackStalemated = true
      /\ isCheckmate blackStalemated WHITE = false
      /\ isCheckmate blackStalemated BLACK = false
      /\ isStalemate blackStalemated BLACK = true
      /\ evaluateBoard blackStalemated = 0).
Proof.
  split; [|split].
  - split; [reflexivity|]. split; [vm_compute; reflexivity|].
    apply (evaluateBoard_terminal whiteMated); vm_compute; reflexivity.
  - split; [reflexivity|]. split; [vm_compute; reflexivity|].
    split; [vm_compute; reflexivity|].
    apply (evaluateBoard_terminal matedAndStalemated); vm_compute; reflexivity.
  - split; [reflexivity|]. split; [vm_compute; reflexivity|].
    split; [vm_compute; reflexivity|]. split; [vm_compute; reflexivity|].
    apply (evaluateBoard_terminal blackStalemated);
      [reflexivity | vm_compute; reflexivity | vm_compute; reflexivity |].
    right. vm_compute; reflexivity.
Defined.

Lemma minimax_stops_exactly_witness :
  wf_board shuffleA = true
  /\ (minimax 1 shuffleA 0 NegInf PosInf true None defaultCastlingRights
      = Some (Fin (evaluateBoard shuffleA))
      <-> searchStops shuffleA 0 true None defaultCastlingRights).
Proof.
  split; [reflexivity|].
  apply (minimax_stops_exactly shuffleA 0 NegInf PosInf true None
           defaultCastlingRights). reflexivity.
Defined.

Lemma findBestMove_legal_witness :
  wf_board shuffleA = true /\ 1 <= 1 /\ 1 <= Z.of_nat 1
  /\ exists r, findBestMove 1 shuffleA 1 true None defaultCastlingRights = Some r.
Proof.
  split; [reflexivity|]. split; [lia|]. split; [simpl; lia|].
  apply (findBestMove_legal shuffleA 1 true None defaultCastlingRights);
    [reflexivity | lia | simpl; lia].
Defined.

Lemma pawn_promotion_moves_witness :
  wf_board promotionBoard = true
  /\ getCell promotionBoard (mkPos 1 0) = Some (moved PAWN WHITE)
  /\ getCell promotionBoard (mkPos 0 1) = Some (moved ROOK BLACK)
  /\ filter (fun m => posEqb (to m) (mkPos 0 1))
        (getPossibleMoves promotionBoard (mkPos 1 0) None defaultCastlingRights)
      = map (fun promotion =>
               mkMove (mkPos 1 0) (mkPos 0 1)
                 (match getCell promotionBoard (mkPos 0 1) with
                  | Some _ => CAPTURE_AND_PROMOTION
                  | None => PROMOTION
                  end)
                 (moved PAWN WHITE) (getCell promotionBoard (mkPos 0 1))
                 (Some promotion) None None None)
            [QUEEN; ROOK; BISHOP; KNIGHT].
Proof.
  split; [reflexivity|]. split; [reflexivity|]. split; [reflexivity|].
  apply (pawn_promotion_moves promotionBoard (mkPos 1 0) (mkPos 0 1)
           (moved PAWN WHITE) None defaultCastlingRights);
    try reflexivity.
  right. split; [right; reflexivity|]. split.
  - exists (moved ROOK BLACK). split; [reflexivity | discriminate].
  - discriminate.
Defined.

Lemma applyMove_hasMoved_witness :
  wf_board castleBoard = true /\ move_on_grid castleMove = true
  /\ (exists p, getCell (applyMove castleBoard castleMove) (to castleMove) = Some p
                /\ hasMoved p = true)
  /\ getCell (applyMove castleBoard castleMove) (mkPos 7 5)
      = Some (mkPiece ROOK WHITE true).
Proof.
  split; [reflexivity|]. split; [reflexivity|].
  destruct (applyMove_hasMoved castleBoard castleMove eq_refl eq_refl)
    as (_ & Hto & _ & Hrook & _).
  split.
  - apply Hto. reflexivity.
  - apply (Hrook (mkPos 7 7) (mkPos 7 5) (mkPiece ROOK WHITE false));
      try reflexivity; discriminate.
Defined.

Lemma isKingInCheck_no_king_witness :
  wf_board loneRook = true /\ noKingOf loneRook WHITE = true
  /\ isKingInCheck loneRook WHITE = false.
Proof.
  split; [reflexivity|]. split; [reflexivity|].
  apply (isKingInCheck_no_king loneRook WHITE); [reflexivity|].
  apply noKingOf_sound. reflexivity.
Defined.

Lemma applyMove_frame_witness :
  wf_board whiteMated = true
  /\ move_on_grid (simpleMove (mkPos 7 7) (mkPos 7 6) NORMAL (moved KING WHITE) None)
     = true
  /\ getCell
       (applyMove whiteMated
          (simpleMove (mkPos 7 7) (mkPos 7 6) NORMAL (moved KING WHITE) None))
       (mkPos 7 6)
     = Some (mkPiece KING WHITE true).
Proof.
  split; [reflexivity|]. split; [reflexivity|].
  apply (applyMove_frame whiteMated
           (simpleMove (mkPos 7 7) (mkPos 7 6) NORMAL (moved KING WHITE) None));
    [reflexivity | reflexivity | left; reflexivity].
Defined.

(** ** The scenarios of the specification, by evaluation *)

(** From the initial position the pawn on (6,4) has the two moves to (5,4)
    and (4,4). *)
Example scenario_initial_pawn :
  map (fun m => (to m, mtype m))
      (getPossibleMoves initialBoard (mkPos 6 4) None defaultCastlingRights)
  = [ (mkPos 5 4, NORMAL); (mkPos 4 4, NORMAL) ].
Proof. reflexivity. Qed.

(** A black rook on (0,4) gives check to a lone white king on (7,4). *)
Example scenario_rook_check :
  isKingInCheck
    (place emptyBoard
       [ (mkPos 7 4, moved KING WHITE); (mkPos 0 4, moved ROOK BLACK) ])
    WHITE = true.
Proof. vm_compute. reflexivity. Qed.

(** The mate by the queen on (6,6). *)
Example scenario_mate :
  isCheckmate whiteMated WHITE = true
  /\ isStalemate whiteMated WHITE = false
  /\ evaluateBoard whiteMated = 10000.
Proof. repeat split; vm_compute; reflexivity. Qed.

(** Kings only: no mate, no stalemate, a score made of the king tables
    (-20) and mobility (+10). *)
Example scenario_kings_only :
  isCheckmate twoKings WHITE = false /\ isCheckmate twoKings BLACK = false
  /\ isStalemate twoKings WHITE = false /\ isStalemate twoKings BLACK = false
  /\ evaluateMaterial twoKings = 0 /\ evaluatePositions twoKings = -20
  /\ evaluateKingSafety twoKings = 0 /\ evaluateMobility twoKings = 10
  /\ evaluateBoard twoKings = -10.
Proof. repeat split; vm_compute; reflexivity. Qed.

(** From the initial position the search at depth 1 for black answers with
    the knight move from (0,1) to (2,2). *)
Example scenario_first_reply :
  findBestMove 1 initialBoard 1 true None defaultCastlingRights
  = Some (Some (simpleMove (mkPos 0 1) (mkPos 2 2) NORMAL
                  (mkPiece KNIGHT BLACK false) None)).
Proof. vm_compute. reflexivity. Qed.

(** With the en-passant target put on the promotion square itself (no game
    produces such a target) the generator adds an en-passant move to the
    four promotion captures. *)
Remark stray_en_passant_target :
  map (fun m => (mtype m, promotionPieceType m))
      (filter (fun m => posEqb (to m) (mkPos 0 1))
         (getPossibleMoves strayTargetBoard (mkPos 1 0) (Some (mkPos 0 1))
            defaultCastlingRights))
  = [ (CAPTURE_AND_PROMOTION, Some QUEEN); (CAPTURE_AND_PROMOTION, Some ROOK);
      (CAPTURE_AND_PROMOTION, Some BISHOP); (CAPTURE_AND_PROMOTION, Some KNIGHT);
      (EN_PASSANT, None) ].
Proof. reflexivity. Qed.

(** * Further properties of the code *)

(** ** The shapes of generated moves *)

Lemma colorEqb_false_iff (a c : PieceColor) : colorEqb a c = false <-> a <> c.
Proof. destruct a, c; simpl; split; congruence. Qed.

Lemma occupied_false_iff (c : option Piece) : negb (occupied c) = true <-> c = None.
Proof. destruct c; simpl; split; congruence. Qed.

Section Shapes.
Variable b : Board.
Variable position : Position.
Variable p : Piece.
Variable ep : option Position.
Variable cr : CastlingRights.

Lemma stepMoves_shape (d : Direction) (m : Move) :
  In m (stepMoves b position p d) -> GeneratedShape b position p ep cr m.
Proof.
  unfold stepMoves. cbv zeta.
  set (newPos := mkPos (row position + drow d) (col position + dcol d)).
  destruct (isValidPosition newPos) eqn:Ev; [|intros []].
  destruct (getCell b newPos) as [t|] eqn:Ec.
  - destruct (colorEqb (color t) (color p)) eqn:El; simpl; [intros []|].
    intros [<-|[]]. apply shape_capture; auto. apply colorEqb_false_iff, El.
  - intros [<-|[]]. apply shape_quiet; auto.
Qed.

Lemma linearRay_shape (fuel : nat) (d : Direction) (m : Move) :
  forall r c, In m (linearRay fuel b position p d r c) -> GeneratedShape b position p ep cr m.
Proof.
  induction fuel as [|fuel IH]; intros r c; simpl; [intros []|].
  destruct (isValidPosition (mkPos r c)) eqn:Ev; [|intros []].
  destruct (getCell b (mkPos r c)) as [t|] eqn:Ec.
  - destruct (colorEqb (color t) (color p)) eqn:El; simpl; [intros []|].
    intros [<-|[]]. apply shape_capture; auto. apply colorEqb_false_iff, El.
  - intros [<-|H]; [apply shape_quiet; auto | eapply IH; eauto].
Qed.

Lemma getLinearMoves_shape (directions : list Direction) (m : Move) :
  In m (getLinearMoves b position p directions) -> GeneratedShape b position p ep cr m.
Proof.
  unfold getLinearMoves. rewrite in_flat_map.
  intros (d & _ & H). eapply linearRay_shape; eauto.
Qed.

Lemma castlingMoves_shape (m : Move) :
  ptype p = KING -> In m (castlingMoves b position p cr) -> GeneratedShape b position p ep cr m.
Proof.
  intros Hk. unfold castlingMoves. cbv zeta.
  destruct (hasMoved p) eqn:Eh; simpl; [intros []|].
  rewrite in_app_iff. intros [H|H].
  - destruct (rightsOf cr (color p)) as [r|] eqn:Er; [|destruct H].
    destruct (kingSide r) eqn:Ek; [|destruct H].
    destruct (negb (occupied (getCell b (mkPos (kingRankOf (color p)) 5)))) eqn:E5;
      [|destruct H].
    destruct (negb (occupied (getCell b (mkPos (kingRankOf (color p)) 6)))) eqn:E6;
      [|destruct H].
    simpl in H.
    destruct (isCastlingRook (getCell b (mkPos (kingRankOf (color p)) 7)) (color p))
      eqn:E7; [|destruct H].
    destruct H as [<-|[]].
    apply occupied_false_iff in E5, E6.
    eapply shape_castle_kingside; eauto.
  - destruct (rightsOf cr (color p)) as [r|] eqn:Er; [|destruct H].
    destruct (queenSide r) eqn:Ek; [|destruct H].
    destruct (negb (occupied (getCell b (mkPos (kingRankOf (color p)) 1)))) eqn:E1;
      [|destruct H].
    destruct (negb (occupied (getCell b (mkPos (kingRankOf (color p)) 2)))) eqn:E2;
      [|destruct H].
    destruct (negb (occupied (getCell b (mkPos (kingRankOf (color p)) 3)))) eqn:E3;
      [|destruct H].
    simpl in H.
    destruct (isCastlingRook (getCell b (mkPos (kingRankOf (color p)) 0)) (color p))
      eqn:E0; [|destruct H].
    destruct H as [<-|[]].
    apply occupied_false_iff in E1, E2, E3.
    eapply shape_castle_queenside; eauto.
Qed.

Lemma pawnForwardMoves_shape (m : Move) :
  ptype p = PAWN -> In m (pawnForwardMoves b position p) -> GeneratedShape b position p ep cr m.
Proof.
  intros Hp. unfold pawnForwardMoves. cbv zeta.
  set (oneForward := mkPos (row position + pawnDirection (color p)) (col position)).
  set (twoForward := mkPos (row position + 2 * pawnDirection (color p)) (col position)).
  destruct (isValidPosition oneForward) eqn:E1; [|intros []].
  destruct (negb (occupied (getCell b oneForward))) eqn:E1'; [|intros []].
  apply occupied_false_iff in E1'. simpl andb. cbv iota.
  rewrite in_app_iff. intros [H|H].
  - destruct (isPromotionRow (color p) (row oneForward)) eqn:Er.
    + unfold addPawnPromotionMoves in H. apply in_map_iff in H as (x & <- & Hx).
      apply shape_promotion; auto.
    + destruct H as [<-|[]]. apply shape_quiet; auto.
  - destruct (isStartRow (color p) (row position)); [|destruct H].
    destruct (isValidPosition twoForward) eqn:E2; [|destruct H].
    destruct (negb (occupied (getCell b twoForward))) eqn:E2'; [|destruct H].
    apply occupied_false_iff in E2'.
    destruct H as [<-|[]]. apply shape_quiet; auto.
Qed.

Lemma pawnCaptureMoves_shape (captureMove : Position) (m : Move) :
  ptype p = PAWN ->
  row captureMove = row position + pawnDirection (color p) ->
  col captureMove = col position - 1 \/ col captureMove = col position + 1 ->
  In m (pawnCaptureMoves b position p ep captureMove) -> GeneratedShape b position p ep cr m.
Proof.
  intros Hp Hrow Hcol. unfold pawnCaptureMoves.
  destruct (isValidPosition captureMove) eqn:Ev; [|intros []].
  rewrite in_app_iff. intros [H|H].
  - destruct (getCell b captureMove) as [t|] eqn:Ec; [|destruct H].
    destruct (colorEqb (color t) (color p)) eqn:El; simpl in H; [destruct H|].
    apply colorEqb_false_iff in El.
    destruct (isPromotionRow (color p) (row captureMove)) eqn:Er.
    + unfold addPawnPromotionMoves in H. apply in_map_iff in H as (x & <- & Hx).
      apply shape_capture_promotion; auto.
    + destruct H as [<-|[]]. apply shape_capture; auto.
  - destruct ep as [e|] eqn:Ee; [|destruct H].
    destruct ((row captureMove =? row e) && (col captureMove =? col e)) eqn:E;
      [|destruct H].
    cbv zeta in H.
    destruct (getCell b (mkPos (row position) (col e))) as [cp|] eqn:Ecp;
      [|destruct H].
    destruct (typeEqb (ptype cp) PAWN) eqn:Et; [|destruct H].
    destruct (colorEqb (color cp) (color p)) eqn:El; simpl in H; [destruct H|].
    destruct H as [<-|[]].
    apply andb_true_iff in E as [Er Ec]. apply Z.eqb_eq in Er, Ec.
    apply (shape_en_passant b position p (Some e) cr captureMove e cp); auto.
    + destruct captureMove, e; simpl in *; subst; reflexivity.
    + apply typeEqb_true_iff, Et.
    + apply colorEqb_false_iff, El.
Qed.
End Shapes.

(** Every generated move has one of the shapes, for the piece standing on
    the queried square. *)
Lemma getPossibleMoves_shape (b : Board) (position : Position)
    (ep : option Position) (cr : CastlingRights) (m : Move) :
  In m (getPossibleMoves b position ep cr) ->
  exists p, getCell b position = Some p /\ GeneratedShape b position p ep cr m.
Proof.
  unfold getPossibleMoves.
  destruct (getCell b position) as [p|]; [|intros []].
  intros H. exists p. split; [reflexivity|].
  destruct (ptype p) eqn:Et.
  - unfold getKingMoves in H. apply in_app_iff in H as [H|H].
    + apply in_flat_map in H as (d & _ & H). eapply stepMoves_shape; eauto.
    + apply castlingMoves_shape; auto.
  - eapply getLinearMoves_shape; eauto.
  - eapply getLinearMoves_shape; eauto.
  - eapply getLinearMoves_shape; eauto.
  - unfold getKnightMoves in H. apply in_flat_map in H as (d & _ & H).
    eapply stepMoves_shape; eauto.
  - unfold getPawnMoves in H. cbv zeta in H. apply in_app_iff in H as [H|H].
    + apply pawnForwardMoves_shape; auto.
    + apply in_flat_map in H as (cm & Hcm & H).
      apply (pawnCaptureMoves_shape b position p ep cr cm); auto.
      * destruct Hcm as [<-|[<-|[]]]; reflexivity.
      * destruct Hcm as [<-|[<-|[]]]; simpl; auto.
Qed.

(** ** What every generated move is *)

Lemma generated_move_wellformed_aux (b : Board) (position : Position)
    (ep : option Position) (cr : CastlingRights) (m : Move) :
  isValidPosition position = true ->
  In m (getPossibleMoves b position ep cr) ->
  from m = position
  /\ getCell b position = Some (piece m)
  /\ move_on_grid m = true
  /\ to m <> from m.
Proof.
  intros Hv Hin.
  apply getPossibleMoves_shape in Hin as (p & Hcell & Hshape).
  assert (Hgrid : forall t, isValidPosition t = true ->
            isValidPosition position && isValidPosition t && true && true && true
            = true) by (intros t Ht; rewrite Hv, Ht; reflexivity).
  assert (Hrank : forall c k, 0 <= k < 8 ->
            isValidPosition (mkPos (kingRankOf c) k) = true).
  { intros c k Hk. apply isValidPosition_bounds. destruct c; simpl; lia. }
  destruct Hshape; cbn [from to piece simpleMove];
    (split; [reflexivity|]); (split; [exact Hcell|]); split;
    try (unfold move_on_grid; cbn; apply Hgrid; assumption);
    try (intros E; subst; congruence).
  - unfold move_on_grid; cbn. rewrite Hv. subst t.
    match goal with H : isValidPosition e = true |- _ => rewrite H end.
    simpl. apply isValidPosition_bounds. simpl.
    apply isValidPosition_bounds in Hv.
    match goal with H : isValidPosition e = true |- _ =>
      apply isValidPosition_bounds in H; lia end.
  - intros E. rewrite E in *. destruct (color p); simpl in *; lia.
  - unfold move_on_grid; cbn. rewrite Hv, !Hrank by lia. reflexivity.
  - unfold move_on_grid; cbn. rewrite Hv, !Hrank by lia. reflexivity.
Qed.

(** X1: every move generated for a square of the grid starts on that square,
    carries the piece standing there, has all its positions on the grid and
    goes to another square. *)
Theorem generated_move_wellformed (b : Board) (position : Position)
    (ep : option Position) (cr : CastlingRights) (m : Move) :
  wf_board b = true -> isValidPosition position = true ->
  In m (getPossibleMoves b position ep cr) ->
  from m = position
  /\ getCell b position = Some (piece m)
  /\ move_on_grid m = true
  /\ to m <> from m.
Proof.
  intros _ Hv Hin. apply (generated_move_wellformed_aux b position ep cr); auto.
Qed.

(** X2: except for en-passant captures, a generated move records exactly what
    stands on its destination, and that is never a piece of the mover's
    colour: the destination is empty for a quiet move, a promotion or a
    castling, and holds the captured enemy piece for a capture. *)
Theorem generated_move_target (b : Board) (position : Position)
    (ep : option Position) (cr : CastlingRights) (m : Move) :
  wf_board b = true -> isValidPosition position = true ->
  In m (getPossibleMoves b position ep cr) ->
  mtype m <> EN_PASSANT ->
  capturedPiece m = getCell b (to m)
  /\ (forall t, getCell b (to m) = Some t -> color t <> color (piece m))
  /\ (getCell b (to m) = None <->
      mtype m = NORMAL \/ mtype m = PROMOTION
      \/ mtype m = CASTLE_KINGSIDE \/ mtype m = CASTLE_QUEENSIDE).
Proof.
  intros _ _ Hin Hty.
  apply getPossibleMoves_shape in Hin as (p & Hcell & Hshape).
  destruct Hshape; cbn [to piece mtype capturedPiece simpleMove] in *;
    try congruence;
    match goal with
    | H : getCell b ?t = None |- context [getCell b ?t] => rewrite H
    | H : getCell b ?t = Some _ |- context [getCell b ?t] => rewrite H
    end;
    (split; [reflexivity|]); split;
    try (intros t' Ht'; inversion Ht'; subst; assumption);
    try discriminate;
    try (split; [auto | reflexivity]; tauto);
    try (split; [discriminate | intros [E|[E|[E|E]]]; discriminate]).
  all: split; auto 6.
Qed.

(** X3: a generated en-passant capture is made by a pawn onto the en-passant
    target, one row ahead and one column aside; the pawn it records as
    captured is the enemy pawn standing beside the mover, on the square the
    move names as the capture square. *)
Theorem generated_en_passant (b : Board) (position : Position)
    (ep : option Position) (cr : CastlingRights) (m : Move) :
  wf_board b = true -> isValidPosition position = true ->
  In m (getPossibleMoves b position ep cr) ->
  mtype m = EN_PASSANT ->
  ptype (piece m) = PAWN
  /\ ep = Some (to m)
  /\ row (to m) = row position + pawnDirection (color (piece m))
  /\ (col (to m) = col position - 1 \/ col (to m) = col position + 1)
  /\ enPassantCapturePos m = Some (mkPos (row position) (col (to m)))
  /\ exists capturedPawn,
       getCell b (mkPos (row position) (col (to m))) = Some capturedPawn
       /\ capturedPiece m = Some capturedPawn
       /\ ptype capturedPawn = PAWN
       /\ color capturedPawn <> color (piece m).
Proof.
  intros _ _ Hin Hty.
  apply getPossibleMoves_shape in Hin as (p & Hcell & Hshape).
  destruct Hshape; cbn [mtype simpleMove] in Hty; try discriminate.
  cbn [to piece enPassantCapturePos capturedPiece]. subst t ep.
  repeat split; auto. exists capturedPawn. auto.
Qed.

(** ** Sliding pieces do not jump *)

Lemma linearRay_path (fuel : nat) (b : Board) (position : Position) (p : Piece)
    (d : Direction) (m : Move) :
  forall r c,
    In m (linearRay fuel b position p d r c) ->
    exists k, 0 <= k
      /\ to m = mkPos (r + k * drow d) (c + k * dcol d)
      /\ forall j, 0 <= j < k ->
           getCell b (mkPos (r + j * drow d) (c + j * dcol d)) = None.
Proof.
  induction fuel as [|fuel IH]; intros r c; simpl; [intros []|].
  destruct (isValidPosition (mkPos r c)); [|intros []].
  assert (Hhere : forall ty captured,
            simpleMove position (mkPos r c) ty p captured = m ->
            exists k, 0 <= k
              /\ to m = mkPos (r + k * drow d) (c + k * dcol d)
              /\ forall j, 0 <= j < k ->
                   getCell b (mkPos (r + j * drow d) (c + j * dcol d)) = None).
  { intros ty captured <-. exists 0. split; [lia|]. split.
    - simpl. f_equal; lia.
    - intros j Hj. lia. }
  destruct (getCell b (mkPos r c)) as [t|] eqn:Ec.
  - destruct (negb (colorEqb (color t) (color p))); [|intros []].
    intros [H|[]]. eapply Hhere; eauto.
  - intros [H|H]; [eapply Hhere; eauto|].
    apply IH in H as (k & Hk & Hto & Hpath).
    exists (k + 1). split; [lia|]. split.
    + rewrite Hto. f_equal; lia.
    + intros j Hj. destruct (Z.eq_dec j 0) as [->|Hj0].
      * rewrite <- Ec. f_equal. f_equal; lia.
      * specialize (Hpath (j - 1) ltac:(lia)). rewrite <- Hpath.
        f_equal. f_equal; lia.
Qed.

(** X4: a bishop, rook or queen moves along one of its directions (diagonal for
    the bishop, straight for the rook, any of the eight for the queen) by
    some number of steps, and every square strictly between its origin and
    its destination is empty. *)
Theorem sliding_move_path (b : Board) (position : Position) (p : Piece)
    (ep : option Position) (cr : CastlingRights) (m : Move) :
  wf_board b = true -> isValidPosition position = true ->
  getCell b position = Some p ->
  ptype p = BISHOP \/ ptype p = ROOK \/ ptype p = QUEEN ->
  In m (getPossibleMoves b position ep cr) ->
  exists d k,
    In d (slidingDirections (ptype p)) /\ 1 <= k
    /\ to m = stepsFrom position d k
    /\ forall j, 1 <= j < k -> getCell b (stepsFrom position d j) = None.
Proof.
  intros _ _ Hcell Hty. unfold getPossibleMoves. rewrite Hcell.
  assert (H : In m (getLinearMoves b position p (slidingDirections (ptype p))) ->
              exists d k,
                In d (slidingDirections (ptype p)) /\ 1 <= k
                /\ to m = stepsFrom position d k
                /\ forall j, 1 <= j < k -> getCell b (stepsFrom position d j) = None).
  { unfold getLinearMoves. rewrite in_flat_map. intros (d & Hd & Hin).
    apply linearRay_path in Hin as (k & Hk & Hto & Hpath).
    exists d, (k + 1). split; [exact Hd|]. split; [lia|]. split.
    - rewrite Hto. unfold stepsFrom. f_equal; lia.
    - intros j Hj. specialize (Hpath (j - 1) ltac:(lia)). rewrite <- Hpath.
      unfold stepsFrom. f_equal. f_equal; lia. }
  destruct Hty as [E|[E|E]]; rewrite E in *; exact H.
Qed.

Lemma linearRay_reaches (fuel : nat) (b : Board) (position : Position) (p : Piece)
    (d : Direction) :
  forall r c k,
    0 <= k < Z.of_nat fuel ->
    (forall j, 0 <= j <= k ->
       isValidPosition (mkPos (r + j * drow d) (c + j * dcol d)) = true) ->
    (forall j, 0 <= j < k ->
       getCell b (mkPos (r + j * drow d) (c + j * dcol d)) = None) ->
    match getCell b (mkPos (r + k * drow d) (c + k * dcol d)) with
    | None =>
        In (simpleMove position (mkPos (r + k * drow d) (c + k * dcol d))
              NORMAL p None)
           (linearRay fuel b position p d r c)
    | Some x =>
        color x <> color p ->
        In (simpleMove position (mkPos (r + k * drow d) (c + k * dcol d))
              CAPTURE p (Some x))
           (linearRay fuel b position p d r c)
    end.
Proof.
  induction fuel as [|fuel IH]; intros r c k Hk Hvalid Hempty; [lia|].
  simpl linearRay.
  assert (H0 : mkPos (r + 0 * drow d) (c + 0 * dcol d) = mkPos r c)
    by (f_equal; lia).
  pose proof (Hvalid 0 ltac:(lia)) as Hv0. rewrite H0 in Hv0. rewrite Hv0.
  destruct (Z.eq_dec k 0) as [->|Hk0].
  - rewrite H0. destruct (getCell b (mkPos r c)) as [x|].
    + intros Hc. apply colorEqb_false_iff in Hc. rewrite Hc. simpl. auto.
    + simpl. auto.
  - pose proof (Hempty 0 ltac:(lia)) as He0. rewrite H0 in He0. rewrite He0.
    specialize (IH (r + drow d) (c + dcol d) (k - 1) ltac:(lia)).
    replace (r + drow d + (k - 1) * drow d) with (r + k * drow d) in IH by lia.
    replace (c + dcol d + (k - 1) * dcol d) with (c + k * dcol d) in IH by lia.
    assert (Hin : match getCell b (mkPos (r + k * drow d) (c + k * dcol d)) with
                  | None =>
                      In (simpleMove position
                            (mkPos (r + k * drow d) (c + k * dcol d)) NORMAL p None)
                         (linearRay fuel b position p d (r + drow d) (c + dcol d))
                  | Some x =>
                      color x <> color p ->
                      In (simpleMove position
                            (mkPos (r + k * drow d) (c + k * dcol d))
                            CAPTURE p (Some x))
                         (linearRay fuel b position p d (r + drow d) (c + dcol d))
                  end).
    { apply IH.
      - intros j Hj. specialize (Hvalid (j + 1) ltac:(lia)).
        rewrite <- Hvalid. f_equal. f_equal; lia.
      - intros j Hj. specialize (Hempty (j + 1) ltac:(lia)).
        rewrite <- Hempty. f_equal. f_equal; lia. }
    destruct (getCell b (mkPos (r + k * drow d) (c + k * dcol d))).
    + intros Hc. right. auto.
    + right. exact Hin.
Qed.

(** The sliding directions have components -1, 0 or 1 and are not null. *)
Lemma slidingDirections_unit (t : PieceType) (d : Direction) :
  In d (slidingDirections t) ->
  -1 <= drow d <= 1 /\ -1 <= dcol d <= 1 /\ (drow d <> 0 \/ dcol d <> 0).
Proof.
  destruct t; simpl; intros H;
    repeat (destruct H as [<-|H]; [simpl; lia|]); destruct H.
Qed.

(** X5: conversely, every square of the grid reached from the origin along one
    of the piece's directions over empty squares only is the destination of
    a generated move if it is empty (a quiet move) or holds an enemy piece
    (a capture recording that piece). *)
Theorem sliding_move_complete (b : Board) (position : Position) (p : Piece)
    (ep : option Position) (cr : CastlingRights) (d : Direction) (k : Z) :
  wf_board b = true -> isValidPosition position = true ->
  getCell b position = Some p ->
  ptype p = BISHOP \/ ptype p = ROOK \/ ptype p = QUEEN ->
  In d (slidingDirections (ptype p)) -> 1 <= k ->
  isValidPosition (stepsFrom position d k) = true ->
  (forall j, 1 <= j < k -> getCell b (stepsFrom position d j) = None) ->
  match getCell b (stepsFrom position d k) with
  | None =>
      In (simpleMove position (stepsFrom position d k) NORMAL p None)
         (getPossibleMoves b position ep cr)
  | Some x =>
      color x <> color p ->
      In (simpleMove position (stepsFrom position d k) CAPTURE p (Some x))
         (getPossibleMoves b position ep cr)
  end.
Proof.
  intros _ Hv Hcell Hty Hd Hk Hvk Hempty.
  destruct (slidingDirections_unit _ _ Hd) as (Hr & Hc & Hnz).
  apply isValidPosition_bounds in Hv, Hvk. unfold stepsFrom in Hvk. simpl in Hvk.
  assert (Hk8 : k < 8) by nia.
  assert (Hgoal :
    match getCell b (stepsFrom position d k) with
    | None =>
        In (simpleMove position (stepsFrom position d k) NORMAL p None)
           (getLinearMoves b position p (slidingDirections (ptype p)))
    | Some x =>
        color x <> color p ->
        In (simpleMove position (stepsFrom position d k) CAPTURE p (Some x))
           (getLinearMoves b position p (slidingDirections (ptype p)))
    end).
  { pose proof (linearRay_reaches 8 b position p d
                  (row position + drow d) (col position + dcol d) (k - 1)
                  ltac:(simpl; lia)) as Hreach.
    replace (row position + drow d + (k - 1) * drow d)
      with (row position + k * drow d) in Hreach by lia.
    replace (col position + dcol d + (k - 1) * dcol d)
      with (col position + k * dcol d) in Hreach by lia.
    assert (Hin : match getCell b (stepsFrom position d k) with
                  | None =>
                      In (simpleMove position (stepsFrom position d k) NORMAL p None)
                         (linearRay 8 b position p d
                            (row position + drow d) (col position + dcol d))
                  | Some x =>
                      color x <> color p ->
                      In (simpleMove position (stepsFrom position d k)
                            CAPTURE p (Some x))
                         (linearRay 8 b position p d
                            (row position + drow d) (col position + dcol d))
                  end).
    { apply Hreach.
      - intros j Hj. apply isValidPosition_bounds. simpl. nia.
      - intros j Hj. specialize (Hempty (j + 1) ltac:(lia)).
        rewrite <- Hempty. unfold stepsFrom. f_equal. f_equal; lia. }
    unfold getLinearMoves.
    destruct (getCell b (stepsFrom position d k)).
    + intros Hx. apply in_flat_map. exists d. auto.
    + apply in_flat_map. exists d. auto. }
  unfold getPossibleMoves. rewrite Hcell.
  destruct Hty as [E|[E|E]]; rewrite E in *; exact Hgoal.
Qed.

(** ** The en-passant target a move creates *)

(** A pawn move goes one row ahead, or is the two-square advance from the
    starting row over two empty squares. *)
Lemma getPawnMoves_rows (b : Board) (position : Position) (p : Piece)
    (ep : option Position) (m : Move) :
  In m (getPawnMoves b position p ep) ->
  (from m = position /\ piece m = p
   /\ row (to m) = row position + pawnDirection (color p))
  \/ (m = simpleMove position
            (mkPos (row position + 2 * pawnDirection (color p)) (col position))
            NORMAL p None
      /\ isStartRow (color p) (row position) = true
      /\ isValidPosition
           (mkPos (row position + pawnDirection (color p)) (col position)) = true
      /\ getCell b (mkPos (row position + pawnDirection (color p)) (col position))
         = None
      /\ getCell b (mkPos (row position + 2 * pawnDirection (color p)) (col position))
         = None).
Proof.
  unfold getPawnMoves. cbv zeta. rewrite in_app_iff, in_flat_map.
  intros [H|(cm & Hcm & H)].
  - revert H. unfold pawnForwardMoves. cbv zeta.
    set (oneForward := mkPos (row position + pawnDirection (color p)) (col position)).
    set (twoForward := mkPos (row position + 2 * pawnDirection (color p)) (col position)).
    destruct (isValidPosition oneForward) eqn:E1; [|intros []].
    destruct (negb (occupied (getCell b oneForward))) eqn:E1'; [|intros []].
    apply occupied_false_iff in E1'. simpl andb. cbv iota.
    rewrite in_app_iff. intros [H|H].
    + left. destruct (isPromotionRow (color p) (row oneForward)).
      * unfold addPawnPromotionMoves in H. apply in_map_iff in H as (x & <- & _).
        repeat split.
      * destruct H as [<-|[]]. repeat split.
    + right. destruct (isStartRow (color p) (row position)) eqn:Es; [|destruct H].
      destruct (isValidPosition twoForward) eqn:E2; [|destruct H].
      destruct (negb (occupied (getCell b twoForward))) eqn:E2'; [|destruct H].
      apply occupied_false_iff in E2'.
      destruct H as [<-|[]]. repeat split; auto.
  - left.
    assert (Hrow : row cm = row position + pawnDirection (color p))
      by (destruct Hcm as [<-|[<-|[]]]; reflexivity).
    assert (Hto : to m = cm) by (eapply pawnCaptureMoves_to; eauto).
    rewrite Hto. split; [|split; [|exact Hrow]].
    + revert H. unfold pawnCaptureMoves.
      destruct (isValidPosition cm); [|intros []].
      rewrite in_app_iff. intros [H|H].
      * destruct (getCell b cm) as [t|]; [|destruct H].
        destruct (negb (colorEqb (color t) (color p))); [|destruct H].
        destruct (isPromotionRow (color p) (row cm)).
        -- unfold addPawnPromotionMoves in H. apply in_map_iff in H as (x & <- & _).
           reflexivity.
        -- destruct H as [<-|[]]. reflexivity.
      * destruct ep as [e|]; [|destruct H].
        destruct ((row cm =? row e) && (col cm =? col e)); [|destruct H].
        cbv zeta in H.
        destruct (getCell b (mkPos (row position) (col e))) as [cp|]; [|destruct H].
        destruct (typeEqb (ptype cp) PAWN && negb (colorEqb (color cp) (color p)));
          [|destruct H].
        destruct H as [<-|[]]. reflexivity.
    + revert H. unfold pawnCaptureMoves.
      destruct (isValidPosition cm); [|intros []].
      rewrite in_app_iff. intros [H|H].
      * destruct (getCell b cm) as [t|]; [|destruct H].
        destruct (negb (colorEqb (color t) (color p))); [|destruct H].
        destruct (isPromotionRow (color p) (row cm)).
        -- unfold addPawnPromotionMoves in H. apply in_map_iff in H as (x & <- & _).
           reflexivity.
        -- destruct H as [<-|[]]. reflexivity.
      * destruct ep as [e|]; [|destruct H].
        destruct ((row cm =? row e) && (col cm =? col e)); [|destruct H].
        cbv zeta in H.
        destruct (getCell b (mkPos (row position) (col e))) as [cp|]; [|destruct H].
        destruct (typeEqb (ptype cp) PAWN && negb (colorEqb (color cp) (color p)));
          [|destruct H].
        destruct H as [<-|[]]. reflexivity.
Qed.

(** X6: on generated moves [getEnPassantTarget] and the computation of the
    component agree, and a target is created by the two-square advance of a
    pawn from its starting row only: it is then the square the pawn skips,
    on the grid and empty. *)
Theorem generated_enPassantTarget (b : Board) (position : Position)
    (ep : option Position) (cr : CastlingRights) (m : Move) :
  wf_board b = true -> isValidPosition position = true ->
  In m (getPossibleMoves b position ep cr) ->
  getEnPassantTarget m = makeMove_enPassantTarget m
  /\ forall e,
       getEnPassantTarget m = Some e ->
       ptype (piece m) = PAWN
       /\ isStartRow (color (piece m)) (row position) = true
       /\ to m = mkPos (row position + 2 * pawnDirection (color (piece m)))
                   (col position)
       /\ e = mkPos (row position + pawnDirection (color (piece m))) (col position)
       /\ isValidPosition e = true
       /\ getCell b e = None
       /\ getCell b (to m) = None.
Proof.
  intros _ _ Hin.
  destruct (getPossibleMoves_piece _ _ _ _ _ Hin) as [Hcell Hfrom].
  unfold getEnPassantTarget, makeMove_enPassantTarget. cbv zeta.
  destruct (typeEqb (ptype (piece m)) PAWN) eqn:Et.
  2:{ simpl. split; [reflexivity | discriminate]. }
  apply typeEqb_true_iff in Et. simpl andb.
  revert Hin. unfold getPossibleMoves. rewrite Hcell, Et. intros Hin.
  apply getPawnMoves_rows in Hin
    as [(_ & _ & Hrow) | (Hm & Hstart & Hv1 & He1 & He2)].
  - rewrite Hfrom, Hrow.
    replace (Z.abs (row position + pawnDirection (color (piece m)) - row position) =? 2)
      with false by (destruct (color (piece m)); reflexivity || (symmetry; apply Z.eqb_neq; simpl; lia)).
    replace (Z.abs (row position - (row position + pawnDirection (color (piece m)))) =? 2)
      with false by (symmetry; apply Z.eqb_neq; destruct (color (piece m)); simpl; lia).
    destruct (mtype m); split; try reflexivity; discriminate.
  - assert (Hty : mtype m = NORMAL) by (rewrite Hm; reflexivity).
    assert (Hto : to m = mkPos (row position + 2 * pawnDirection (color (piece m)))
                           (col position)) by (rewrite Hm at 1; reflexivity).
    rewrite Hty, Hfrom, Hto. cbn [row col].
    replace (Z.abs (row position + 2 * pawnDirection (color (piece m)) - row position) =? 2)
      with true by (symmetry; apply Z.eqb_eq; destruct (color (piece m)); simpl; lia).
    replace (Z.abs (row position - (row position + 2 * pawnDirection (color (piece m)))) =? 2)
      with true by (symmetry; apply Z.eqb_eq; destruct (color (piece m)); simpl; lia).
    split; [reflexivity|].
    intros e He.
    assert (Hsq : mkPos (row position + 2 * pawnDirection (color (piece m))
                         + match color (piece m) with WHITE => 1 | BLACK => -1 end)
                        (col position)
                  = mkPos (row position + pawnDirection (color (piece m)))
                          (col position))
      by (f_equal; destruct (color (piece m)); simpl; lia).
    assert (He' : e = mkPos (row position + pawnDirection (color (piece m)))
                        (col position)) by congruence.
    subst e. repeat split; auto.
Qed.

(** ** Move validation *)

Lemma to_test_iff (m : Move) (toPos : Position) :
  (row (to m) =? row toPos) && (col (to m) =? col toPos) = true <-> to m = toPos.
Proof. apply (posEqb_true_iff (to m) toPos). Qed.

(** X7: [isValidMove] answers with a legal move of the piece on the origin that
    lands on the destination, the first one in generation order; it answers
    null exactly when the origin is empty or no legal move of its piece
    lands on the destination. *)
Theorem isValidMove_first_legal (b : Board) (fromPos toPos : Position)
    (ep : option Position) (cr : CastlingRights) :
  wf_board b = true -> isValidPosition fromPos = true ->
  (forall m,
     isValidMove b fromPos toPos ep cr = Some m ->
     getCell b fromPos = Some (piece m)
     /\ from m = fromPos /\ to m = toPos
     /\ In m (getPossibleMoves b fromPos ep cr)
     /\ isKingInCheck (applyMove (deepClone b) m) (color (piece m)) = false
     /\ exists before after,
          filterLegalMoves b (getPossibleMoves b fromPos ep cr) (color (piece m))
          = before ++ m :: after
          /\ forall x, In x before -> to x <> toPos)
  /\ (isValidMove b fromPos toPos ep cr = None <->
      getCell b fromPos = None
      \/ exists p,
           getCell b fromPos = Some p
           /\ forall m,
                In m (filterLegalMoves b (getPossibleMoves b fromPos ep cr) (color p)) ->
                to m <> toPos).
Proof.
  intros _ _. unfold isValidMove. split.
  - intros m. destruct (getCell b fromPos) as [p|] eqn:Ecell; [|discriminate].
    cbv zeta. intros Hfind.
    pose proof (find_some _ _ Hfind) as [Hin Hto].
    apply to_test_iff in Hto.
    pose proof Hin as Hlegal. unfold filterLegalMoves in Hlegal.
    apply filter_In in Hlegal as [Hgen Hsafe].
    destruct (getPossibleMoves_piece _ _ _ _ _ Hgen) as [Hcell Hfrom].
    assert (Hp : p = piece m) by congruence. subst p.
    repeat split; auto.
    + apply negb_true_iff in Hsafe. exact Hsafe.
    + clear Hin Hgen Hsafe.
      revert Hfind.
      generalize (filterLegalMoves b (getPossibleMoves b fromPos ep cr)
                    (color (piece m))).
      intros l. induction l as [|x l IH]; simpl; [discriminate|].
      destruct ((row (to x) =? row toPos) && (col (to x) =? col toPos)) eqn:Ex.
      * intros H; inversion H; subst x. exists [], l. split; [reflexivity|].
        intros y [].
      * intros H. destruct (IH H) as (before & after & -> & Hbefore).
        exists (x :: before), after. split; [reflexivity|].
        intros y [<-|Hy]; [|auto].
        intros E. apply to_test_iff in E. congruence.
  - destruct (getCell b fromPos) as [p|] eqn:Ecell.
    + cbv zeta. split.
      * intros Hnone. right. exists p. split; [reflexivity|].
        intros m Hin E. apply to_test_iff in E.
        pose proof (find_none _ _ Hnone m Hin) as Hf. congruence.
      * intros [H|(q & Hq & Hall)]; [discriminate|].
        inversion Hq; subst q. apply find_all_false.
        intros m Hin. specialize (Hall m Hin).
        destruct ((row (to m) =? row toPos) && (col (to m) =? col toPos)) eqn:E;
          auto.
        apply to_test_iff in E. contradiction.
    + split; auto.
Qed.

(** ** The game state of the component *)

(** X8: [calculateGameState] sorts a position into exactly one of four states:
    checkmate and stalemate as [isCheckmate] and [isStalemate] say, check
    when the king is in check and a legal move exists, active when it is
    not in check and a legal move exists; it never answers draw, and no
    position is both checkmate and stalemate. *)
Theorem calculateGameState_sorts (b : Board) (c : PieceColor) :
  wf_board b = true ->
  (calculateGameState b c = CHECKMATE <-> isCheckmate b c = true)
  /\ (calculateGameState b c = STALEMATE <-> isStalemate b c = true)
  /\ (calculateGameState b c = CHECK <->
      isKingInCheck b c = true /\ allMoves b c None defaultCastlingRights <> [])
  /\ (calculateGameState b c = ACTIVE <->
      isKingInCheck b c = false /\ allMoves b c None defaultCastlingRights <> [])
  /\ calculateGameState b c <> DRAW
  /\ ~ (isCheckmate b c = true /\ isStalemate b c = true).
Proof.
  intros _.
  assert (Hnil : existsb (hasLegalMove b c) positions = false
                 <-> allMoves b c None defaultCastlingRights = [])
    by (rewrite no_legal_move_iff, allMoves_nil_iff; reflexivity).
  assert (Hsome : existsb (hasLegalMove b c) positions = true
                  <-> allMoves b c None defaultCastlingRights <> []).
  { rewrite <- Hnil. destruct (existsb (hasLegalMove b c) positions);
      split; congruence. }
  unfold calculateGameState, isCheckmate, isStalemate.
  destruct (isKingInCheck b c);
    destruct (existsb (hasLegalMove b c) positions) eqn:E; cbn [negb];
    (split; [split; congruence|]); (split; [split; congruence|]);
    (split; [|split; [|split; [discriminate | intros [? ?]; discriminate]]]).
  - split; [intros _; split; [reflexivity | apply Hsome; reflexivity] | reflexivity].
  - split; [discriminate | intros [? ?]; discriminate].
  - split; [discriminate | intros [_ H]; apply Hsome in H; discriminate].
  - split; [discriminate | intros [? ?]; discriminate].
  - split; [discriminate | intros [? ?]; discriminate].
  - split; [intros _; split; [reflexivity | apply Hsome; reflexivity] | reflexivity].
  - split; [discriminate | intros [? ?]; discriminate].
  - split; [discriminate | intros [_ H]; apply Hsome in H; discriminate].
Qed.

(** ** Castling rights of the component *)

Lemma rightsLeb_refl (cr : CastlingRights) : rightsLeb cr cr.
Proof.
  intros c. destruct (rightsOf cr c); [split; auto | exact I].
Qed.

Lemma rightsLeb_trans (a b' c' : CastlingRights) :
  rightsLeb a b' -> rightsLeb b' c' -> rightsLeb a c'.
Proof.
  intros H1 H2 c. specialize (H1 c). specialize (H2 c).
  destruct (rightsOf a c) as [ra|], (rightsOf b' c) as [rb|],
    (rightsOf c' c) as [rc|]; try contradiction; auto.
  destruct H1 as [H1k H1q], H2 as [H2k H2q]. split; auto.
Qed.

Lemma clearKingSide_leb (cr cr' : CastlingRights) (c : PieceColor) :
  clearKingSide cr c = Some cr' ->
  rightsLeb cr' cr
  /\ exists r, rightsOf cr c = Some r
               /\ rightsOf cr' c = Some (mkRights false (queenSide r)).
Proof.
  unfold clearKingSide. destruct (rightsOf cr c) as [r|] eqn:E; [|discriminate].
  intros H; inversion H; subst cr'. split.
  - intros c'. destruct c, c'; simpl in *; rewrite ?E;
      try (destruct (rightsBlack cr); [split; auto | exact I]);
      try (destruct (rightsWhite cr); [split; auto | exact I]);
      split; simpl; auto; discriminate.
  - exists r. split; [reflexivity|]. destruct c; reflexivity.
Qed.

Lemma clearQueenSide_leb (cr cr' : CastlingRights) (c : PieceColor) :
  clearQueenSide cr c = Some cr' ->
  rightsLeb cr' cr
  /\ exists r, rightsOf cr c = Some r
               /\ rightsOf cr' c = Some (mkRights (kingSide r) false).
Proof.
  unfold clearQueenSide. destruct (rightsOf cr c) as [r|] eqn:E; [|discriminate].
  intros H; inversion H; subst cr'. split.
  - intros c'. destruct c, c'; simpl in *; rewrite ?E;
      try (destruct (rightsBlack cr); [split; auto | exact I]);
      try (destruct (rightsWhite cr); [split; auto | exact I]);
      split; simpl; auto; discriminate.
  - exists r. split; [reflexivity|]. destruct c; reflexivity.
Qed.

(** Whenever [updateCastlingRights] returns, every right of the new object
    was a right of the old one. *)
Lemma updateCastlingRights_leb (m : Move) (cr cr' : CastlingRights) :
  updateCastlingRights m cr = Some cr' -> rightsLeb cr' cr.
Proof.
  unfold updateCastlingRights. cbv zeta.
  assert (Hstep : forall (a : CastlingRights) (x : option CastlingRights),
            (x = Some a \/ exists c, x = clearKingSide a c
                       \/ x = clearQueenSide a c) ->
            forall a', x = Some a' -> rightsLeb a' a).
  { intros a x [->|(c & [->| ->])] a' H.
    - inversion H. apply rightsLeb_refl.
    - apply clearKingSide_leb in H. tauto.
    - apply clearQueenSide_leb in H. tauto. }
  destruct (andThen _ _) as [cr3|] eqn:E3 in |- *; [|discriminate].
  revert E3. unfold andThen at 1.
  destruct (if typeEqb (ptype (piece m)) KING then _ else _) as [cr1|] eqn:E1;
    [|discriminate].
  unfold andThen at 1.
  destruct (if typeEqb (ptype (piece m)) ROOK then _ else _) as [cr2|] eqn:E2;
    [|discriminate].
  intros E3 H. inversion H; subst cr3. clear H.
  assert (H1 : rightsLeb cr1 cr).
  { destruct (typeEqb (ptype (piece m)) KING).
    - unfold andThen in E1.
      destruct (clearKingSide cr (color (piece m))) as [x|] eqn:Ex; [|discriminate].
      apply clearKingSide_leb in Ex as [Hx _].
      apply clearQueenSide_leb in E1 as [Hy _].
      eapply rightsLeb_trans; eauto.
    - inversion E1. apply rightsLeb_refl. }
  assert (H2 : rightsLeb cr2 cr1).
  { apply (Hstep cr1 _) in E2; auto.
    destruct (typeEqb (ptype (piece m)) ROOK); auto.
    destruct (col (from m) =? 7); [right; eauto|].
    destruct (col (from m) =? 0); [right; eauto | auto]. }
  assert (H3 : rightsLeb cr' cr2).
  { apply (Hstep cr2 _) in E3; auto.
    destruct (capturedPiece m) as [cp|]; auto.
    destruct (typeEqb (ptype cp) ROOK); auto.
    cbv zeta.
    destruct (col (to m) =? 7); [right; eauto|].
    destruct (col (to m) =? 0); [right; eauto | auto]. }
  eapply rightsLeb_trans; [exact H3|].
  eapply rightsLeb_trans; eauto.
Qed.

Lemma rightsLeb_present (cr' cr : CastlingRights) (c : PieceColor) :
  rightsLeb cr' cr -> rightsOf cr c <> None -> rightsOf cr' c <> None.
Proof.
  intros H Hc. specialize (H c).
  destruct (rightsOf cr' c), (rightsOf cr c); try contradiction; congruence.
Qed.

Lemma clearKingSide_returns (cr : CastlingRights) (c : PieceColor) :
  rightsOf cr c <> None -> exists cr', clearKingSide cr c = Some cr'.
Proof.
  unfold clearKingSide. destruct (rightsOf cr c); [eauto | congruence].
Qed.

Lemma clearQueenSide_returns (cr : CastlingRights) (c : PieceColor) :
  rightsOf cr c <> None -> exists cr', clearQueenSide cr c = Some cr'.
Proof.
  unfold clearQueenSide. destruct (rightsOf cr c); [eauto | congruence].
Qed.

Lemma updateCastlingRights_returns (m : Move) (cr : CastlingRights) :
  (forall c, rightsOf cr c <> None) ->
  exists cr', updateCastlingRights m cr = Some cr'.
Proof.
  intros Hall. unfold updateCastlingRights. cbv zeta.
  assert (H1 : exists cr1,
            (if typeEqb (ptype (piece m)) KING then
               andThen (clearKingSide cr (color (piece m)))
                 (fun x => clearQueenSide x (color (piece m)))
             else Some cr) = Some cr1 /\ forall c, rightsOf cr1 c <> None).
  { destruct (typeEqb (ptype (piece m)) KING); [|eauto].
    destruct (clearKingSide_returns cr (color (piece m)) (Hall _)) as [x Hx].
    rewrite Hx. simpl.
    pose proof (proj1 (clearKingSide_leb _ _ _ Hx)) as Hle.
    destruct (clearQueenSide_returns x (color (piece m))
                (rightsLeb_present _ _ _ Hle (Hall _))) as [y Hy].
    exists y. split; [exact Hy|].
    pose proof (proj1 (clearQueenSide_leb _ _ _ Hy)) as Hle2.
    intros c. eapply rightsLeb_present; eauto. eapply rightsLeb_present; eauto. }
  destruct H1 as (cr1 & -> & Hall1). simpl.
  assert (Hclear : forall (a : CastlingRights) (t : bool) (k c : PieceColor) (z : Z),
            (forall c, rightsOf a c <> None) ->
            exists a',
              (if t then
                 if z =? 7 then clearKingSide a c
                 else if z =? 0 then clearQueenSide a c else Some a
               else Some a) = Some a' /\ forall c, rightsOf a' c <> None).
  { intros a t _ c z Ha. destruct t; [|eauto].
    destruct (z =? 7).
    - destruct (clearKingSide_returns a c (Ha _)) as [x Hx]. exists x.
      split; [exact Hx|]. intros c'.
      eapply rightsLeb_present; [apply (clearKingSide_leb _ _ _ Hx) | auto].
    - destruct (z =? 0); [|eauto].
      destruct (clearQueenSide_returns a c (Ha _)) as [x Hx]. exists x.
      split; [exact Hx|]. intros c'.
      eapply rightsLeb_present; [apply (clearQueenSide_leb _ _ _ Hx) | auto]. }
  destruct (Hclear cr1 (typeEqb (ptype (piece m)) ROOK) WHITE (color (piece m))
              (col (from m)) Hall1) as (cr2 & -> & Hall2).
  simpl. destruct (capturedPiece m) as [cp|]; [|eauto].
  destruct (Hclear cr2 (typeEqb (ptype cp) ROOK) WHITE (opponent (color (piece m)))
              (col (to m)) Hall2) as (cr3 & -> & _).
  eauto.
Qed.

(** X9: on a rights object with an entry for each colour [updateCastlingRights]
    returns, and it never grants a right: every right of the new object was
    a right of the old one, for both colours and both sides. *)
Theorem updateCastlingRights_never_restores (m : Move) (cr : CastlingRights) :
  rightsWhite cr <> None -> rightsBlack cr <> None ->
  exists cr',
    updateCastlingRights m cr = Some cr'
    /\ forall c r',
         rightsOf cr' c = Some r' ->
         exists r, rightsOf cr c = Some r
                   /\ (kingSide r' = true -> kingSide r = true)
                   /\ (queenSide r' = true -> queenSide r = true).
Proof.
  intros Hw Hb.
  destruct (updateCastlingRights_returns m cr) as [cr' Hcr'].
  { intros [|]; assumption. }
  exists cr'. split; [exact Hcr'|].
  intros c r' Hr'. pose proof (updateCastlingRights_leb _ _ _ Hcr' c) as H.
  rewrite Hr' in H. destruct (rightsOf cr c) as [r|]; [|contradiction].
  exists r. destruct H. auto.
Qed.

(** Without the right for a side no castling to that side is generated for
    the colour, whatever the board. *)
Lemma no_right_no_castling (b : Board) (position : Position) (p : Piece)
    (ep : option Position) (cr : CastlingRights) (m : Move) :
  getCell b position = Some p ->
  In m (getPossibleMoves b position ep cr) ->
  (mtype m = CASTLE_KINGSIDE ->
   exists r, rightsOf cr (color p) = Some r /\ kingSide r = true)
  /\ (mtype m = CASTLE_QUEENSIDE ->
      exists r, rightsOf cr (color p) = Some r /\ queenSide r = true).
Proof.
  intros Hcell Hin.
  apply getPossibleMoves_shape in Hin as (q & Hq & Hshape).
  assert (q = p) by congruence. subst q.
  destruct Hshape; cbn [mtype simpleMove]; split; try discriminate; eauto.
Qed.

(** X10: once a king has moved, its colour never castles again: after
    [updateCastlingRights] for a king move the colour has neither right, and
    under the new rights object, or any object obtained from it by further
    updates, the generator produces no castling move for a piece of that
    colour on any board. *)
Theorem king_move_ends_castling (m : Move) (cr cr' : CastlingRights) :
  ptype (piece m) = KING ->
  updateCastlingRights m cr = Some cr' ->
  rightsOf cr' (color (piece m)) = Some (mkRights false false)
  /\ forall later, rightsLeb later cr' ->
     forall b position p ep m',
       getCell b position = Some p -> color p = color (piece m) ->
       In m' (getPossibleMoves b position ep later) ->
       isCastleType (mtype m') = false.
Proof.
  intros Hk Hup.
  assert (Hoff : rightsOf cr' (color (piece m)) = Some (mkRights false false)).
  { revert Hup. unfold updateCastlingRights. cbv zeta.
    rewrite Hk. cbn [typeEqb].
    destruct (clearKingSide cr (color (piece m))) as [x|] eqn:Ex; [|discriminate].
    cbn [andThen].
    destruct (clearQueenSide x (color (piece m))) as [y|] eqn:Ey; [|discriminate].
    cbn [andThen].
    apply clearKingSide_leb in Ex as (_ & r & _ & Hx).
    apply clearQueenSide_leb in Ey as (_ & r2 & Hr2 & Hy).
    rewrite Hx in Hr2. inversion Hr2; subst r2. simpl in Hy.
    destruct (capturedPiece m) as [cp|].
    - destruct (typeEqb (ptype cp) ROOK).
      + cbv zeta.
        assert (Hopp : forall z : option CastlingRights,
                  (z = Some y \/ z = clearKingSide y (opponent (color (piece m)))
                   \/ z = clearQueenSide y (opponent (color (piece m)))) ->
                  z = Some cr' ->
                  rightsOf cr' (color (piece m)) = Some (mkRights false false)).
        { intros z [->|[->| ->]] Hz.
          - inversion Hz; subst; exact Hy.
          - unfold clearKingSide in Hz.
            destruct (rightsOf y (opponent (color (piece m)))); [|discriminate].
            inversion Hz; subst cr'.
            destruct (color (piece m)); simpl in *; exact Hy.
          - unfold clearQueenSide in Hz.
            destruct (rightsOf y (opponent (color (piece m)))); [|discriminate].
            inversion Hz; subst cr'.
            destruct (color (piece m)); simpl in *; exact Hy. }
        intros Hz. eapply Hopp; [|exact Hz].
        destruct (col (to m) =? 7); [auto|].
        destruct (col (to m) =? 0); auto.
      + intros Hz; inversion Hz; subst; exact Hy.
    - intros Hz; inversion Hz; subst; exact Hy. }
  split; [exact Hoff|].
  intros later Hle b position p ep m' Hcell Hcolor Hin.
  destruct (no_right_no_castling _ _ _ _ _ _ Hcell Hin) as [Hks Hqs].
  specialize (Hle (color (piece m))). rewrite Hoff in Hle. rewrite Hcolor in *.
  destruct (rightsOf later (color (piece m))) as [r|] eqn:Er.
  - destruct Hle as [Hlk Hlq]. simpl in Hlk, Hlq.
    destruct (mtype m') eqn:Em; try reflexivity.
    + destruct (Hks eq_refl) as (r0 & Hr0 & Hr0k).
      assert (r0 = r) by congruence. subst r0. specialize (Hlk Hr0k). discriminate.
    + destruct (Hqs eq_refl) as (r0 & Hr0 & Hr0k).
      assert (r0 = r) by congruence. subst r0. specialize (Hlq Hr0k). discriminate.
  - destruct (mtype m') eqn:Em; try reflexivity.
    + destruct (Hks eq_refl) as (r0 & Hr0 & _). congruence.
    + destruct (Hqs eq_refl) as (r0 & Hr0 & _). congruence.
Qed.

(** ** What a move changes on the board *)


Lemma kingRank_valid (c : PieceColor) (k : Z) :
  0 <= k < 8 -> isValidPosition (mkPos (kingRankOf c) k) = true.
Proof.
  intros Hk. apply isValidPosition_bounds. destruct c; simpl; lia.
Qed.

Lemma isCastlingRook_inv (c : option Piece) (kingColor : PieceColor) :
  isCastlingRook c kingColor = true ->
  exists rook, c = Some rook /\ ptype rook = ROOK /\ color rook = kingColor
               /\ hasMoved rook = false.
Proof.
  destruct c as [rook|]; [|discriminate]. simpl.
  rewrite !andb_true_iff, typeEqb_true_iff, colorEqb_true_iff, negb_true_iff.
  intros [[H1 H2] H3]. eauto.
Qed.

(** X12: a generated castling move, applied, castles: the mover is a king that
    has not moved, the rook square it names on the king's home rank holds a
    rook of the same colour that has not moved; afterwards the king stands
    on column 6 and the rook on column 5 (king side), or the king on column 2
    and the rook on column 3 (queen side), both marked as moved, the squares
    they left are empty and no other cell has changed. *)
Theorem castling_applied (b : Board) (position : Position)
    (ep : option Position) (cr : CastlingRights) (m : Move) :
  wf_board b = true -> isValidPosition position = true ->
  In m (getPossibleMoves b position ep cr) ->
  isCastleType (mtype m) = true ->
  let kingRank := kingRankOf (color (piece m)) in
  let side := match mtype m with CASTLE_KINGSIDE => (6, 7, 5) | _ => (2, 0, 3) end in
  let kingTo := mkPos kingRank (fst (fst side)) in
  let rookFrom := mkPos kingRank (snd (fst side)) in
  let rookTo := mkPos kingRank (snd side) in
  ptype (piece m) = KING /\ hasMoved (piece m) = false
  /\ to m = kingTo
  /\ castlingRookFrom m = Some rookFrom /\ castlingRookTo m = Some rookTo
  /\ getCell b rookFrom = Some (mkPiece ROOK (color (piece m)) false)
  /\ getCell (applyMove b m) kingTo = Some (mkPiece KING (color (piece m)) true)
  /\ getCell (applyMove b m) rookTo = Some (mkPiece ROOK (color (piece m)) true)
  /\ getCell (applyMove b m) position = None
  /\ getCell (applyMove b m) rookFrom = None
  /\ forall pos, pos <> position -> pos <> kingTo -> pos <> rookFrom ->
                 pos <> rookTo ->
                 getCell (applyMove b m) pos = getCell b pos.
Proof.
  intros Hwf Hv Hin Hty.
  apply getPossibleMoves_shape in Hin as (p & Hcell & Hshape).
  destruct Hshape; cbn [mtype simpleMove] in Hty; try discriminate;
    cbn [mtype piece to castlingRookFrom castlingRookTo fst snd]; cbv zeta;
    cbn [fst snd];
    match goal with
    | H : isCastlingRook _ _ = true |- _ =>
        apply isCastlingRook_inv in H as (rook & Hrook & Rt & Rc & Rm)
    end;
    destruct rook as [rt rc rm]; cbn [ptype color hasMoved] in Rt, Rc, Rm;
    subst rt rc rm;
    match goal with H : ptype p = KING |- _ => rename H into Hk end;
    unfold applyMove;
    cbn [mtype piece from to castlingRookFrom castlingRookTo enPassantCapturePos
         promotionPieceType isPromotionType isCastleType isEnPassantType];
    cbv zeta; rewrite Hk.
  - set (kr := kingRankOf (color p)) in *.
    pose proof (kingRank_valid (color p) 5 ltac:(lia)) as V5.
    pose proof (kingRank_valid (color p) 6 ltac:(lia)) as V6.
    pose proof (kingRank_valid (color p) 7 ltac:(lia)) as V7.
    fold kr in V5, V6, V7.
    assert (N5 : posEqb position (mkPos kr 5) = false)
      by (apply posEqb_false_iff; intros E; subst; congruence).
    assert (N6 : posEqb position (mkPos kr 6) = false)
      by (apply posEqb_false_iff; intros E; subst; congruence).
    assert (N7 : posEqb position (mkPos kr 7) = false).
    { apply posEqb_false_iff; intros E; subst.
      rewrite Hcell in Hrook. inversion Hrook as [E]. rewrite E in Hk.
      discriminate. }
    assert (N7' : posEqb (mkPos kr 7) position = false).
    { apply posEqb_false_iff. apply posEqb_false_iff in N7. congruence. }
    assert (C76 : posEqb (mkPos kr 7) (mkPos kr 6) = false)
      by (unfold posEqb; cbn [row col]; rewrite Z.eqb_refl; reflexivity).
    assert (C65 : posEqb (mkPos kr 6) (mkPos kr 5) = false)
      by (unfold posEqb; cbn [row col]; rewrite Z.eqb_refl; reflexivity).
    assert (C67 : posEqb (mkPos kr 6) (mkPos kr 7) = false)
      by (unfold posEqb; cbn [row col]; rewrite Z.eqb_refl; reflexivity).
    assert (C75 : posEqb (mkPos kr 7) (mkPos kr 5) = false)
      by (unfold posEqb; cbn [row col]; rewrite Z.eqb_refl; reflexivity).
    assert (Er : getCell (setCell (setCell b position None) (mkPos kr 6)
                   (Some (mkPiece KING (color p) true))) (mkPos kr 7)
                 = Some (mkPiece ROOK (color p) false)).
    { read_writes. rewrite C76, N7'. exact Hrook. }
    rewrite Er. cbn [ptype color].
    repeat match goal with |- _ /\ _ => split end; try reflexivity; auto.
    + read_writes. rewrite C65, C67, posEqb_refl. reflexivity.
    + read_writes. rewrite posEqb_refl. reflexivity.
    + read_writes. rewrite N5, N7, N6, posEqb_refl. reflexivity.
    + read_writes. rewrite C75, posEqb_refl. reflexivity.
    + intros pos Hp Q6 Q7 Q5. read_writes.
      apply posEqb_false_iff in Hp, Q5, Q6, Q7. rewrite Q5, Q7, Q6, Hp.
      reflexivity.
  - set (kr := kingRankOf (color p)) in *.
    pose proof (kingRank_valid (color p) 0 ltac:(lia)) as V0.
    pose proof (kingRank_valid (color p) 2 ltac:(lia)) as V2.
    pose proof (kingRank_valid (color p) 3 ltac:(lia)) as V3.
    fold kr in V0, V2, V3.
    assert (N2 : posEqb position (mkPos kr 2) = false)
      by (apply posEqb_false_iff; intros E; subst; congruence).
    assert (N3 : posEqb position (mkPos kr 3) = false)
      by (apply posEqb_false_iff; intros E; subst; congruence).
    assert (N0 : posEqb position (mkPos kr 0) = false).
    { apply posEqb_false_iff; intros E; subst.
      rewrite Hcell in Hrook. inversion Hrook as [E]. rewrite E in Hk.
      discriminate. }
    assert (N0' : posEqb (mkPos kr 0) position = false).
    { apply posEqb_false_iff. apply posEqb_false_iff in N0. congruence. }
    assert (C02 : posEqb (mkPos kr 0) (mkPos kr 2) = false)
      by (unfold posEqb; cbn [row col]; rewrite Z.eqb_refl; reflexivity).
    assert (C23 : posEqb (mkPos kr 2) (mkPos kr 3) = false)
      by (unfold posEqb; cbn [row col]; rewrite Z.eqb_refl; reflexivity).
    assert (C20 : posEqb (mkPos kr 2) (mkPos kr 0) = false)
      by (unfold posEqb; cbn [row col]; rewrite Z.eqb_refl; reflexivity).
    assert (C03 : posEqb (mkPos kr 0) (mkPos kr 3) = false)
      by (unfold posEqb; cbn [row col]; rewrite Z.eqb_refl; reflexivity).
    assert (Er : getCell (setCell (setCell b position None) (mkPos kr 2)
                   (Some (mkPiece KING (color p) true))) (mkPos kr 0)
                 = Some (mkPiece ROOK (color p) false)).
    { read_writes. rewrite C02, N0'. exact Hrook. }
    rewrite Er. cbn [ptype color].
    repeat match goal with |- _ /\ _ => split end; try reflexivity; auto.
    + read_writes. rewrite C23, C20, posEqb_refl. reflexivity.
    + read_writes. rewrite posEqb_refl. reflexivity.
    + read_writes. rewrite N3, N0, N2, posEqb_refl. reflexivity.
    + read_writes. rewrite C03, posEqb_refl. reflexivity.
    + intros pos Hp Q2 Q0 Q3. read_writes.
      apply posEqb_false_iff in Hp, Q2, Q0, Q3. rewrite Q3, Q0, Q2, Hp.
      reflexivity.
Qed.

(** X13: a generated en-passant capture, applied, moves the pawn onto the target
    square, empties the square it left and removes the pawn standing beside
    it, on the capture square the move names; no other cell changes. *)
Theorem en_passant_applied (b : Board) (position : Position)
    (ep : option Position) (cr : CastlingRights) (m : Move) :
  wf_board b = true -> isValidPosition position = true ->
  In m (getPossibleMoves b position ep cr) ->
  mtype m = EN_PASSANT ->
  let capturePos := mkPos (row position) (col (to m)) in
  getCell (applyMove b m) (to m) = Some (mkPiece PAWN (color (piece m)) true)
  /\ getCell (applyMove b m) position = None
  /\ getCell (applyMove b m) capturePos = None
  /\ forall pos, pos <> position -> pos <> to m -> pos <> capturePos ->
                 getCell (applyMove b m) pos = getCell b pos.
Proof.
  intros Hwf Hv Hin Hty.
  apply getPossibleMoves_shape in Hin as (p & Hcell & Hshape).
  destruct Hshape; cbn [mtype simpleMove] in Hty; try discriminate.
  match goal with H : ptype p = PAWN |- _ => rename H into Hp end.
  match goal with H : isValidPosition t = true |- _ => rename H into Vt end.
  match goal with H : row t = _ |- _ => rename H into Hrow end.
  match goal with H : _ \/ _ |- _ => rename H into Hcol end.
  subst e. cbn [to piece]. cbv zeta.
  unfold applyMove.
  cbn [mtype piece from to castlingRookFrom castlingRookTo enPassantCapturePos
       promotionPieceType isPromotionType isCastleType isEnPassantType].
  cbv zeta. rewrite Hp.
  assert (Vc : isValidPosition (mkPos (row position) (col t)) = true).
  { apply isValidPosition_bounds. apply isValidPosition_bounds in Hv, Vt.
    simpl. lia. }
  assert (Dir : pawnDirection (color p) <> 0) by (destruct (color p); simpl; lia).
  assert (N1 : posEqb position t = false).
  { apply posEqb_false_iff. intros E. rewrite <- E in Hrow. lia. }
  assert (N2 : posEqb t position = false).
  { apply posEqb_false_iff. intros E. rewrite E in Hrow. lia. }
  assert (N3 : posEqb t (mkPos (row position) (col t)) = false).
  { apply posEqb_false_iff. intros E. rewrite E in Hrow. simpl in Hrow. lia. }
  assert (N4 : posEqb position (mkPos (row position) (col t)) = false).
  { apply posEqb_false_iff. intros E. rewrite E in Hcol. simpl in Hcol. lia. }
  assert (N5 : posEqb (mkPos (row position) (col t)) t = false).
  { apply posEqb_false_iff. intros E. rewrite <- E in Hrow. simpl in Hrow. lia. }
  repeat match goal with |- _ /\ _ => split end.
  - read_writes. rewrite N3, posEqb_refl. reflexivity.
  - read_writes. rewrite N4, N1, posEqb_refl. reflexivity.
  - read_writes. rewrite posEqb_refl. reflexivity.
  - intros pos Q1 Q2 Q3. read_writes.
    apply posEqb_false_iff in Q1, Q2, Q3. rewrite Q3, Q2, Q1. reflexivity.
Qed.

Lemma isPromotionType_promotions (f t : Position) (p : Piece)
    (captured : option Piece) (m : Move) :
  In m (addPawnPromotionMoves f t p captured) ->
  isPromotionType (mtype m) = true /\ to m = t.
Proof.
  unfold addPawnPromotionMoves. intros H. apply in_map_iff in H as (x & <- & _).
  cbn [mtype to]. destruct captured; auto.
Qed.

(** Whether a generated pawn move other than an en-passant capture is a
    promotion is decided by its destination row alone. *)
Lemma pawn_move_promotes (b : Board) (position : Position) (p : Piece)
    (ep : option Position) (m : Move) :
  isValidPosition position = true ->
  In m (getPawnMoves b position p ep) -> mtype m <> EN_PASSANT ->
  isPromotionType (mtype m) = isPromotionRow (color p) (row (to m)).
Proof.
  intros Hv Hin Hty. unfold getPawnMoves in Hin. cbv zeta in Hin.
  apply isValidPosition_bounds in Hv.
  apply in_app_iff in Hin as [Hin|Hin].
  - unfold pawnForwardMoves in Hin. cbv zeta in Hin.
    destruct (isValidPosition _ && _); [|destruct Hin].
    apply in_app_iff in Hin as [Hin|Hin].
    + destruct (isPromotionRow (color p) (row (mkPos _ _))) eqn:Er.
      * apply isPromotionType_promotions in Hin as [-> ->]. auto.
      * destruct Hin as [<-|[]]. cbn [mtype to simpleMove]. rewrite Er. reflexivity.
    + destruct (isStartRow (color p) (row position)) eqn:Es; [|destruct Hin].
      destruct (isValidPosition _ && _); [|destruct Hin].
      destruct Hin as [<-|[]]. cbn [mtype to simpleMove row isPromotionType].
      unfold isStartRow in Es. unfold isPromotionRow, pawnDirection.
      destruct (color p); apply Z.eqb_eq in Es; symmetry; apply Z.eqb_neq; lia.
  - apply in_flat_map in Hin as (cm & _ & Hin).
    unfold pawnCaptureMoves in Hin.
    destruct (isValidPosition cm); [|destruct Hin].
    apply in_app_iff in Hin as [Hin|Hin].
    + destruct (getCell b cm) as [x|]; [|destruct Hin].
      destruct (negb _); [|destruct Hin].
      destruct (isPromotionRow (color p) (row cm)) eqn:Er.
      * apply isPromotionType_promotions in Hin as [-> ->]. auto.
      * destruct Hin as [<-|[]]. cbn [mtype to simpleMove]. rewrite Er. reflexivity.
    + destruct ep as [e|]; [|destruct Hin].
      destruct (_ && _); [|destruct Hin]. cbv zeta in Hin.
      destruct (getCell b _); [|destruct Hin].
      destruct (_ && _); [|destruct Hin].
      destruct Hin as [<-|[]]. cbn [mtype] in Hty. congruence.
Qed.

(** X14: a pawn promotes exactly when it reaches the far row: a generated pawn
    move other than an en-passant capture is a promotion if and only if its
    destination is on row 0 for white, row 7 for black; and a generated
    promotion, applied, leaves on the destination the piece the move names
    (a queen, rook, bishop or knight of the mover's colour, marked as moved),
    empties the origin and changes no other cell. *)
Theorem promotion_applied (b : Board) (position : Position)
    (ep : option Position) (cr : CastlingRights) (m : Move) :
  wf_board b = true -> isValidPosition position = true ->
  In m (getPossibleMoves b position ep cr) ->
  ptype (piece m) = PAWN -> mtype m <> EN_PASSANT ->
  (isPromotionType (mtype m) = true
   <-> isPromotionRow (color (piece m)) (row (to m)) = true)
  /\ (isPromotionType (mtype m) = true ->
      exists promotion,
        promotionPieceType m = Some promotion
        /\ In promotion promotionPieces
        /\ getCell (applyMove b m) (to m)
           = Some (mkPiece promotion (color (piece m)) true)
        /\ getCell (applyMove b m) position = None
        /\ forall pos, pos <> position -> pos <> to m ->
                       getCell (applyMove b m) pos = getCell b pos).
Proof.
  intros Hwf Hv Hin Hp Hty.
  destruct (generated_move_wellformed_aux b position ep cr m Hv Hin)
    as (Hfrom & Hcell & Hgrid & Hne).
  split.
  - assert (E : isPromotionType (mtype m)
                = isPromotionRow (color (piece m)) (row (to m))).
    { unfold getPossibleMoves in Hin. rewrite Hcell, Hp in Hin.
      eapply pawn_move_promotes; eauto. }
    rewrite E. tauto.
  - intros Hpromo.
    apply move_on_grid_parts in Hgrid as (Vf & Vt & _).
    apply getPossibleMoves_shape in Hin as (p & _ & Hshape).
    destruct Hshape; cbn [mtype simpleMove isPromotionType] in Hpromo;
      try discriminate;
      exists promotion; cbn [promotionPieceType piece to from] in *;
      (split; [reflexivity|]); (split; [assumption|]);
      unfold applyMove;
      cbn [mtype piece from to castlingRookFrom castlingRookTo
           enPassantCapturePos promotionPieceType isPromotionType isCastleType
           isEnPassantType]; cbv zeta.
    all: assert (N1 : posEqb position t = false)
           by (apply posEqb_false_iff; congruence).
    all: repeat match goal with |- _ /\ _ => split end.
    all: try (read_writes; rewrite ?N1, ?posEqb_refl; reflexivity).
    all: intros pos Q1 Q2; read_writes;
         apply posEqb_false_iff in Q1, Q2; rewrite Q2, Q1; reflexivity.
Qed.

(** ** The terms of the evaluator *)

Lemma mobility_fold (b : Board) (l : list Position) (w k : Z) :
  fold_left
    (fun wb pos =>
       match getCell b pos with
       | Some p =>
           let moves := getPossibleMoves b pos None defaultCastlingRights in
           let legalMoves := filterLegalMoves b moves (color p) in
           if colorEqb (color p) WHITE
           then (fst wb + Z.of_nat (length legalMoves), snd wb)
           else (fst wb, snd wb + Z.of_nat (length legalMoves))
       | None => wb
       end) l (w, k)
  = (w + Z.of_nat (length (flat_map
           (fun pos =>
              match getCell b pos with
              | Some p =>
                  if colorEqb (color p) WHITE then
                    filterLegalMoves b
                      (getPossibleMoves b pos None defaultCastlingRights) WHITE
                  else []
              | None => []
              end) l)),
     k + Z.of_nat (length (flat_map
           (fun pos =>
              match getCell b pos with
              | Some p =>
                  if colorEqb (color p) BLACK then
                    filterLegalMoves b
                      (getPossibleMoves b pos None defaultCastlingRights) BLACK
                  else []
              | None => []
              end) l))).
Proof.
  revert w k. induction l as [|pos l IH]; intros w k.
  - simpl. rewrite !Z.add_0_r. reflexivity.
  - cbn [fold_left flat_map]. rewrite !length_app, !Nat2Z.inj_add.
    destruct (getCell b pos) as [p|].
    + cbv zeta. destruct (color p); cbn [colorEqb fst snd];
        rewrite IH; cbn [length]; f_equal; lia.
    + rewrite IH. cbn [length]. f_equal; lia.
Qed.

(** X15: the mobility term is twice the difference between the numbers of legal
    moves of black and of white, counted as the search enumerates them
    without en-passant target and with the default castling rights. *)
Theorem evaluateMobility_counts (b : Board) :
  evaluateMobility b
  = 2 * (Z.of_nat (length (allMoves b BLACK None defaultCastlingRights))
         - Z.of_nat (length (allMoves b WHITE None defaultCastlingRights))).
Proof.
  unfold evaluateMobility. rewrite mobility_fold. cbv zeta. cbn [fst snd].
  unfold allMoves. cbv zeta. lia.
Qed.

Lemma kingPositions_fold (b : Board) (l : list Position)
    (w k : option Position) :
  (forall pos, In pos l -> isKingOf WHITE (getCell b pos) = false) ->
  fst (fold_left
         (fun wb pos =>
            match getCell b pos with
            | Some p =>
                if typeEqb (ptype p) KING then
                  if colorEqb (color p) WHITE then (Some pos, snd wb)
                  else (fst wb, Some pos)
                else wb
            | None => wb
            end) l (w, k)) = w.
Proof.
  revert w k. induction l as [|pos l IH]; intros w k Hno; [reflexivity|].
  cbn [fold_left].
  pose proof (Hno pos (or_introl eq_refl)) as Hpos.
  assert (Hrest : forall q, In q l -> isKingOf WHITE (getCell b q) = false)
    by (intros q Hq; apply Hno; right; exact Hq).
  destruct (getCell b pos) as [p|]; [|apply IH; exact Hrest].
  cbn [isKingOf] in Hpos.
  destruct (typeEqb (ptype p) KING); [|apply IH; exact Hrest].
  destruct (colorEqb (color p) WHITE); [discriminate|].
  cbn [fst snd]. apply IH; exact Hrest.
Qed.

Lemma kingPositions_fold_black (b : Board) (l : list Position)
    (w k : option Position) :
  (forall pos, In pos l -> isKingOf BLACK (getCell b pos) = false) ->
  snd (fold_left
         (fun wb pos =>
            match getCell b pos with
            | Some p =>
                if typeEqb (ptype p) KING then
                  if colorEqb (color p) WHITE then (Some pos, snd wb)
                  else (fst wb, Some pos)
                else wb
            | None => wb
            end) l (w, k)) = k.
Proof.
  revert w k. induction l as [|pos l IH]; intros w k Hno; [reflexivity|].
  cbn [fold_left].
  pose proof (Hno pos (or_introl eq_refl)) as Hpos.
  assert (Hrest : forall q, In q l -> isKingOf BLACK (getCell b q) = false)
    by (intros q Hq; apply Hno; right; exact Hq).
  destruct (getCell b pos) as [p|]; [|apply IH; exact Hrest].
  cbn [isKingOf] in Hpos.
  destruct (typeEqb (ptype p) KING); [|apply IH; exact Hrest].
  destruct (color p); cbn [colorEqb andb] in *; [|discriminate].
  cbn [fst snd]. apply IH; exact Hrest.
Qed.

Lemma noKingOf_cells (b : Board) (c : PieceColor) :
  noKingOf b c = true ->
  forall pos, In pos positions -> isKingOf c (getCell b pos) = false.
Proof.
  unfold noKingOf. rewrite forallb_forall. intros H pos Hpos.
  apply negb_true_iff. apply H. exact Hpos.
Qed.

Lemma evaluatePawnShield_range (b : Board) (kingPos : Position)
    (kingColor : PieceColor) :
  0 <= evaluatePawnShield b kingPos kingColor <= 30.
Proof.
  unfold evaluatePawnShield. cbv zeta.
  set (step := fun (score : Z) (pos : Position) =>
         if (0 <=? row pos) && (row pos <? BOARD_SIZE)
            && (0 <=? col pos) && (col pos <? BOARD_SIZE) then
           match getCell b pos with
           | Some p =>
               if typeEqb (ptype p) PAWN && colorEqb (color p) kingColor
               then score + 10 else score
           | None => score
           end
         else score).
  assert (Hstep : forall score pos, score <= step score pos <= score + 10).
  { intros score pos. unfold step.
    destruct ((0 <=? row pos) && (row pos <? BOARD_SIZE)
              && (0 <=? col pos) && (col pos <? BOARD_SIZE)); [|lia].
    destruct (getCell b pos) as [p|]; [|lia].
    destruct (typeEqb (ptype p) PAWN && colorEqb (color p) kingColor); lia. }
  cbn [fold_left].
  match goal with
  | |- 0 <= step (step (step 0 ?a) ?c) ?d <= 30 =>
      pose proof (Hstep 0 a);
      pose proof (Hstep (step 0 a) c);
      pose proof (Hstep (step (step 0 a) c) d)
  end.
  lia.
Qed.

(** X16: the king-safety term is 0 as soon as a colour has no king on the board,
    and otherwise stays within 80 points either way: 50 for a check and 10
    for each of at most three shielding pawns. *)
Theorem evaluateKingSafety_range (b : Board) :
  (noKingOf b WHITE = true \/ noKingOf b BLACK = true -> evaluateKingSafety b = 0)
  /\ -80 <= evaluateKingSafety b <= 80.
Proof.
  split.
  - intros [H|H]; unfold evaluateKingSafety.
    + assert (E : fst (kingPositions b) = None)
        by exact (kingPositions_fold b positions None None
                    (noKingOf_cells b WHITE H)).
      destruct (kingPositions b) as [w k]. cbn [fst] in E. subst w. reflexivity.
    + assert (E : snd (kingPositions b) = None)
        by exact (kingPositions_fold_black b positions None None
                    (noKingOf_cells b BLACK H)).
      destruct (kingPositions b) as [w k]. cbn [snd] in E. subst k.
      destruct w; reflexivity.
  - unfold evaluateKingSafety.
    destruct (kingPositions b) as [[w|] [k|]]; try lia.
    cbv zeta.
    pose proof (evaluatePawnShield_range b k BLACK).
    pose proof (evaluatePawnShield_range b w WHITE).
    destruct (isKingInCheck b WHITE), (isKingInCheck b BLACK); lia.
Qed.

(** ** Stalemate *)

Lemma noKingOf_not_in_check (b : Board) (c : PieceColor) :
  noKingOf b c = true -> isKingInCheck b c = false.
Proof.
  intros H. unfold isKingInCheck, findKing.
  rewrite (find_all_false _ positions); [reflexivity|].
  apply noKingOf_cells. exact H.
Qed.

(** X17: [isStalemate] is true exactly when the king of the colour is not in
    check and the colour has no legal move.  A colour with no king on the
    board is never checkmated, and is stalemated as soon as it has no legal
    move: so it is with both colours on the empty board. *)
Theorem isStalemate_exact (b : Board) (c : PieceColor) :
  wf_board b = true ->
  (isStalemate b c = true <->
   isKingInCheck b c = false /\ allMoves b c None defaultCastlingRights = [])
  /\ (noKingOf b c = true ->
      isCheckmate b c = false
      /\ (isStalemate b c = true <->
          allMoves b c None defaultCastlingRights = [])).
Proof.
  intros _.
  assert (H : isStalemate b c = true <->
              isKingInCheck b c = false
              /\ allMoves b c None defaultCastlingRights = []).
  { rewrite allMoves_nil_iff, <- no_legal_move_iff. unfold isStalemate.
    destruct (isKingInCheck b c).
    - split; [discriminate | intros [? _]; discriminate].
    - rewrite negb_true_iff. tauto. }
  split; [exact H|].
  intros Hno. apply noKingOf_not_in_check in Hno.
  split.
  - unfold isCheckmate. rewrite Hno. reflexivity.
  - rewrite H. tauto.
Qed.

(** ** Cut-offs do not change the value of the search *)

Lemma numLtb_seat (B : Z) (a c : Num) :
  within B a -> within B c -> (numLtb a c = true <-> seat B a < seat B c).
Proof.
  destruct a, c; simpl; rewrite ?Z.ltb_lt; intros; split; intros; try lia;
    try discriminate; reflexivity.
Qed.

Lemma numLtb_seat_false (B : Z) (a c : Num) :
  within B a -> within B c -> (numLtb a c = false <-> seat B c <= seat B a).
Proof.
  destruct a, c; simpl; rewrite ?Z.ltb_ge; intros; split; intros; try lia;
    try discriminate; reflexivity.
Qed.

Lemma num_eq_seat (B : Z) (a c : Num) :
  within B a -> within B c -> (a = c <-> seat B a = seat B c).
Proof.
  destruct a, c; simpl; intros; split; intros H1; try lia; try discriminate;
    try reflexivity; try congruence.
Qed.

Lemma seat_range (B : Z) (x : Num) :
  within B x -> - B - 1 <= seat B x <= B + 1.
Proof. destruct x; simpl; lia. Qed.

Lemma within_spread (B : Z) (x : Num) : spread x <= B -> within B x.
Proof. destruct x; simpl; lia. Qed.

Lemma spread_nonneg (x : Num) : 0 <= spread x.
Proof. destruct x; simpl; lia. Qed.

Ltac num_spreads acc :=
  match goal with
  | x : Num |- _ =>
      lazymatch acc with
      | context [spread x] => fail
      | _ => num_spreads constr:(acc + spread x)
      end
  | _ => constr:(acc)
  end.

(** Decides a statement on the order of numbers: all the numbers at hand lie
    within a common bound, so that the statement is one on their seats. *)
Ltac num_order :=
  unfold agreesInWindow, better, numLeb, numMax, numMin in *;
  repeat match goal with
         | H : context [if numLtb ?a ?c then _ else _] |- _ =>
             destruct (numLtb a c) eqn:?
         | |- context [if numLtb ?a ?c then _ else _] =>
             destruct (numLtb a c) eqn:?
         end;
  rewrite ?negb_true_iff, ?negb_false_iff in *;
  let s := num_spreads constr:(0) in
  let B := fresh "B" in
  pose (B := s);
  repeat match goal with
         | x : Num |- _ =>
             lazymatch goal with
             | H : within B x |- _ => fail
             | _ =>
                 assert (within B x)
                   by (apply within_spread; unfold B;
                       repeat match goal with
                              | y : Num |- _ =>
                                  lazymatch goal with
                                  | H : 0 <= spread y |- _ => fail
                                  | _ => pose proof (spread_nonneg y)
                                  end
                              end; lia)
             end
         end;
  assert (within B NegInf)
    by (unfold B; simpl;
        repeat match goal with
               | y : Num |- _ =>
                   lazymatch goal with
                   | H : 0 <= spread y |- _ => fail
                   | _ => pose proof (spread_nonneg y)
                   end
               end; lia);
  assert (within B PosInf) by assumption;
  clearbody B;
  repeat match goal with
         | H : context [numLtb ?a ?c = true] |- _ =>
             rewrite (numLtb_seat B a c) in H by assumption
         | H : context [numLtb ?a ?c = false] |- _ =>
             rewrite (numLtb_seat_false B a c) in H by assumption
         | H : context [@eq Num ?a ?c] |- _ =>
             rewrite (num_eq_seat B a c) in H by assumption
         | |- context [numLtb ?a ?c = true] =>
             rewrite (numLtb_seat B a c) by assumption
         | |- context [numLtb ?a ?c = false] =>
             rewrite (numLtb_seat_false B a c) by assumption
         | |- context [@eq Num ?a ?c] =>
             rewrite (num_eq_seat B a c) by assumption
         end;
  repeat match goal with
         | H : within B ?x |- _ => apply seat_range in H
         end;
  cbn [seat] in *;
  lia.

Section CutOffs.
Variable child : Board -> Num -> Num -> option Num.
Variable value : Board -> option Num.
Variable board : Board.
Hypothesis child_agrees :
  forall nb a be v,
    numLtb a be = true -> value nb = Some v ->
    exists r, child nb a be = Some r /\ agreesInWindow a be v r.

Lemma plainMaxLoop_ge (moves : list Move) (acc v : Num) :
  plainMaxLoop value board moves acc = Some v -> numLeb acc v = true.
Proof.
  revert acc. induction moves as [|m rest IH]; intros acc; cbn [plainMaxLoop].
  - intros H; inversion H; subst. num_order.
  - cbv zeta. destruct (value (applyMove (deepClone board) m)) as [ev|];
      [|discriminate].
    intros H. apply IH in H. num_order.
Qed.

Lemma plainMinLoop_le (moves : list Move) (acc v : Num) :
  plainMinLoop value board moves acc = Some v -> numLeb v acc = true.
Proof.
  revert acc. induction moves as [|m rest IH]; intros acc; cbn [plainMinLoop].
  - intros H; inversion H; subst. num_order.
  - cbv zeta. destruct (value (applyMove (deepClone board) m)) as [ev|];
      [|discriminate].
    intros H. apply IH in H. num_order.
Qed.

(** The maximizing loop from the window [(alpha, beta)], the running bound
    [a] and the running maxima of both loops. *)
Lemma maxLoop_agrees (alpha beta : Num) (moves : list Move) :
  forall a maxEval pmax v,
    a = numMax alpha maxEval -> a = numMax alpha pmax ->
    numLtb a beta = true ->
    plainMaxLoop value board moves pmax = Some v ->
    exists r, maxLoop child board moves a beta maxEval = Some r
              /\ agreesInWindow alpha beta v r.
Proof.
  induction moves as [|m rest IH]; intros a maxEval pmax v I1 I2 Hlt;
    cbn [plainMaxLoop maxLoop]; cbv zeta.
  - intros H; inversion H; subst pmax. exists maxEval. split; [reflexivity|].
    num_order.
  - destruct (value (applyMove (deepClone board) m)) as [ev|] eqn:Ev;
      [|discriminate].
    intros Hrest.
    destruct (child_agrees _ a beta ev Hlt Ev) as (r & -> & Hr).
    destruct (numLeb beta (numMax a r)) eqn:Ecut.
    + exists (numMax maxEval r). split; [reflexivity|].
      apply plainMaxLoop_ge in Hrest. clear IH Ev. num_order.
    + apply (IH (numMax a r) (numMax maxEval r) (numMax pmax ev) v); auto.
      * clear IH Ev Hrest. num_order.
      * clear IH Ev Hrest. num_order.
      * clear IH Ev Hrest. num_order.
Qed.

(** The minimizing loop, likewise. *)
Lemma minLoop_agrees (alpha beta : Num) (moves : list Move) :
  forall be minEval pmin v,
    be = numMin beta minEval -> be = numMin beta pmin ->
    numLtb alpha be = true ->
    plainMinLoop value board moves pmin = Some v ->
    exists r, minLoop child board moves alpha be minEval = Some r
              /\ agreesInWindow alpha beta v r.
Proof.
  induction moves as [|m rest IH]; intros be minEval pmin v I1 I2 Hlt;
    cbn [plainMinLoop minLoop]; cbv zeta.
  - intros H; inversion H; subst pmin. exists minEval. split; [reflexivity|].
    num_order.
  - destruct (value (applyMove (deepClone board) m)) as [ev|] eqn:Ev;
      [|discriminate].
    intros Hrest.
    destruct (child_agrees _ alpha be ev Hlt Ev) as (r & -> & Hr).
    destruct (numLeb (numMin be r) alpha) eqn:Ecut.
    + exists (numMin minEval r). split; [reflexivity|].
      apply plainMinLoop_le in Hrest. clear IH Ev. num_order.
    + apply (IH (numMin be r) (numMin minEval r) (numMin pmin ev) v); auto.
      * clear IH Ev Hrest. num_order.
      * clear IH Ev Hrest. num_order.
      * clear IH Ev Hrest. num_order.
Qed.
End CutOffs.

Lemma minimaxValue_unfold (fuel : nat) (b : Board) (depth : Z)
    (isMax : bool) (ep : option Position) (cr : CastlingRights) :
  minimaxValue (S fuel) b depth isMax ep cr =
  if isTerminal b depth
     || (length (allMoves b (sideToMove isMax) ep cr) =? 0)%nat
  then Some (Fin (evaluateBoard b))
  else if isMax then
    plainMaxLoop (fun newBoard => minimaxValue fuel newBoard (depth - 1) false ep cr)
      b (allMoves b BLACK ep cr) NegInf
  else
    plainMinLoop (fun newBoard => minimaxValue fuel newBoard (depth - 1) true ep cr)
      b (allMoves b WHITE ep cr) PosInf.
Proof.
  cbn [minimaxValue]. unfold sideToMove.
  destruct (isTerminal b depth); cbn [orb]; [reflexivity|].
  destruct isMax; destruct (length _ =? 0)%nat; reflexivity.
Qed.

Lemma plainLoops_return (value : Board -> option Num) (board : Board)
    (moves : list Move) :
  (forall nb, exists v, value nb = Some v) ->
  forall acc,
    (exists v, plainMaxLoop value board moves acc = Some v)
    /\ (exists v, plainMinLoop value board moves acc = Some v).
Proof.
  intros Hv. induction moves as [|m rest IH]; intros acc;
    cbn [plainMaxLoop plainMinLoop]; cbv zeta.
  - eauto.
  - destruct (Hv (applyMove (deepClone board) m)) as [ev ->].
    split; apply IH.
Qed.

Lemma minimaxValue_returns (fuel : nat) :
  forall b depth isMax ep cr,
    0 <= depth < Z.of_nat fuel ->
    exists v, minimaxValue fuel b depth isMax ep cr = Some v.
Proof.
  induction fuel as [|fuel IH]; intros b depth isMax ep cr Hd.
  - lia.
  - rewrite minimaxValue_unfold.
    destruct (isTerminal b depth
              || (length (allMoves b (sideToMove isMax) ep cr) =? 0)%nat) eqn:E.
    + eauto.
    + apply orb_false_iff in E as [E _].
      assert (Hd0 : depth <> 0).
      { intros ->. unfold isTerminal in E. simpl in E. discriminate. }
      destruct isMax; apply plainLoops_return; intros; apply IH; lia.
Qed.

(** Within any window the search with cut-offs agrees with the minimax
    value, as far as the window can tell. *)
Lemma minimax_agrees (fuel : nat) :
  forall b depth alpha beta isMax ep cr v,
    numLtb alpha beta = true ->
    minimaxValue fuel b depth isMax ep cr = Some v ->
    exists r, minimax fuel b depth alpha beta isMax ep cr = Some r
              /\ agreesInWindow alpha beta v r.
Proof.
  induction fuel as [|fuel IH]; intros b depth alpha beta isMax ep cr v Hlt.
  - discriminate.
  - rewrite minimax_unfold, minimaxValue_unfold.
    destruct (isTerminal b depth
              || (length (allMoves b (sideToMove isMax) ep cr) =? 0)%nat).
    + intros H; inversion H; subst v. eexists. split; [reflexivity|].
      generalize (Fin (evaluateBoard b)). intros x. clear H IH. num_order.
    + destruct isMax; intros H.
      * eapply (maxLoop_agrees
                  (fun nb a be => minimax fuel nb (depth - 1) a be false ep cr)
                  (fun nb => minimaxValue fuel nb (depth - 1) false ep cr));
          [ intros; apply IH; assumption | | | exact Hlt | exact H ];
          clear H IH; num_order.
      * eapply (minLoop_agrees
                  (fun nb a be => minimax fuel nb (depth - 1) a be true ep cr)
                  (fun nb => minimaxValue fuel nb (depth - 1) true ep cr));
          [ intros; apply IH; assumption | | | exact Hlt | exact H ];
          clear H IH; num_order.
Qed.

Lemma minimax_full_window (fuel : nat) (b : Board) (depth : Z) (isMax : bool)
    (ep : option Position) (cr : CastlingRights) (v : Num) :
  minimaxValue fuel b depth isMax ep cr = Some v ->
  minimax fuel b depth NegInf PosInf isMax ep cr = Some v.
Proof.
  intros H.
  destruct (minimax_agrees fuel b depth NegInf PosInf isMax ep cr v eq_refl H)
    as (r & Hr & Hag).
  rewrite Hr. f_equal. clear H Hr. num_order.
Qed.

(** X18: the cut-offs of [minimax] do not change its value: for a depth from 0
    up and enough budget the search without cut-offs returns a finite score,
    [minimax] called with the full window returns the same score, and called
    with any window of which the lower bound is below the upper one it
    returns that score when the score lies inside the window, and otherwise
    a score on the same side of the window. *)
Theorem cutoffs_keep_value (fuel : nat) (b : Board) (depth : Z) (isMax : bool)
    (ep : option Position) (cr : CastlingRights) :
  0 <= depth < Z.of_nat fuel ->
  exists z,
    minimaxValue fuel b depth isMax ep cr = Some (Fin z)
    /\ minimax fuel b depth NegInf PosInf isMax ep cr = Some (Fin z)
    /\ forall alpha beta,
         numLtb alpha beta = true ->
         exists r, minimax fuel b depth alpha beta isMax ep cr = Some r
                   /\ (numLtb alpha (Fin z) = true ->
                       numLtb (Fin z) beta = true -> r = Fin z)
                   /\ (numLeb (Fin z) alpha = true -> numLeb r alpha = true)
                   /\ (numLeb beta (Fin z) = true -> numLeb beta r = true).
Proof.
  intros Hd.
  destruct (minimaxValue_returns fuel b depth isMax ep cr Hd) as [v Hv].
  pose proof (minimax_full_window _ _ _ _ _ _ _ Hv) as Hfull.
  destruct (minimax_fin _ _ _ _ _ _ _ _ _ Hfull) as [z ->].
  exists z. split; [exact Hv|]. split; [exact Hfull|].
  intros alpha beta Hlt.
  exact (minimax_agrees fuel b depth alpha beta isMax ep cr (Fin z) Hlt Hv).
Qed.

(** ** The move the search chooses *)

Section BestMove.
Variable score : Board -> option Num.
Variable board : Board.

(** The root loop returns the first move whose score is the best of the
    list, or its running best move when no score beats the running best
    score. *)
Lemma bestLoop_first_best (isBlack : bool) (moves : list Move) :
  forall bestMove bestScore r,
    bestLoop score board isBlack moves bestMove bestScore = Some r ->
    (r = bestMove
     /\ forall m, In m moves ->
          exists s, score (applyMove (deepClone board) m) = Some s
                    /\ better isBlack s bestScore = false)
    \/ (exists before m after s,
          moves = before ++ m :: after /\ r = Some m
          /\ score (applyMove (deepClone board) m) = Some s
          /\ better isBlack s bestScore = true
          /\ (forall m', In m' before ->
                exists s', score (applyMove (deepClone board) m') = Some s'
                           /\ better isBlack s s' = true)
          /\ (forall m', In m' after ->
                exists s', score (applyMove (deepClone board) m') = Some s'
                           /\ better isBlack s' s = false)).
Proof.
  induction moves as [|m rest IH]; intros bestMove bestScore r;
    cbn [bestLoop]; cbv zeta.
  - intros H; inversion H; subst. left. split; [reflexivity | intros m []].
  - destruct (score (applyMove (deepClone board) m)) as [s|] eqn:Es;
      [|discriminate].
    assert (Hbody :
      (if better isBlack s bestScore
       then bestLoop score board isBlack rest (Some m) s
       else bestLoop score board isBlack rest bestMove bestScore) = Some r ->
      (r = bestMove
       /\ forall m0, In m0 (m :: rest) ->
            exists s0, score (applyMove (deepClone board) m0) = Some s0
                       /\ better isBlack s0 bestScore = false)
      \/ (exists before m0 after s0,
            m :: rest = before ++ m0 :: after /\ r = Some m0
            /\ score (applyMove (deepClone board) m0) = Some s0
            /\ better isBlack s0 bestScore = true
            /\ (forall m', In m' before ->
                  exists s', score (applyMove (deepClone board) m') = Some s'
                             /\ better isBlack s0 s' = true)
            /\ (forall m', In m' after ->
                  exists s', score (applyMove (deepClone board) m') = Some s'
                             /\ better isBlack s' s0 = false))).
    { destruct (better isBlack s bestScore) eqn:Eb; intros H;
        apply IH in H as [[-> Hall] | (before & m0 & after & s0 & -> & -> & Es0 & Hb0 & Hbef & Haft)].
      - right. exists [], m, rest, s. repeat split; auto. intros m' [].
      - right. exists (m :: before), m0, after, s0.
        repeat split; auto.
        + clear - Eb Hb0. destruct isBlack; num_order.
        + intros m' [<-|Hin]; [|auto]. exists s. split; [exact Es|]. exact Hb0.
      - left. split; [reflexivity|].
        intros m0 [<-|Hin]; [eauto | auto].
      - right. exists (m :: before), m0, after, s0.
        repeat split; auto.
        intros m' [<-|Hin]; [|auto]. exists s. split; [exact Es|].
        clear - Eb Hb0. destruct isBlack; num_order. }
    unfold better in Hbody at 1. destruct isBlack; exact Hbody.
Qed.
End BestMove.

(** X19: [findBestMove] chooses the first of the best moves: for a depth of at
    least 1, enough budget and a side with a legal move, it returns a legal
    move whose minimax value (that of the position after it, searched
    without cut-offs at depth minus one with the other side to move) is
    strictly better for the mover than the value of every legal move listed
    before it, and is not beaten by the value of any legal move listed after
    it. *)
Theorem findBestMove_first_best (fuel : nat) (b : Board) (depth : Z)
    (isBlack : bool) (ep : option Position) (cr : CastlingRights) :
  1 <= depth <= Z.of_nat fuel ->
  allMoves b (sideToMove isBlack) ep cr <> [] ->
  let value := fun m =>
    minimaxValue fuel (applyMove (deepClone b) m) (depth - 1) (negb isBlack) ep cr in
  exists before m after s,
    allMoves b (sideToMove isBlack) ep cr = before ++ m :: after
    /\ findBestMove fuel b depth isBlack ep cr = Some (Some m)
    /\ value m = Some s
    /\ (forall m', In m' before ->
          exists s', value m' = Some s' /\ better isBlack s s' = true)
    /\ (forall m', In m' after ->
          exists s', value m' = Some s' /\ better isBlack s' s = false).
Proof.
  intros Hd Hne value.
  assert (Hscore : forall nb,
            exists z, minimaxValue fuel nb (depth - 1) (negb isBlack) ep cr
                      = Some (Fin z)
                      /\ minimax fuel nb (depth - 1) NegInf PosInf (negb isBlack) ep cr
                         = Some (Fin z)).
  { intros nb.
    destruct (minimaxValue_returns fuel nb (depth - 1) (negb isBlack) ep cr)
      as [v Hv]; [lia|].
    pose proof (minimax_full_window _ _ _ _ _ _ _ Hv) as Hfull.
    destruct (minimax_fin _ _ _ _ _ _ _ _ _ Hfull) as [z ->]. eauto. }
  assert (Hsame : forall nb s,
            minimax fuel nb (depth - 1) NegInf PosInf (negb isBlack) ep cr = Some s ->
            minimaxValue fuel nb (depth - 1) (negb isBlack) ep cr = Some s).
  { intros nb s Hs. destruct (Hscore nb) as (z & Hz1 & Hz2). congruence. }
  destruct (bestLoop_returns
              (fun nb => minimax fuel nb (depth - 1) NegInf PosInf (negb isBlack) ep cr)
              b isBlack (allMoves b (sideToMove isBlack) ep cr) None
              (if isBlack then NegInf else PosInf)) as [r Hr].
  { intros nb. destruct (Hscore nb) as (z & _ & Hz). eauto. }
  assert (Hfind : findBestMove fuel b depth isBlack ep cr = Some r).
  { unfold findBestMove. cbv zeta. fold (sideToMove isBlack).
    destruct (length (allMoves b (sideToMove isBlack) ep cr) =? 0)%nat eqn:E.
    - apply length_eqb_nil in E. contradiction.
    - exact Hr. }
  apply bestLoop_first_best in Hr
    as [[-> Hall] | (before & m & after & s & Hsplit & -> & Es & _ & Hbef & Haft)].
  - exfalso. destruct (allMoves b (sideToMove isBlack) ep cr) as [|m rest];
      [congruence|].
    destruct (Hall m (or_introl eq_refl)) as (s & Hs & Hb).
    destruct (Hscore (applyMove (deepClone b) m)) as (z & _ & Hz).
    rewrite Hz in Hs. inversion Hs; subst s.
    destruct isBlack; discriminate.
  - exists before, m, after, s. split; [exact Hsplit|]. split; [exact Hfind|].
    split; [apply Hsame; exact Es|]. split.
    + intros m' Hin. destruct (Hbef m' Hin) as (s' & Hs' & Hb). eauto.
    + intros m' Hin. destruct (Haft m' Hin) as (s' & Hs' & Hb). eauto.
Qed.

(** ** Algebraic notation *)

Lemma includes_In (l : list string) (x : string) :
  includes l x = true -> In x l.
Proof.
  unfold includes. intros H. apply existsb_exists in H as (y & Hy & E).
  apply String.eqb_eq in E. subst. exact Hy.
Qed.

(** the name of a square and the square of a name: [coordsToAlgebraic]
    names exactly the squares of the grid, and [algebraicToCoords] reads each
    name back as its square. *)
Lemma coordsToAlgebraic_back (position : Position) :
  (isValidPosition position = false -> coordsToAlgebraic position = None)
  /\ (isValidPosition position = true ->
      exists name,
        coordsToAlgebraic position = Some name
        /\ String.length name = 2%nat
        /\ algebraicToCoords name = Some position).
Proof.
  split.
  - unfold isValidPosition, coordsToAlgebraic, BOARD_SIZE. cbv zeta.
    intros H.
    destruct (row position <? 0) eqn:E1; [reflexivity|].
    destruct (row position >=? 8) eqn:E2; [reflexivity|].
    destruct (col position <? 0) eqn:E3; [reflexivity|].
    destruct (col position >=? 8) eqn:E4; [reflexivity|].
    exfalso. apply Z.ltb_ge in E1, E3.
    rewrite Z.geb_leb in E2, E4. apply Z.leb_gt in E2, E4.
    assert (Hv : (0 <=? row position) && (row position <? 8)
                 && (0 <=? col position) && (col position <? 8) = true).
    { rewrite !andb_true_iff, !Z.leb_le, !Z.ltb_lt. lia. }
    congruence.
  - intros Hv. apply valid_in_positions in Hv.
    assert (Hall : forallb
              (fun p =>
                 match coordsToAlgebraic p with
                 | Some name =>
                     (String.length name =? 2)%nat
                     && match algebraicToCoords name with
                        | Some q => posEqb q p
                        | None => false
                        end
                 | None => false
                 end) positions = true) by (vm_compute; reflexivity).
    rewrite forallb_forall in Hall. specialize (Hall position Hv).
    destruct (coordsToAlgebraic position) as [name|]; [|discriminate].
    apply andb_true_iff in Hall as [Hlen Hback]. apply Nat.eqb_eq in Hlen.
    destruct (algebraicToCoords name) as [q|] eqn:Eq; [|discriminate].
    apply posEqb_true_iff in Hback. subst q.
    exists name. repeat split; assumption || reflexivity.
Qed.

(** only the sixty-four names are read: whenever [algebraicToCoords] returns
    a square, the square is on the grid and [coordsToAlgebraic] names it by
    the string read, its file letter made small. *)
Lemma algebraicToCoords_forth (algebraic : string) (position : Position) :
  algebraicToCoords algebraic = Some position ->
  isValidPosition position = true
  /\ coordsToAlgebraic position = Some (toLowerCase algebraic).
Proof.
  unfold algebraicToCoords.
  destruct algebraic as [|c1 [|c2 [|c3 rest]]]; try discriminate.
  cbn [String.length Nat.eqb orb negb charAt String.get toLowerCase].
  cbv zeta.
  destruct (includes FILES (String (toLowerCaseUnit c1) "")) eqn:Ef;
    [|discriminate].
  destruct (includes RANKS (String c2 "")) eqn:Er; [|discriminate].
  cbn [negb orb]. intros H. inversion H; subst position. clear H.
  apply includes_In in Ef, Er.
  assert (Hc2 : toLowerCaseUnit c2 = c2).
  { unfold RANKS in Er. simpl in Er.
    repeat (destruct Er as [Er|Er]; [inversion Er; reflexivity|]).
    destruct Er. }
  rewrite Hc2.
  generalize dependent (toLowerCaseUnit c1). intros f Ef. clear Hc2.
  unfold FILES in Ef. simpl in Ef. unfold RANKS in Er. simpl in Er.
  repeat (destruct Ef as [Ef|Ef]; [inversion Ef; clear Ef|]); [..|destruct Ef];
    repeat (destruct Er as [Er|Er]; [inversion Er; clear Er|]);
    try (destruct Er); split; vm_compute; reflexivity.
Qed.

(** X20: squares and their names: [coordsToAlgebraic] returns no name exactly
    off the grid, and names every square of the grid by two characters that
    [algebraicToCoords] reads back as that square; and whenever
    [algebraicToCoords] returns a square, the square is on the grid and
    [coordsToAlgebraic] names it by the string read, its file letter made
    small: only the sixty-four names, with a small or capital file letter,
    are read. *)
Theorem square_names_round_trip :
  (forall position,
     (isValidPosition position = false -> coordsToAlgebraic position = None)
     /\ (isValidPosition position = true ->
         exists name,
           coordsToAlgebraic position = Some name
           /\ String.length name = 2%nat
           /\ algebraicToCoords name = Some position))
  /\ (forall algebraic position,
        algebraicToCoords algebraic = Some position ->
        isValidPosition position = true
        /\ coordsToAlgebraic position = Some (toLowerCase algebraic)).
Proof.
  split.
  - exact coordsToAlgebraic_back.
  - exact algebraicToCoords_forth.
Qed.

(** ** Material after a move *)

Lemma evaluateMaterial_fold (b : Board) (l : list Position) (acc : Z) :
  fold_left
    (fun score pos =>
       match getCell b pos with
       | Some p =>
           let pieceValue := PIECE_VALUES (ptype p) in
           if colorEqb (color p) BLACK then score + pieceValue
           else score - pieceValue
       | None => score
       end) l acc
  = acc + sumOver (fun pos => pieceScore (getCell b pos)) l.
Proof.
  revert acc. induction l as [|pos l IH]; intros acc; cbn [fold_left sumOver fold_right].
  - lia.
  - rewrite IH. unfold sumOver, pieceScore.
    destruct (getCell b pos) as [p|]; cbv zeta;
      [destruct (colorEqb (color p) BLACK)|]; lia.
Qed.

Lemma evaluateMaterial_sum (b : Board) :
  evaluateMaterial b = sumOver (fun pos => pieceScore (getCell b pos)) positions.
Proof. unfold evaluateMaterial. rewrite evaluateMaterial_fold. lia. Qed.

Lemma sumOver_update (g : Position -> Z) (w : Position) (v : Z)
    (l : list Position) :
  sumOver (fun x => if posEqb x w then v else g x) l
  = sumOver g l
    + Z.of_nat (length (filter (fun x => posEqb x w) l)) * (v - g w).
Proof.
  induction l as [|a l IH]; cbn [sumOver fold_right filter length].
  - lia.
  - fold (sumOver (fun x => if posEqb x w then v else g x) l).
    fold (sumOver g l). rewrite IH.
    destruct (posEqb a w) eqn:E.
    + apply posEqb_true_iff in E. subst a. cbn [length].
      rewrite Nat2Z.inj_succ. lia.
    + lia.
Qed.

Lemma positions_once (w : Position) :
  isValidPosition w = true ->
  length (filter (fun x => posEqb x w) positions) = 1%nat.
Proof.
  intros Hv. apply valid_in_positions in Hv.
  assert (Hall : forallb
            (fun w => (length (filter (fun x => posEqb x w) positions) =? 1)%nat)
            positions = true) by (vm_compute; reflexivity).
  rewrite forallb_forall in Hall. apply Nat.eqb_eq. apply Hall. exact Hv.
Qed.

(** One write changes the material by what it puts in minus what it
    replaces. *)
Lemma evaluateMaterial_setCell (b : Board) (p : Position) (v : option Piece) :
  wf_board b = true -> isValidPosition p = true ->
  evaluateMaterial (setCell b p v)
  = evaluateMaterial b + pieceScore v - pieceScore (getCell b p).
Proof.
  intros Hwf Hp. rewrite !evaluateMaterial_sum.
  assert (E : sumOver (fun pos => pieceScore (getCell (setCell b p v) pos)) positions
              = sumOver (fun pos => if posEqb pos p then pieceScore v
                                    else pieceScore (getCell b pos)) positions).
  { generalize positions. intros l. induction l as [|a l IH];
      cbn [sumOver fold_right]; [reflexivity|].
    unfold sumOver in IH. rewrite IH. rewrite getCell_setCell by assumption.
    destruct (posEqb a p); reflexivity. }
  rewrite E, sumOver_update, positions_once by assumption. lia.
Qed.

(** X21: the material score follows the moves: a generated move, applied,
    changes [evaluateMaterial] in the mover's favour by exactly the value of
    the piece it records as captured plus, for a promotion, the value of the
    new piece over the pawn's; a move that neither captures nor promotes
    leaves the material as it is.  (For an en-passant capture the target
    square is empty, as it is after the two-square advance that creates the
    target.) *)
Theorem material_after_move (b : Board) (position : Position)
    (ep : option Position) (cr : CastlingRights) (m : Move) :
  wf_board b = true -> isValidPosition position = true ->
  In m (getPossibleMoves b position ep cr) ->
  (mtype m = EN_PASSANT -> getCell b (to m) = None) ->
  evaluateMaterial (applyMove b m)
  = evaluateMaterial b
    + scoreSign (color (piece m)) * (capturedValue m + promotionGain m).
Proof.
  intros Hwf Hv Hin Hep.
  destruct (generated_move_wellformed_aux b position ep cr m Hv Hin)
    as (Hfrom & Hcell & Hgrid & Hne).
  apply move_on_grid_parts in Hgrid as (Vf & Vt & Vrf & Vrt & Vcp).
  apply getPossibleMoves_shape in Hin as (p & Hcell' & Hshape).
  assert (Hsign : forall x : Piece,
            color x <> color p ->
            pieceScore (Some x) = - scoreSign (color p) * PIECE_VALUES (ptype x)).
  { intros x Hx. unfold pieceScore, scoreSign.
    destruct (color x), (color p); cbn [colorEqb]; try congruence; lia. }
  assert (Hown : forall t h,
            pieceScore (Some (mkPiece t (color p) h))
            = scoreSign (color p) * PIECE_VALUES t).
  { intros t h. unfold pieceScore, scoreSign. cbn [color ptype].
    destruct (color p); cbn [colorEqb]; lia. }
  assert (Hp : pieceScore (Some p) = scoreSign (color p) * PIECE_VALUES (ptype p)).
  { destruct p as [t c h]. apply Hown. }
  assert (Hwf1 : wf_board (setCell b position None) = true)
    by (apply wf_board_setCell; exact Hwf).
  destruct Hshape;
    cbn [from to piece mtype capturedPiece promotionPieceType castlingRookFrom
         castlingRookTo enPassantCapturePos simpleMove] in *;
    unfold applyMove, capturedValue, promotionGain;
    cbn [from to piece mtype capturedPiece promotionPieceType castlingRookFrom
         castlingRookTo enPassantCapturePos simpleMove
         isPromotionType isCastleType isEnPassantType];
    cbv zeta.
  - (* quiet move *)
    rewrite !evaluateMaterial_setCell by assumption.
    rewrite getCell_setCell_other by assumption.
    rewrite Hown, Hcell', Hp.
    match goal with H : getCell b t = None |- _ => rewrite H end.
    cbn [pieceScore]. lia.
  - (* capture *)
    rewrite !evaluateMaterial_setCell by assumption.
    rewrite getCell_setCell_other by assumption.
    rewrite Hown, Hcell', Hp.
    match goal with H : getCell b t = Some x |- _ => rewrite H end.
    rewrite Hsign by assumption. cbn [pieceScore]. lia.
  - (* promotion *)
    rewrite !evaluateMaterial_setCell by assumption.
    rewrite getCell_setCell_other by assumption.
    rewrite Hown, Hcell', Hp.
    match goal with H : getCell b t = None |- _ => rewrite H end.
    match goal with H : ptype p = PAWN |- _ => rewrite H end.
    cbn [pieceScore]. lia.
  - (* capture and promotion *)
    rewrite !evaluateMaterial_setCell by assumption.
    rewrite getCell_setCell_other by assumption.
    rewrite Hown, Hcell', Hp.
    match goal with H : getCell b t = Some x |- _ => rewrite H end.
    match goal with H : ptype p = PAWN |- _ => rewrite H end.
    rewrite Hsign by assumption. cbn [pieceScore]. lia.
  - (* en passant *)
    subst e. cbn [validOpt] in Vcp.
    match goal with H : row t = _ |- _ => rename H into Hrow end.
    match goal with H : _ \/ _ |- _ => rename H into Hcol end.
    assert (Dir : pawnDirection (color p) <> 0) by (destruct (color p); simpl; lia).
    assert (N1 : mkPos (row position) (col t) <> t).
    { intros E. rewrite <- E in Hrow. simpl in Hrow. lia. }
    assert (N2 : mkPos (row position) (col t) <> position).
    { intros E. rewrite <- E in Hcol. simpl in Hcol. lia. }
    rewrite !evaluateMaterial_setCell
      by (repeat apply wf_board_setCell; assumption).
    rewrite !getCell_setCell_other by assumption.
    rewrite Hown, Hcell', Hp, (Hep eq_refl).
    match goal with H : getCell b (mkPos _ _) = Some capturedPawn |- _ => rewrite H end.
    rewrite Hsign by assumption. cbn [pieceScore]. lia.
  - (* king-side castling *)
    match goal with
    | H : isCastlingRook _ _ = true |- _ =>
        apply isCastlingRook_inv in H as (rook & Hrook & Rt & Rc & Rm)
    end.
    cbn [validOpt] in Vrf, Vrt.
    assert (N7 : mkPos (kingRankOf (color p)) 7 <> mkPos (kingRankOf (color p)) 6)
      by (intros E; inversion E).
    assert (N7' : mkPos (kingRankOf (color p)) 7 <> position).
    { intros E. rewrite <- E in Hcell'. rewrite Hcell' in Hrook.
      inversion Hrook; subst rook. congruence. }
    assert (N5 : mkPos (kingRankOf (color p)) 5 <> mkPos (kingRankOf (color p)) 7)
      by (intros E; inversion E).
    assert (N5' : mkPos (kingRankOf (color p)) 5 <> mkPos (kingRankOf (color p)) 6)
      by (intros E; inversion E).
    assert (N5'' : mkPos (kingRankOf (color p)) 5 <> position)
      by (intros E; rewrite <- E in Hcell'; congruence).
    rewrite !getCell_setCell_other by assumption. rewrite Hrook.
    rewrite !evaluateMaterial_setCell
      by (repeat apply wf_board_setCell; assumption).
    rewrite !getCell_setCell_other by assumption.
    rewrite Hrook, Hcell', Hp.
    repeat match goal with H : getCell b (mkPos _ _) = None |- _ => rewrite H; clear H end.
    rewrite Rc, !Hown. destruct rook as [rt rc rm]. cbn [ptype color] in *.
    subst rc. rewrite Hown. cbn [pieceScore]. lia.
  - (* queen-side castling *)
    match goal with
    | H : isCastlingRook _ _ = true |- _ =>
        apply isCastlingRook_inv in H as (rook & Hrook & Rt & Rc & Rm)
    end.
    cbn [validOpt] in Vrf, Vrt.
    assert (N0 : mkPos (kingRankOf (color p)) 0 <> mkPos (kingRankOf (color p)) 2)
      by (intros E; inversion E).
    assert (N0' : mkPos (kingRankOf (color p)) 0 <> position).
    { intros E. rewrite <- E in Hcell'. rewrite Hcell' in Hrook.
      inversion Hrook; subst rook. congruence. }
    assert (N3 : mkPos (kingRankOf (color p)) 3 <> mkPos (kingRankOf (color p)) 0)
      by (intros E; inversion E).
    assert (N3' : mkPos (kingRankOf (color p)) 3 <> mkPos (kingRankOf (color p)) 2)
      by (intros E; inversion E).
    assert (N3'' : mkPos (kingRankOf (color p)) 3 <> position)
      by (intros E; rewrite <- E in Hcell'; congruence).
    rewrite !getCell_setCell_other by assumption. rewrite Hrook.
    rewrite !evaluateMaterial_setCell
      by (repeat apply wf_board_setCell; assumption).
    rewrite !getCell_setCell_other by assumption.
    rewrite Hrook, Hcell', Hp.
    repeat match goal with H : getCell b (mkPos _ _) = None |- _ => rewrite H; clear H end.
    rewrite Rc, !Hown. destruct rook as [rt rc rm]. cbn [ptype color] in *.
    subst rc. rewrite Hown. cbn [pieceScore]. lia.
Qed.

(** ** FEN *)

(** The source's initial position, parsed, is the initial board with white
    to move, all castling rights and no en-passant target. *)
Example parseFEN_initial :
  parseFEN INITIAL_POSITION
  = Some (mkFEN initialBoard WHITE defaultCastlingRights None).
Proof. vm_compute. reflexivity. Qed.

Lemma append_assoc (a c d : string) :
  ((a ++ c) ++ d = a ++ (c ++ d))%string.
Proof. induction a as [|x a IH]; simpl; [reflexivity | rewrite IH; reflexivity]. Qed.

Lemma append_empty_r (a : string) : (a ++ EmptyString = a)%string.
Proof. induction a as [|x a IH]; simpl; [reflexivity | rewrite IH; reflexivity]. Qed.

(** *** What [boardToFEN] writes for a row *)

Lemma emitCell_fold (b : Board) (i : Z) (js : list Z) :
  forall fen k,
    0 <= k ->
    (if 0 <? snd (fold_left (emitCell b i) js (fen, k))
     then (fst (fold_left (emitCell b i) js (fen, k))
           ++ digitString (snd (fold_left (emitCell b i) js (fen, k))))%string
     else fst (fold_left (emitCell b i) js (fen, k)))
    = (fen ++ rowText k (map (fun j => getCell b (mkPos i j)) js))%string.
Proof.
  induction js as [|j js IH]; intros fen k Hk; cbn [fold_left map rowText fst snd].
  - destruct (0 <? k); [reflexivity | rewrite append_empty_r; reflexivity].
  - assert (Estep :
      emitCell b i (fen, k) j
      = match getCell b (mkPos i j) with
        | None => (fen, k + 1)
        | Some piece =>
            (String.append
               (if 0 <? k then String.append fen (digitString k) else fen)
               (String (pieceChar piece) EmptyString),
             if 0 <? k then 0 else k)
        end).
    { unfold emitCell. cbv zeta. cbn [fst snd].
      destruct (getCell b (mkPos i j)); [|reflexivity].
      destruct (0 <? k); reflexivity. }
    rewrite Estep. clear Estep.
    destruct (getCell b (mkPos i j)) as [p|].
    + destruct (0 <? k) eqn:Ek.
      * rewrite IH by lia. rewrite !append_assoc. reflexivity.
      * apply Z.ltb_ge in Ek. assert (k = 0) by lia. subst k.
        rewrite IH by lia. rewrite append_assoc. reflexivity.
    + rewrite IH by lia. reflexivity.
Qed.

Lemma emitRow_text (b : Board) (fen : string) (i : Z) :
  emitRow b fen i
  = String.append fen
      (String.append (rowText 0 (cellsOf b i))
         (if i <? BOARD_SIZE - 1 then "/"%string else EmptyString)).
Proof.
  unfold emitRow. cbv zeta. rewrite emitCell_fold by lia. fold (cellsOf b i).
  destruct (i <? BOARD_SIZE - 1).
  - rewrite append_assoc. reflexivity.
  - rewrite append_empty_r. reflexivity.
Qed.

(** *** Splitting at a separator *)

Lemma splitOn_app (sep : ascii) (a rest : string) :
  noUnit sep a = true ->
  splitOn sep (a ++ String sep rest) = a :: splitOn sep rest.
Proof.
  induction a as [|c a IH]; cbn [noUnit append splitOn].
  - intros _. rewrite Ascii.eqb_refl. reflexivity.
  - intros H. apply andb_true_iff in H as [Hc Ha]. apply negb_true_iff in Hc.
    rewrite Hc, (IH Ha). reflexivity.
Qed.

Lemma splitOn_last (sep : ascii) (a : string) :
  noUnit sep a = true -> splitOn sep a = [a].
Proof.
  induction a as [|c a IH]; cbn [noUnit splitOn].
  - reflexivity.
  - intros H. apply andb_true_iff in H as [Hc Ha]. apply negb_true_iff in Hc.
    rewrite Hc, (IH Ha). reflexivity.
Qed.

Lemma noUnit_app (sep : ascii) (a c : string) :
  noUnit sep (a ++ c) = noUnit sep a && noUnit sep c.
Proof.
  induction a as [|x a IH]; cbn [append noUnit]; [reflexivity|].
  rewrite IH, andb_assoc. reflexivity.
Qed.

(** *** Reading a row back *)

Lemma parseUnits_app (s1 s2 : string)
    (st : option (list (option Piece) * option Z)) :
  parseUnits (s1 ++ s2) st = parseUnits s2 (parseUnits s1 st).
Proof.
  revert st. induction s1 as [|c s1 IH]; intros st; cbn [append parseUnits];
    [reflexivity | apply IH].
Qed.

Lemma parseUnits_digit (k : nat) (cells : list (option Piece)) (c : Z) :
  (1 <= k <= 8)%nat ->
  parseUnits (digitString (Z.of_nat k)) (Some (cells, Some c))
  = Some (cells, Some (c + Z.of_nat k)).
Proof.
  intros Hk.
  do 9 (destruct k as [|k]; [first [lia | reflexivity]|]). lia.
Qed.

Lemma parseUnit_piece (p : Piece) (cells : list (option Piece)) (c : Z) :
  parseUnit (Some (cells, Some c)) (pieceChar p)
  = if c <? BOARD_SIZE
    then Some (setNth (Z.to_nat c) (Some (unmoved p)) cells, Some (c + 1))
    else None.
Proof. destruct p as [t col h]; destruct t, col; reflexivity. Qed.

Lemma setNth_app_middle {A : Type} (pre : list A) (x y : A) (rest : list A) :
  setNth (length pre) x (pre ++ y :: rest) = pre ++ x :: rest.
Proof. induction pre as [|a pre IH]; simpl; [reflexivity | rewrite IH; reflexivity]. Qed.

Lemma repeat_snoc {A : Type} (x : A) (k : nat) :
  repeat x (S k) = repeat x k ++ [x].
Proof. induction k as [|k IH]; simpl; [reflexivity | rewrite <- IH; reflexivity]. Qed.

Lemma parse_rowText (cells : list (option Piece)) :
  forall (pre : list (option Piece)) (k : nat),
    (length pre + k + length cells <= 8)%nat ->
    parseUnits (rowText (Z.of_nat k) cells)
      (Some (pre ++ repeat None k ++ repeat None (length cells),
             Some (Z.of_nat (length pre))))
    = Some (pre ++ repeat None k ++ map (option_map unmoved) cells,
            Some (Z.of_nat (length pre + k + length cells))).
Proof.
  assert (Hdigit : forall (k : nat) (row : list (option Piece)) (c : Z),
            (k <= 8)%nat ->
            parseUnits (if 0 <? Z.of_nat k then digitString (Z.of_nat k)
                        else EmptyString) (Some (row, Some c))
            = Some (row, Some (c + Z.of_nat k))).
  { intros k row c Hk. destruct k as [|k].
    - cbn [parseUnits Z.of_nat Z.ltb Z.compare]. rewrite Z.add_0_r. reflexivity.
    - replace (0 <? Z.of_nat (S k)) with true by (symmetry; apply Z.ltb_lt; lia).
      apply parseUnits_digit. lia. }
  induction cells as [|cell rest IH]; intros pre k Hlen;
    cbn [rowText length repeat map] in *.
  - rewrite Hdigit by lia. rewrite Nat.add_0_r, Nat2Z.inj_add. reflexivity.
  - destruct cell as [p|]; cbn [option_map].
    + rewrite parseUnits_app, Hdigit by lia.
      cbn [parseUnits]. rewrite parseUnit_piece.
      replace (Z.of_nat (length pre) + Z.of_nat k <? BOARD_SIZE) with true
        by (symmetry; apply Z.ltb_lt; unfold BOARD_SIZE; lia).
      rewrite !(app_assoc pre (repeat None k)).
      assert (Hpre : length (pre ++ repeat None k) = (length pre + k)%nat)
        by (rewrite length_app, repeat_length; reflexivity).
      replace (Z.to_nat (Z.of_nat (length pre) + Z.of_nat k))
        with (length (pre ++ repeat None k)) by lia.
      replace (Z.of_nat (length pre) + Z.of_nat k + 1)
        with (Z.of_nat (length ((pre ++ repeat None k) ++ [Some (unmoved p)])))
        by (rewrite !length_app, repeat_length; cbn [length]; lia).
      replace (length pre + k + S (length rest))%nat
        with (length ((pre ++ repeat None k) ++ [Some (unmoved p)])
              + 0 + length rest)%nat
        by (rewrite !length_app, repeat_length; cbn [length]; lia).
      generalize dependent (pre ++ repeat None k). intros pre' Hpre.
      rewrite setNth_app_middle.
      specialize (IH (pre' ++ [Some (unmoved p)]) 0%nat).
      cbn [repeat app Z.of_nat] in IH.
      rewrite <- !app_assoc in IH. cbn [app] in IH.
      apply IH. rewrite length_app. cbn [length]. lia.
    + replace (Z.of_nat k + 1) with (Z.of_nat (S k)) by lia.
      specialize (IH pre (S k)).
      rewrite repeat_snoc, <- !app_assoc in IH. cbn [app] in IH.
      rewrite IH by lia.
      replace (length pre + S k + length rest)%nat
        with (length pre + k + S (length rest))%nat by lia.
      reflexivity.
Qed.

Lemma parseRow_rowText (cells : list (option Piece)) :
  length cells = 8%nat ->
  parseRow (Some (rowText 0 cells)) = Some (map (option_map unmoved) cells).
Proof.
  intros Hlen. unfold parseRow, emptyRow.
  pose proof (parse_rowText cells [] 0%nat) as H.
  cbn [length repeat app Z.of_nat Nat.add] in H. rewrite Hlen in H.
  rewrite H by lia. reflexivity.
Qed.
Lemma pieceChar_not_sep (sep : ascii) (p : Piece) :
  sep = "/"%char \/ sep = " "%char -> Ascii.eqb (pieceChar p) sep = false.
Proof.
  intros [-> | ->]; destruct p as [t c h]; destruct t, c; reflexivity.
Qed.

Lemma digit_noUnit (sep : ascii) (k : nat) :
  sep = "/"%char \/ sep = " "%char -> (k <= 8)%nat ->
  noUnit sep (if 0 <? Z.of_nat k then digitString (Z.of_nat k) else EmptyString)
  = true.
Proof.
  intros Hsep Hk.
  do 9 (destruct k as [|k]; [destruct Hsep as [-> | ->]; reflexivity|]). lia.
Qed.

Lemma rowText_noUnit (sep : ascii) (cells : list (option Piece)) :
  sep = "/"%char \/ sep = " "%char ->
  forall k : nat,
    (k + length cells <= 8)%nat ->
    noUnit sep (rowText (Z.of_nat k) cells) = true.
Proof.
  intros Hsep. induction cells as [|cell rest IH]; intros k Hk;
    cbn [rowText length] in *.
  - apply digit_noUnit; [exact Hsep | lia].
  - destruct cell as [p|].
    + rewrite noUnit_app, digit_noUnit by (auto || lia).
      cbn [noUnit andb]. rewrite pieceChar_not_sep by exact Hsep.
      cbn [negb andb]. apply (IH 0%nat). lia.
    + replace (Z.of_nat k + 1) with (Z.of_nat (S k)) by lia.
      apply IH. lia.
Qed.

(** *** The board field *)

Lemma list_of_eight {A : Type} (l : list A) :
  length l = 8%nat ->
  exists a0 a1 a2 a3 a4 a5 a6 a7, l = [a0; a1; a2; a3; a4; a5; a6; a7].
Proof.
  intros H.
  do 8 (destruct l as [|? l]; [discriminate H|]).
  destruct l; [|discriminate H]. repeat eexists.
Qed.

Lemma wf_board_cells (b : Board) :
  wf_board b = true -> b = map (cellsOf b) indices.
Proof.
  intros Hwf. apply wf_board_rows in Hwf as [Hlen Hrows].
  destruct (list_of_eight b Hlen) as (r0 & r1 & r2 & r3 & r4 & r5 & r6 & r7 & ->).
  assert (H : forall r, In r [r0; r1; r2; r3; r4; r5; r6; r7] ->
              exists a0 a1 a2 a3 a4 a5 a6 a7, r = [a0; a1; a2; a3; a4; a5; a6; a7])
    by (intros r Hr; apply list_of_eight, Hrows, Hr).
  destruct (H r0) as (? & ? & ? & ? & ? & ? & ? & ? & ->); [simpl; tauto|].
  destruct (H r1) as (? & ? & ? & ? & ? & ? & ? & ? & ->); [simpl; tauto|].
  destruct (H r2) as (? & ? & ? & ? & ? & ? & ? & ? & ->); [simpl; tauto|].
  destruct (H r3) as (? & ? & ? & ? & ? & ? & ? & ? & ->); [simpl; tauto|].
  destruct (H r4) as (? & ? & ? & ? & ? & ? & ? & ? & ->); [simpl; tauto|].
  destruct (H r5) as (? & ? & ? & ? & ? & ? & ? & ? & ->); [simpl; tauto|].
  destruct (H r6) as (? & ? & ? & ? & ? & ? & ? & ? & ->); [simpl; tauto|].
  destruct (H r7) as (? & ? & ? & ? & ? & ? & ? & ? & ->); [simpl; tauto|].
  reflexivity.
Qed.

Lemma cellsOf_length (b : Board) (i : Z) : length (cellsOf b i) = 8%nat.
Proof. reflexivity. Qed.

Lemma emitRow_inner (b : Board) (fen : string) (i : Z) :
  i < 7 ->
  emitRow b fen i = String.append fen (String.append (rowText 0 (cellsOf b i)) "/").
Proof.
  intros Hi. rewrite emitRow_text.
  replace (i <? BOARD_SIZE - 1) with true
    by (symmetry; apply Z.ltb_lt; unfold BOARD_SIZE; lia).
  reflexivity.
Qed.

(** The board field is the row texts, top row first, with slashes between
    them. *)
Lemma boardField_rows (b : Board) :
  fold_left (emitRow b) indices EmptyString
  = fold_right (fun i rest =>
                  String.append (rowText 0 (cellsOf b i)) (String "/" rest))
      (rowText 0 (cellsOf b 7)) [0; 1; 2; 3; 4; 5; 6].
Proof.
  unfold indices. cbn [fold_left fold_right].
  rewrite (emitRow_text b _ 7).
  replace (7 <? BOARD_SIZE - 1) with false by reflexivity.
  rewrite !emitRow_inner by lia.
  rewrite append_empty_r, !append_assoc. reflexivity.
Qed.

Lemma boardField_noSpace (b : Board) :
  noUnit " " (fold_left (emitRow b) indices EmptyString) = true.
Proof.
  rewrite boardField_rows. cbn [fold_right].
  assert (H : forall i, noUnit " " (rowText 0 (cellsOf b i)) = true).
  { intros i. apply (rowText_noUnit " " (cellsOf b i) (or_intror eq_refl) 0%nat).
    rewrite cellsOf_length. lia. }
  repeat (rewrite noUnit_app, H; cbn [noUnit andb Ascii.eqb Bool.eqb negb]).
  apply H.
Qed.

Lemma parseBoard_rows (r0 r1 r2 r3 r4 r5 r6 r7 : string)
    (c0 c1 c2 c3 c4 c5 c6 c7 : list (option Piece)) :
  parseRow (Some r0) = Some c0 -> parseRow (Some r1) = Some c1 ->
  parseRow (Some r2) = Some c2 -> parseRow (Some r3) = Some c3 ->
  parseRow (Some r4) = Some c4 -> parseRow (Some r5) = Some c5 ->
  parseRow (Some r6) = Some c6 -> parseRow (Some r7) = Some c7 ->
  fold_right
    (fun i acc =>
       match parseRow (nth_error [r0; r1; r2; r3; r4; r5; r6; r7] (Z.to_nat i)), acc with
       | Some cells, Some below => Some (cells :: below)
       | _, _ => None
       end)
    (Some []) indices
  = Some [c0; c1; c2; c3; c4; c5; c6; c7].
Proof.
  intros H0 H1 H2 H3 H4 H5 H6 H7. unfold indices. cbn [fold_right].
  change (Z.to_nat 0) with 0%nat. change (Z.to_nat 1) with 1%nat.
  change (Z.to_nat 2) with 2%nat. change (Z.to_nat 3) with 3%nat.
  change (Z.to_nat 4) with 4%nat. change (Z.to_nat 5) with 5%nat.
  change (Z.to_nat 6) with 6%nat. change (Z.to_nat 7) with 7%nat.
  cbn [nth_error]. rewrite H0, H1, H2, H3, H4, H5, H6, H7. reflexivity.
Qed.

Lemma parseBoard_boardField (b : Board) :
  wf_board b = true ->
  parseBoard (fold_left (emitRow b) indices EmptyString)
  = Some (map (map (option_map unmoved)) b).
Proof.
  intros Hwf. unfold parseBoard. cbv zeta. rewrite boardField_rows.
  cbn [fold_right].
  assert (Hslash : forall i, noUnit "/" (rowText 0 (cellsOf b i)) = true).
  { intros i. apply (rowText_noUnit "/" (cellsOf b i) (or_introl eq_refl) 0%nat).
    rewrite cellsOf_length. lia. }
  rewrite !splitOn_app by apply Hslash. rewrite splitOn_last by apply Hslash.
  rewrite (parseBoard_rows _ _ _ _ _ _ _ _
             (map (option_map unmoved) (cellsOf b 0))
             (map (option_map unmoved) (cellsOf b 1))
             (map (option_map unmoved) (cellsOf b 2))
             (map (option_map unmoved) (cellsOf b 3))
             (map (option_map unmoved) (cellsOf b 4))
             (map (option_map unmoved) (cellsOf b 5))
             (map (option_map unmoved) (cellsOf b 6))
             (map (option_map unmoved) (cellsOf b 7)))
    by (apply parseRow_rowText, cellsOf_length).
  rewrite (wf_board_cells b Hwf) at 9. reflexivity.
Qed.
(** *** The fields *)

Lemma square_name (p : Position) :
  isValidPosition p = true ->
  exists name,
    coordsToAlgebraic p = Some name
    /\ noUnit " " name = true
    /\ String.eqb name "-" = false
    /\ algebraicToCoords name = Some p.
Proof.
  intros Hv. apply valid_in_positions in Hv.
  assert (Hall : forallb
            (fun p =>
               match coordsToAlgebraic p with
               | Some name =>
                   noUnit " " name && negb (String.eqb name "-")
                   && match algebraicToCoords name with
                      | Some q => posEqb q p
                      | None => false
                      end
               | None => false
               end) positions = true) by (vm_compute; reflexivity).
  rewrite forallb_forall in Hall. specialize (Hall p Hv).
  destruct (coordsToAlgebraic p) as [name|]; [|discriminate].
  apply andb_true_iff in Hall as [Hall Hback].
  apply andb_true_iff in Hall as [Hspace Hdash].
  apply negb_true_iff in Hdash.
  destruct (algebraicToCoords name) as [q|] eqn:Eq; [|discriminate].
  apply posEqb_true_iff in Hback. subst q.
  exists name. repeat split; assumption || reflexivity.
Qed.

Lemma parseFEN_fields (boardPart part1 part2 part3 clocks : string)
    (board : Board) :
  noUnit " " boardPart = true -> noUnit " " part1 = true ->
  noUnit " " part2 = true -> noUnit " " part3 = true ->
  parseBoard boardPart = Some board ->
  parseFEN ((((boardPart ++ " " ++ part1) ++ " " ++ part2) ++ " " ++ part3)
            ++ " " ++ clocks)%string
  = Some (mkFEN board
            (if String.eqb part1 "w" then WHITE else BLACK)
            (mkCastling
               (Some (mkRights (includesUnit part2 "K") (includesUnit part2 "Q")))
               (Some (mkRights (includesUnit part2 "k") (includesUnit part2 "q"))))
            (if String.eqb part3 "-" then None else algebraicToCoords part3)).
Proof.
  intros H0 H1 H2 H3 Hboard. unfold parseFEN. cbv zeta.
  assert (E : splitOn " "
                ((((boardPart ++ " " ++ part1) ++ " " ++ part2) ++ " " ++ part3)
                 ++ " " ++ clocks)%string
              = boardPart :: part1 :: part2 :: part3 :: splitOn " " clocks).
  { rewrite !append_assoc. cbn [append].
    rewrite !splitOn_app by assumption. reflexivity. }
  rewrite E. cbn [nth nth_error]. rewrite Hboard. reflexivity.
Qed.

(** X22: writing a position as FEN and reading it back gives the position
    again, every piece without its [hasMoved] flag: for a board of the grid
    shape, castling rights with an entry for each colour and an en-passant
    target that, if any, is a square of the grid, [boardToFEN] returns a
    string, whatever the clocks, and [parseFEN] reads from it the same
    cells with [hasMoved] false, the same side to move, the same castling
    rights and the same en-passant target. *)
Theorem fen_round_trip (gameState : FENState) (clocks : string) :
  wf_board (fenBoard gameState) = true ->
  rightsWhite (fenCastlingRights gameState) <> None ->
  rightsBlack (fenCastlingRights gameState) <> None ->
  validOpt (fenEnPassantTarget gameState) = true ->
  exists fen,
    boardToFEN gameState clocks = Some fen
    /\ parseFEN fen
       = Some (mkFEN (map (map (option_map unmoved)) (fenBoard gameState))
                 (fenActiveColor gameState) (fenCastlingRights gameState)
                 (fenEnPassantTarget gameState)).
Proof.
  destruct gameState as [b c [[[wk wq]|] [[bk bq]|]] ep];
    cbn [fenBoard fenActiveColor fenCastlingRights fenEnPassantTarget
         rightsWhite rightsBlack];
    intros Hwf Hw Hb Hep; try congruence.
  unfold boardToFEN. cbv zeta.
  cbn [fenBoard fenActiveColor fenCastlingRights fenEnPassantTarget
       rightsOf rightsWhite rightsBlack kingSide queenSide].
  eexists. split; [reflexivity|].
  assert (Hname : exists part3,
            match ep with
            | Some target =>
                match coordsToAlgebraic target with
                | Some name => name
                | None => "null"%string
                end
            | None => "-"%string
            end = part3
            /\ noUnit " " part3 = true
            /\ (if String.eqb part3 "-" then None else algebraicToCoords part3) = ep).
  { destruct ep as [p|].
    - cbn [validOpt] in Hep.
      destruct (square_name p Hep) as (name & -> & Hs & Hd & Hback).
      exists name. rewrite Hd. auto.
    - exists "-"%string. auto. }
  destruct Hname as (part3 & -> & Hspace3 & Hback).
  rewrite (parseFEN_fields _ _ _ _ _ (map (map (option_map unmoved)) b)).
  - rewrite Hback. f_equal. f_equal.
    + destruct c; reflexivity.
    + destruct wk, wq, bk, bq; reflexivity.
  - apply boardField_noSpace.
  - destruct c; reflexivity.
  - destruct wk, wq, bk, bq; reflexivity.
  - exact Hspace3.
  - apply parseBoard_boardField. exact Hwf.
Qed.
(** The initial position, written, is the source's [INITIAL_POSITION]. *)
Example boardToFEN_initial :
  boardToFEN (mkFEN initialBoard WHITE defaultCastlingRights None) "0 1"
  = Some INITIAL_POSITION.
Proof. vm_compute. reflexivity. Qed.

(** ** Check *)

Lemma find_first {A : Type} (f : A -> bool) (l : list A) (x : A) :
  find f l = Some x ->
  f x = true
  /\ exists before after,
       l = before ++ x :: after /\ forall y, In y before -> f y = false.
Proof.
  induction l as [|a l IH]; cbn [find]; [discriminate|].
  destruct (f a) eqn:Ea.
  - intros H; inversion H; subst a. split; [exact Ea|].
    exists [], l. split; [reflexivity | intros y []].
  - intros H. destruct (IH H) as (Hx & before & after & -> & Hbefore).
    split; [exact Hx|]. exists (a :: before), after. split; [reflexivity|].
    intros y [<-|Hy]; auto.
Qed.

(** X23: [isKingInCheck] is true exactly when the king of the colour - the first
    one in row-major order, if the board has several - stands on the
    destination of a move generated for a piece of the other colour (with no
    en-passant target and the default castling rights). *)
Theorem isKingInCheck_exact (b : Board) (kingColor : PieceColor) :
  wf_board b = true ->
  (isKingInCheck b kingColor = true <->
   exists kingPosition,
     findKing b kingColor = Some kingPosition
     /\ exists pos p m,
          isValidPosition pos = true /\ getCell b pos = Some p
          /\ color p = opponent kingColor
          /\ In m (getPossibleMoves b pos None defaultCastlingRights)
          /\ to m = kingPosition)
  /\ (forall kingPosition,
        findKing b kingColor = Some kingPosition ->
        isValidPosition kingPosition = true
        /\ (exists king, getCell b kingPosition = Some king
                         /\ ptype king = KING /\ color king = kingColor)
        /\ exists before after,
             positions = before ++ kingPosition :: after
             /\ forall pos, In pos before -> isKingOf kingColor (getCell b pos) = false).
Proof.
  intros _. split.
  - unfold isKingInCheck. destruct (findKing b kingColor) as [kp|].
    + rewrite existsb_exists. split.
      * intros (pos & Hpos & Hatt). exists kp. split; [reflexivity|].
        unfold attacks in Hatt.
        destruct (getCell b pos) as [p|] eqn:Ep; [|discriminate].
        apply andb_true_iff in Hatt as [Hc Hm].
        apply colorEqb_true_iff in Hc.
        apply existsb_exists in Hm as (m & Hin & Hto).
        apply posEqb_true_iff in Hto.
        exists pos, p, m. repeat split; auto using positions_valid.
      * intros (kp' & Hkp & pos & p & m & Hv & Hp & Hc & Hin & Hto).
        assert (E : kp = kp') by congruence. rewrite <- E in Hto. exists pos. split; [apply valid_in_positions; exact Hv|].
        unfold attacks. rewrite Hp. apply andb_true_iff. split.
        -- apply colorEqb_true_iff. exact Hc.
        -- apply existsb_exists. exists m. split; [exact Hin|].
           apply posEqb_true_iff. exact Hto.
    + split; [discriminate | intros (kp & Hkp & _); discriminate].
  - intros kp Hkp. unfold findKing in Hkp.
    pose proof (find_some _ _ Hkp) as [Hin _].
    apply find_first in Hkp as (Hking & before & after & Hsplit & Hbefore).
    split; [apply positions_valid; exact Hin|]. split.
    + unfold isKingOf in Hking. destruct (getCell b kp) as [king|]; [|discriminate].
      apply andb_true_iff in Hking as [Ht Hc].
      apply typeEqb_true_iff in Ht. apply colorEqb_true_iff in Hc.
      exists king. auto.
    + exists before, after. split; [exact Hsplit | exact Hbefore].
Qed.

(** ** Where knights, kings and pawns can go *)

Lemma stepMoves_dest (b : Board) (position : Position) (p : Piece)
    (d : Direction) (t : Position) :
  (exists m, In m (stepMoves b position p d) /\ to m = t)
  <-> t = mkPos (row position + drow d) (col position + dcol d)
      /\ isValidPosition t = true
      /\ forall x, getCell b t = Some x -> color x <> color p.
Proof.
  unfold stepMoves. cbv zeta.
  set (newPos := mkPos (row position + drow d) (col position + dcol d)).
  split.
  - intros (m & Hin & <-).
    destruct (isValidPosition newPos) eqn:Ev; [|destruct Hin].
    destruct (getCell b newPos) as [x|] eqn:Ex.
    + destruct (colorEqb (color x) (color p)) eqn:Ec; [destruct Hin|].
      destruct Hin as [<-|[]]. cbn [to simpleMove].
      split; [reflexivity|]. split; [exact Ev|].
      intros y Hy. rewrite Ex in Hy. inversion Hy; subst y.
      apply colorEqb_false_iff. exact Ec.
    + destruct Hin as [<-|[]]. cbn [to simpleMove].
      split; [reflexivity|]. split; [exact Ev|].
      intros y Hy. rewrite Ex in Hy. discriminate.
  - intros (-> & Hv & Hx). rewrite Hv.
    destruct (getCell b newPos) as [x|] eqn:Ex.
    + assert (Ec : colorEqb (color x) (color p) = false)
        by (apply colorEqb_false_iff, Hx; reflexivity).
      rewrite Ec. cbn [negb]. eexists. split; [left; reflexivity | reflexivity].
    + eexists. split; [left; reflexivity | reflexivity].
Qed.

Lemma stepMoves_type (b : Board) (position : Position) (p : Piece)
    (d : Direction) (m : Move) :
  In m (stepMoves b position p d) -> isCastleType (mtype m) = false.
Proof.
  unfold stepMoves. cbv zeta.
  destruct (isValidPosition _); [|intros []].
  destruct (getCell b _) as [x|].
  - destruct (negb _); [|intros []]. intros [<-|[]]. reflexivity.
  - intros [<-|[]]. reflexivity.
Qed.

Lemma castlingMoves_type (b : Board) (position : Position) (p : Piece)
    (cr : CastlingRights) (m : Move) :
  In m (castlingMoves b position p cr) -> isCastleType (mtype m) = true.
Proof.
  unfold castlingMoves. cbv zeta.
  destruct (negb (hasMoved p)); [|intros []].
  intros H. apply in_app_iff in H as [H|H];
    repeat match type of H with
           | In _ (if ?c then _ else _) => destruct c
           | In _ [] => destruct H
           | In _ [_] => destruct H as [<-|[]]
           end; reflexivity.
Qed.

(** X24: a knight or a king steps exactly onto the squares of the grid one jump
    (for the knight) or one neighbour (for the king) away that hold no piece
    of its own colour: these, and the king's castlings, are all the
    destinations the generator gives it. *)
Theorem step_destinations (b : Board) (position : Position) (p : Piece)
    (ep : option Position) (cr : CastlingRights) (t : Position) :
  wf_board b = true -> isValidPosition position = true ->
  getCell b position = Some p ->
  ptype p = KNIGHT \/ ptype p = KING ->
  ((exists m, In m (getPossibleMoves b position ep cr)
              /\ isCastleType (mtype m) = false /\ to m = t)
   <-> exists d,
         In d (stepDirections (ptype p))
         /\ t = mkPos (row position + drow d) (col position + dcol d)
         /\ isValidPosition t = true
         /\ forall x, getCell b t = Some x -> color x <> color p).
Proof.
  intros _ _ Hcell Hty. unfold getPossibleMoves. rewrite Hcell.
  destruct Hty as [Hty|Hty]; rewrite Hty; cbn [stepDirections].
  - unfold getKnightMoves. split.
    + intros (m & Hin & _ & Hto). apply in_flat_map in Hin as (d & Hd & Hin).
      exists d. split; [exact Hd|]. apply stepMoves_dest. eauto.
    + intros (d & Hd & Hdest). apply stepMoves_dest in Hdest as (m & Hin & Hto).
      exists m. split; [apply in_flat_map; eauto|].
      split; [eapply stepMoves_type; eauto | exact Hto].
  - unfold getKingMoves. split.
    + intros (m & Hin & Hnc & Hto). apply in_app_iff in Hin as [Hin|Hin].
      * apply in_flat_map in Hin as (d & Hd & Hin).
        exists d. split; [exact Hd|]. apply stepMoves_dest. eauto.
      * apply castlingMoves_type in Hin. congruence.
    + intros (d & Hd & Hdest). apply stepMoves_dest in Hdest as (m & Hin & Hto).
      exists m. split; [apply in_app_iff; left; apply in_flat_map; eauto|].
      split; [eapply stepMoves_type; eauto | exact Hto].
Qed.

Lemma promotions_nonempty (f t : Position) (p : Piece) (captured : option Piece) :
  exists m, In m (addPawnPromotionMoves f t p captured) /\ to m = t.
Proof.
  eexists. split; [left; reflexivity | reflexivity].
Qed.

Lemma pawnForwardMoves_dest (b : Board) (position : Position) (p : Piece)
    (t : Position) :
  (exists m, In m (pawnForwardMoves b position p) /\ to m = t)
  <-> (t = mkPos (row position + pawnDirection (color p)) (col position)
       /\ isValidPosition t = true /\ getCell b t = None)
      \/ (t = mkPos (row position + 2 * pawnDirection (color p)) (col position)
          /\ isStartRow (color p) (row position) = true
          /\ isValidPosition
               (mkPos (row position + pawnDirection (color p)) (col position)) = true
          /\ getCell b (mkPos (row position + pawnDirection (color p))
                          (col position)) = None
          /\ isValidPosition t = true /\ getCell b t = None).
Proof.
  unfold pawnForwardMoves. cbv zeta.
  set (one := mkPos (row position + pawnDirection (color p)) (col position)).
  set (two := mkPos (row position + 2 * pawnDirection (color p)) (col position)).
  split.
  - intros (m & Hin & <-).
    destruct (isValidPosition one && negb (occupied (getCell b one))) eqn:E1;
      [|destruct Hin].
    apply andb_true_iff in E1 as [V1 O1]. apply occupied_false_iff in O1.
    apply in_app_iff in Hin as [Hin|Hin].
    + left. assert (Hto : to m = one).
      { destruct (isPromotionRow (color p) (row one)).
        - eapply addPawnPromotionMoves_to; eauto.
        - destruct Hin as [<-|[]]. reflexivity. }
      rewrite Hto. auto.
    + right. destruct (isStartRow (color p) (row position)) eqn:Es; [|destruct Hin].
      destruct (isValidPosition two && negb (occupied (getCell b two))) eqn:E2;
        [|destruct Hin].
      apply andb_true_iff in E2 as [V2 O2]. apply occupied_false_iff in O2.
      destruct Hin as [<-|[]]. cbn [to simpleMove]. auto 6.
  - intros [(-> & V1 & O1) | (-> & Es & V1 & O1 & V2 & O2)].
    + rewrite V1, O1. cbn [occupied negb andb].
      destruct (isPromotionRow (color p) (row one)).
      * destruct (promotions_nonempty position one p None) as (m & Hin & Hto).
        exists m. split; [apply in_app_iff; left; exact Hin | exact Hto].
      * eexists. split; [apply in_app_iff; left; left; reflexivity | reflexivity].
    + rewrite V1, O1, Es, V2, O2. cbn [occupied negb andb].
      eexists. split; [apply in_app_iff; right; left; reflexivity | reflexivity].
Qed.

Lemma pawnCaptureMoves_dest (b : Board) (position : Position) (p : Piece)
    (ep : option Position) (captureMove t : Position) :
  (exists m, In m (pawnCaptureMoves b position p ep captureMove) /\ to m = t)
  <-> t = captureMove
      /\ isValidPosition t = true
      /\ ((exists x, getCell b t = Some x /\ color x <> color p)
          \/ (ep = Some t
              /\ exists x, getCell b (mkPos (row position) (col t)) = Some x
                           /\ ptype x = PAWN /\ color x <> color p)).
Proof.
  unfold pawnCaptureMoves. split.
  - intros (m & Hin & <-).
    destruct (isValidPosition captureMove) eqn:Ev; [|destruct Hin].
    pose proof (pawnCaptureMoves_to b position p ep captureMove m) as Hto.
    unfold pawnCaptureMoves in Hto. rewrite Ev in Hto. specialize (Hto Hin).
    rewrite Hto. split; [reflexivity|]. split; [exact Ev|].
    apply in_app_iff in Hin as [Hin|Hin].
    + left. destruct (getCell b captureMove) as [x|]; [|destruct Hin].
      destruct (colorEqb (color x) (color p)) eqn:Ec; [destruct Hin|].
      exists x. split; [reflexivity|]. apply colorEqb_false_iff. exact Ec.
    + right. destruct ep as [e|]; [|destruct Hin].
      destruct ((row captureMove =? row e) && (col captureMove =? col e)) eqn:Ee;
        [|destruct Hin].
      apply andb_true_iff in Ee as [Er Ec]. apply Z.eqb_eq in Er, Ec.
      assert (He : e = captureMove).
      { destruct e as [er ec], captureMove as [cmr cmc]; cbn [row col] in Er, Ec.
        congruence. }
      subst e. split; [reflexivity|]. cbv zeta in Hin.
      destruct (getCell b (mkPos (row position) (col captureMove))) as [x|];
        [|destruct Hin].
      destruct (typeEqb (ptype x) PAWN && negb (colorEqb (color x) (color p)))
        eqn:Ex; [|destruct Hin].
      apply andb_true_iff in Ex as [Et Ecol].
      apply typeEqb_true_iff in Et. apply negb_true_iff, colorEqb_false_iff in Ecol.
      exists x. auto.
  - intros (-> & Ev & Hcase). rewrite Ev.
    destruct Hcase as [(x & Hx & Hc) | (-> & x & Hx & Ht & Hc)].
    + rewrite Hx. apply colorEqb_false_iff in Hc. rewrite Hc. cbn [negb].
      destruct (isPromotionRow (color p) (row captureMove)).
      * destruct (promotions_nonempty position captureMove p (Some x))
          as (m & Hin & Hto).
        exists m. split; [apply in_app_iff; left; exact Hin | exact Hto].
      * eexists. split; [apply in_app_iff; left; left; reflexivity | reflexivity].
    + rewrite !Z.eqb_refl. cbn [andb]. cbv zeta. rewrite Hx.
      apply typeEqb_true_iff in Ht. apply colorEqb_false_iff in Hc.
      rewrite Ht, Hc. cbn [negb andb].
      eexists. split; [apply in_app_iff; right; left; reflexivity | reflexivity].
Qed.

(** X25: where a pawn can go: the generator gives a pawn a move to a square
    exactly when the square is the empty square one row ahead; or the empty
    square two rows ahead, the pawn standing on its starting row and the
    square between being empty too; or a square of the grid one row ahead
    and one column aside that holds an enemy piece, or that is the
    en-passant target while an enemy pawn stands beside the pawn on the
    target's column. *)
Theorem pawn_destinations (b : Board) (position : Position) (p : Piece)
    (ep : option Position) (cr : CastlingRights) (t : Position) :
  wf_board b = true -> isValidPosition position = true ->
  getCell b position = Some p -> ptype p = PAWN ->
  let ahead := row position + pawnDirection (color p) in
  ((exists m, In m (getPossibleMoves b position ep cr) /\ to m = t)
   <-> (t = mkPos ahead (col position)
        /\ isValidPosition t = true /\ getCell b t = None)
       \/ (t = mkPos (row position + 2 * pawnDirection (color p)) (col position)
           /\ isStartRow (color p) (row position) = true
           /\ isValidPosition (mkPos ahead (col position)) = true
           /\ getCell b (mkPos ahead (col position)) = None
           /\ isValidPosition t = true /\ getCell b t = None)
       \/ ((t = mkPos ahead (col position - 1) \/ t = mkPos ahead (col position + 1))
           /\ isValidPosition t = true
           /\ ((exists x, getCell b t = Some x /\ color x <> color p)
               \/ (ep = Some t
                   /\ exists x, getCell b (mkPos (row position) (col t)) = Some x
                                /\ ptype x = PAWN /\ color x <> color p)))).
Proof.
  intros _ _ Hcell Hty. cbv zeta.
  unfold getPossibleMoves. rewrite Hcell, Hty. unfold getPawnMoves. cbv zeta.
  split.
  - intros (m & Hin & Hto). apply in_app_iff in Hin as [Hin|Hin].
    + assert (H : exists m, In m (pawnForwardMoves b position p) /\ to m = t)
        by eauto.
      apply pawnForwardMoves_dest in H as [H|H]; [left | right; left]; exact H.
    + apply in_flat_map in Hin as (cm & Hcm & Hin).
      assert (H : exists m, In m (pawnCaptureMoves b position p ep cm) /\ to m = t)
        by eauto.
      apply pawnCaptureMoves_dest in H as (-> & Hv & Hcase).
      right. right. split; [|split; assumption].
      destruct Hcm as [<-|[<-|[]]]; auto.
  - intros [H | [H | (Hside & Hv & Hcase)]].
    + assert (H' : exists m, In m (pawnForwardMoves b position p) /\ to m = t)
        by (apply pawnForwardMoves_dest; left; exact H).
      destruct H' as (m & Hin & Hto). exists m.
      split; [apply in_app_iff; left; exact Hin | exact Hto].
    + assert (H' : exists m, In m (pawnForwardMoves b position p) /\ to m = t)
        by (apply pawnForwardMoves_dest; right; exact H).
      destruct H' as (m & Hin & Hto). exists m.
      split; [apply in_app_iff; left; exact Hin | exact Hto].
    + assert (H' : exists m, In m (pawnCaptureMoves b position p ep t) /\ to m = t)
        by (apply pawnCaptureMoves_dest; auto).
      destruct H' as (m & Hin & Hto). exists m. split; [|exact Hto].
      apply in_app_iff. right. apply in_flat_map. exists t. split; [|exact Hin].
      destruct Hside as [-> | ->]; simpl; auto.
Qed.

(** ** The game component *)

Lemma updateGameState_state (s : Game) (newBoard : Board) (nextPlayer : PieceColor) :
  s_gameState (updateGameState s newBoard nextPlayer)
  = calculateGameState newBoard nextPlayer.
Proof. reflexivity. Qed.

Lemma replay_snoc (history : list Move) (move : Move) :
  replay (history ++ [move]) = replayStep (replay history) move.
Proof. unfold replay. rewrite fold_left_app. reflexivity. Qed.

Lemma playerAfter_snoc (history : list Move) (move : Move) :
  playerAfter (history ++ [move])
  = if colorEqb (playerAfter history) WHITE then BLACK else WHITE.
Proof.
  unfold playerAfter. rewrite length_app. cbn [length].
  rewrite Nat.add_1_r, Nat.even_succ, <- Nat.negb_even.
  destruct (Nat.even (length history)); reflexivity.
Qed.

Lemma makeMove_fields (s s' : Game) (move : Move) :
  makeMove s move = Some s' ->
  s_board s' = applyMove (s_board s) move
  /\ updateCastlingRights move (s_castlingRights s) = Some (s_castlingRights s')
  /\ s_capturedPieces s'
     = match capturedPiece move with
       | Some x => pushCaptured (s_capturedPieces s) (color (piece move)) x
       | None => s_capturedPieces s
       end
  /\ s_moveHistory s' = s_moveHistory s ++ [move]
  /\ s_currentPlayer s' = (if colorEqb (s_currentPlayer s) WHITE then BLACK else WHITE)
  /\ s_gameState s' = calculateGameState (s_board s') (s_currentPlayer s')
  /\ s_enPassantTarget s' = makeMove_enPassantTarget move
  /\ s_gameMode s' = s_gameMode s
  /\ s_selectedPosition s' = s_selectedPosition s
  /\ s_validMoves s' = s_validMoves s
  /\ s_isAIThinking s' = s_isAIThinking s.
Proof.
  unfold makeMove. cbv zeta. rewrite deepClone_id.
  destruct (updateCastlingRights move (s_castlingRights s)) as [rights|];
    [|discriminate].
  intros H; inversion H; subst s'. cbn. repeat split; reflexivity.
Qed.

Lemma makeMove_replayed (s s' : Game) (move : Move) :
  replayed s -> makeMove s move = Some s' -> replayed s'.
Proof.
  intros (Hrep & Hplayer & _) Hmove.
  apply makeMove_fields in Hmove
    as (Hb & Hcr & Hcap & Hh & Hp & Hg & _).
  unfold replayed. rewrite Hh, replay_snoc, Hrep, playerAfter_snoc, <- Hplayer.
  split; [|split; [exact Hp | exact Hg]].
  cbn [replayStep]. rewrite Hcr, Hb, Hcap. reflexivity.
Qed.

Lemma initializeBoard_fields (s : Game) :
  initializeBoard s
  = Some (mkGame initialBoard WHITE ACTIVE None [] (s_gameMode s) []
            (mkCaptured [] []) None defaultCastlingRights false).
Proof. unfold initializeBoard. rewrite parseFEN_initial. reflexivity. Qed.

Lemma initial_replayed (mode : GameMode) :
  replayed (mkGame initialBoard WHITE ACTIVE None [] mode []
              (mkCaptured [] []) None defaultCastlingRights false).
Proof.
  unfold replayed. cbn [s_moveHistory s_board s_castlingRights s_capturedPieces
                        s_currentPlayer s_gameState].
  split; [reflexivity|]. split; [reflexivity|]. vm_compute. reflexivity.
Qed.

Lemma undoMove_fields (s : Game) :
  (movesToUndo (s_gameMode s) <= length (s_moveHistory s))%nat ->
  forall b cr cap,
    replay (firstn (length (s_moveHistory s) - movesToUndo (s_gameMode s))
              (s_moveHistory s)) = Some (b, cr, cap) ->
    undoMove s
    = Some (mkGame b
              (playerAfter (firstn (length (s_moveHistory s)
                                    - movesToUndo (s_gameMode s))
                              (s_moveHistory s)))
              (calculateGameState b
                 (playerAfter (firstn (length (s_moveHistory s)
                                       - movesToUndo (s_gameMode s))
                                 (s_moveHistory s))))
              None [] (s_gameMode s)
              (firstn (length (s_moveHistory s) - movesToUndo (s_gameMode s))
                 (s_moveHistory s))
              cap None cr (s_isAIThinking s)).
Proof.
  intros Hlen b cr cap Hrep. unfold undoMove. cbv zeta.
  fold (movesToUndo (s_gameMode s)).
  assert (Hpos : (1 <= movesToUndo (s_gameMode s))%nat)
    by (unfold movesToUndo; destruct (negb _); lia).
  replace (length (s_moveHistory s) =? 0)%nat with false
    by (symmetry; apply Nat.eqb_neq; lia).
  replace (length (s_moveHistory s) <? movesToUndo (s_gameMode s))%nat with false
    by (symmetry; apply Nat.ltb_ge; lia).
  rewrite parseFEN_initial. cbn [fenBoard fenCastlingRights].
  unfold replay in Hrep. rewrite Hrep. reflexivity.
Qed.

Lemma makeMoves_fields (moves : list Move) :
  forall s s',
    makeMoves s moves = Some s' ->
    s_moveHistory s' = s_moveHistory s ++ moves
    /\ s_gameMode s' = s_gameMode s
    /\ s_isAIThinking s' = s_isAIThinking s
    /\ (replayed s -> replayed s').
Proof.
  unfold makeMoves. induction moves as [|m rest IH]; intros s s'; cbn [fold_left].
  - intros H; inversion H; subst. rewrite app_nil_r. auto.
  - destruct (makeMove s m) as [s1|] eqn:E1.
    + intros H. apply IH in H as (Hh & Hm & Ha & Hr).
      pose proof (makeMove_fields _ _ _ E1)
        as (_ & _ & _ & Hh1 & _ & _ & _ & Hm1 & _ & _ & Ha1).
      rewrite Hh, Hh1, <- app_assoc, Hm, Hm1, Ha, Ha1.
      split; [reflexivity|]. split; [reflexivity|]. split; [reflexivity|].
      intros Hs. apply Hr. eapply makeMove_replayed; eauto.
    + intros H. exfalso. clear - H.
      induction rest as [|x rest IHr]; cbn [fold_left] in H; [discriminate | auto].
Qed.

(** X26: undoing restores the position: from a state that agrees with its
    history, after as many moves as [undoMove] takes back (one against a
    human opponent, two against the computer), [undoMove] gives back the
    board, the castling rights, the captured pieces, the player to move, the
    game state and the history of that state; the selection is cleared, and
    the en-passant target is always reset to none. *)
Theorem undo_restores (s s' : Game) (moves : list Move) :
  replayed s ->
  length moves = movesToUndo (s_gameMode s) ->
  makeMoves s moves = Some s' ->
  exists s'',
    undoMove s' = Some s''
    /\ s_board s'' = s_board s
    /\ s_castlingRights s'' = s_castlingRights s
    /\ s_capturedPieces s'' = s_capturedPieces s
    /\ s_currentPlayer s'' = s_currentPlayer s
    /\ s_gameState s'' = s_gameState s
    /\ s_moveHistory s'' = s_moveHistory s
    /\ s_gameMode s'' = s_gameMode s
    /\ s_enPassantTarget s'' = None
    /\ s_selectedPosition s'' = None
    /\ s_validMoves s'' = [].
Proof.
  intros (Hrep & Hplayer & Hstate) Hlen Hmoves.
  apply makeMoves_fields in Hmoves as (Hh & Hm & _ & _).
  assert (Hfirst : firstn (length (s_moveHistory s') - movesToUndo (s_gameMode s'))
                     (s_moveHistory s') = s_moveHistory s).
  { rewrite Hh, Hm, length_app, Hlen, Nat.add_sub.
    rewrite firstn_app, Nat.sub_diag, firstn_all. cbn [firstn].
    apply app_nil_r. }
  eexists. split.
  - apply undoMove_fields.
    + rewrite Hh, Hm, length_app. lia.
    + rewrite Hfirst. exact Hrep.
  - cbn [s_board s_castlingRights s_capturedPieces s_currentPlayer s_gameState
         s_moveHistory s_gameMode s_enPassantTarget s_selectedPosition
         s_validMoves].
    rewrite Hfirst, <- Hplayer, <- Hstate. repeat split; auto.
Qed.

Lemma in_allMoves (b : Board) (pos : Position) (p : Piece) (c : PieceColor)
    (ep : option Position) (cr : CastlingRights) (m : Move) :
  isValidPosition pos = true -> getCell b pos = Some p -> color p = c ->
  In m (filterLegalMoves b (getPossibleMoves b pos ep cr) c) ->
  In m (allMoves b c ep cr).
Proof.
  intros Hv Hp Hc Hin. unfold allMoves. apply in_flat_map.
  exists pos. split; [apply valid_in_positions; exact Hv|].
  rewrite Hp. apply colorEqb_true_iff in Hc. rewrite Hc. exact Hin.
Qed.

Lemma stateEqb_true_iff (a c : GameState) : stateEqb a c = true <-> a = c.
Proof. destruct a, c; simpl; split; congruence. Qed.

Lemma modeEqb_true_iff (a c : GameMode) : modeEqb a c = true <-> a = c.
Proof. destruct a, c; simpl; split; congruence. Qed.

(** The clicks that are heard: the game is active, the computer is neither
    thinking nor to move. *)
Lemma handleSquareClick_cases (s s' : Game) (position : Position) :
  handleSquareClick s position = Some s' ->
  s' = s
  \/ (s_gameState s = ACTIVE /\ s_isAIThinking s = false
      /\ ~ (s_currentPlayer s = BLACK /\ s_gameMode s <> TWO_PLAYER)
      /\ (s' = deselect s
          \/ (ownPiece s position = true /\ s' = selectPiece s position)
          \/ exists m s1,
               In m (s_validMoves s) /\ to m = position
               /\ makeMove s m = Some s1 /\ s' = deselect s1)).
Proof.
  unfold handleSquareClick.
  destruct (stateEqb (s_gameState s) ACTIVE) eqn:Es; cbn [negb];
    [|intros H; inversion H; auto].
  apply stateEqb_true_iff in Es.
  destruct (s_isAIThinking s) eqn:Ea; cbn [orb]; [intros H; inversion H; auto|].
  destruct (colorEqb (s_currentPlayer s) BLACK
            && negb (modeEqb (s_gameMode s) TWO_PLAYER)) eqn:Eai;
    [intros H; inversion H; auto|].
  assert (Hturn : ~ (s_currentPlayer s = BLACK /\ s_gameMode s <> TWO_PLAYER)).
  { intros [Hc Hm]. apply andb_false_iff in Eai as [E|E].
    - apply colorEqb_true_iff in Hc. congruence.
    - apply negb_false_iff, modeEqb_true_iff in E. contradiction. }
  assert (Hheard : forall rest : Prop, rest ->
            s_gameState s = ACTIVE /\ s_isAIThinking s = false
            /\ ~ (s_currentPlayer s = BLACK /\ s_gameMode s <> TWO_PLAYER)
            /\ rest) by (intros rest Hrest; auto).
  rewrite Ea in Hheard.
  intros H.
  destruct (s_selectedPosition s) as [sel|].
  - destruct (find _ (s_validMoves s)) as [m|] eqn:Ef.
    + apply find_some in Ef as [Hin Hto].
      apply andb_true_iff in Hto as [Hr Hc]. apply Z.eqb_eq in Hr, Hc.
      destruct (makeMove s m) as [s1|] eqn:Em; [|discriminate].
      cbn [option_map] in H. inversion H; subst s'.
      right. apply Hheard. right. right. exists m, s1. repeat split; auto.
      destruct (to m) as [tr tc], position as [pr pc]; cbn [row col] in Hr, Hc.
      congruence.
    + destruct ((row sel =? row position) && (col sel =? col position));
        [inversion H; right; apply Hheard; auto|].
      destruct (ownPiece s position) eqn:Eo; inversion H;
        right; apply Hheard; auto.
  - destruct (ownPiece s position) eqn:Eo; inversion H;
      [right; apply Hheard; auto | left; reflexivity].
Qed.

Lemma deselect_replayed (s : Game) : replayed s -> replayed (deselect s).
Proof. intros H. exact H. Qed.

Lemma selectPiece_replayed (s : Game) (position : Position) :
  replayed s -> replayed (selectPiece s position).
Proof.
  intros H. unfold selectPiece.
  destruct (getCell (s_board s) position); exact H.
Qed.

Lemma deselect_selectionOk (s : Game) : selectionOk (deselect s).
Proof.
  unfold selectionOk, deselect. cbn [s_validMoves].
  split; [intros m [] | reflexivity].
Qed.

Lemma selectPiece_selectionOk (s : Game) (position : Position) :
  isValidPosition position = true -> ownPiece s position = true ->
  ~ (s_currentPlayer s = BLACK /\ s_gameMode s <> TWO_PLAYER) ->
  selectionOk (selectPiece s position).
Proof.
  intros Hv Hown Hturn. unfold ownPiece in Hown. unfold selectPiece, selectionOk.
  destruct (getCell (s_board s) position) as [p|] eqn:Ep; [|discriminate].
  apply colorEqb_true_iff in Hown.
  cbn [s_validMoves s_board s_currentPlayer s_enPassantTarget s_castlingRights
       s_gameMode].
  split.
  - intros m Hin. eapply in_allMoves; eauto.
  - intros Hc Hm. exfalso. apply Hturn. auto.
Qed.

Lemma replay_prefix (history : list Move) (k : nat) :
  replay history <> None -> replay (firstn k history) <> None.
Proof.
  intros H. rewrite <- (firstn_skipn k history) in H.
  unfold replay in *. rewrite fold_left_app in H.
  intros E. rewrite E in H. apply H. clear.
  induction (skipn k history) as [|m rest IH]; [reflexivity | exact IH].
Qed.

Lemma undoMove_replayed (s s' : Game) :
  replayed s -> selectionOk s -> undoMove s = Some s' ->
  replayed s' /\ selectionOk s'.
Proof.
  intros Hrep Hsel Hundo.
  destruct (Nat.le_gt_cases (movesToUndo (s_gameMode s)) (length (s_moveHistory s)))
    as [Hle|Hgt].
  - destruct Hrep as (Hr & _).
    destruct (replay (firstn (length (s_moveHistory s) - movesToUndo (s_gameMode s))
                        (s_moveHistory s))) as [[[b cr] cap]|] eqn:E.
    + rewrite (undoMove_fields s Hle b cr cap E) in Hundo.
      inversion Hundo; subst s'. split.
      * unfold replayed. cbn. auto.
      * unfold selectionOk. cbn. split; [intros m [] | reflexivity].
    + exfalso. apply (replay_prefix (s_moveHistory s)
                        (length (s_moveHistory s) - movesToUndo (s_gameMode s)));
        [congruence | exact E].
  - unfold undoMove in Hundo. cbv zeta in Hundo.
    fold (movesToUndo (s_gameMode s)) in Hundo.
    destruct (length (s_moveHistory s) =? 0)%nat;
      [inversion Hundo; subst; auto|].
    replace (length (s_moveHistory s) <? movesToUndo (s_gameMode s))%nat with true
      in Hundo by (symmetry; apply Nat.ltb_lt; lia).
    inversion Hundo; subst; auto.
Qed.

(** [findBestMove] for black, as [performAIMove] calls it. *)
Lemma findBestMove_black (fuel : nat) (b : Board) (depth : Z)
    (ep : option Position) (cr : CastlingRights) :
  1 <= depth <= Z.of_nat fuel ->
  (allMoves b BLACK ep cr = [] /\ findBestMove fuel b depth true ep cr = Some None)
  \/ exists m, In m (allMoves b BLACK ep cr)
               /\ findBestMove fuel b depth true ep cr = Some (Some m).
Proof.
  intros Hd. unfold findBestMove. cbv zeta.
  destruct (length (allMoves b BLACK ep cr) =? 0)%nat eqn:E.
  - left. apply length_eqb_nil in E. auto.
  - right.
    assert (Hne : allMoves b BLACK ep cr <> [])
      by (intros H; apply length_eqb_nil in H; congruence).
    destruct (bestLoop_returns
                (fun nb => minimax fuel nb (depth - 1) NegInf PosInf (negb true) ep cr)
                b true (allMoves b BLACK ep cr) None NegInf) as [r Hr].
    { intros nb. apply minimax_returns. lia. }
    pose proof Hr as Hr'.
    apply bestLoop_picks in Hr' as (m & -> & Hin); auto.
    + exists m. split; [exact Hin | exact Hr].
    + intros nb s. apply minimax_fin.
Qed.

Lemma aiDepth_range (mode : GameMode) :
  1 <= match AI_DEPTH mode with
       | Some d => if d =? 0 then 1 else d
       | None => 1
       end <= 3.
Proof. destruct mode; simpl; lia. Qed.

(** X28: the computer plays legal moves: with black to move in its search (the
    search always moves black), castling rights with both entries and a
    budget of three nested calls, [performAIMove] returns; the depth it
    searches is 1, 2 or 3; when black has no legal move it only recomputes
    the game state for black, and otherwise it makes one of black's legal
    moves; either way the computer stops thinking. *)
Theorem ai_plays_legal (fuel : nat) (s : Game) :
  (3 <= fuel)%nat ->
  rightsWhite (s_castlingRights s) <> None ->
  rightsBlack (s_castlingRights s) <> None ->
  exists s',
    performAIMove fuel s = Some s'
    /\ s_isAIThinking s' = false
    /\ ((allMoves (s_board s) BLACK (s_enPassantTarget s) (s_castlingRights s) = []
         /\ s_board s' = s_board s
         /\ s_moveHistory s' = s_moveHistory s
         /\ s_currentPlayer s' = s_currentPlayer s
         /\ s_gameState s' = calculateGameState (s_board s) BLACK)
        \/ exists m,
             In m (allMoves (s_board s) BLACK (s_enPassantTarget s)
                     (s_castlingRights s))
             /\ makeMove s m <> None
             /\ s_board s' = applyMove (s_board s) m
             /\ s_moveHistory s' = s_moveHistory s ++ [m]
             /\ s_gameState s' = calculateGameState (s_board s') (s_currentPlayer s')).
Proof.
  intros Hfuel Hw Hb. unfold performAIMove. cbv zeta.
  pose proof (aiDepth_range (s_gameMode s)) as Hdepth.
  set (depth := match AI_DEPTH (s_gameMode s) with
                | Some d => if d =? 0 then 1 else d
                | None => 1
                end) in *.
  assert (Hd : 1 <= depth <= Z.of_nat fuel) by lia.
  destruct (findBestMove_black fuel (s_board s) depth (s_enPassantTarget s)
              (s_castlingRights s) Hd)
    as [[Hnone ->] | (m & Hin & ->)].
  - eexists. split; [reflexivity|]. split; [reflexivity|]. left.
    repeat split; auto.
  - destruct (updateCastlingRights_returns m (s_castlingRights s)) as [cr' Hcr].
    { intros [|]; assumption. }
    destruct (makeMove s m) as [s1|] eqn:Em.
    + eexists. split; [reflexivity|]. split; [reflexivity|]. right.
      pose proof (makeMove_fields _ _ _ Em) as (Hbd & _ & _ & Hh & _ & Hg & _).
      exists m. split; [exact Hin|]. split; [congruence|].
      cbn. auto.
    + exfalso. unfold makeMove in Em. cbv zeta in Em. rewrite Hcr in Em.
      discriminate.
Qed.

(** X27: only legal moves are played by clicking: a click is ignored unless the
    game state is ACTIVE (so also while a king is in check), while the
    computer is thinking and while it is to move; a click that is heard
    changes the selection only, or makes, for the player to move, one of that
    player's legal moves to the clicked square. *)
Theorem clicks_play_legal (s s' : Game) (position : Position) :
  isValidPosition position = true -> selectionOk s ->
  handleSquareClick s position = Some s' ->
  (s_gameState s <> ACTIVE -> s' = s)
  /\ (s_isAIThinking s = true -> s' = s)
  /\ (s_currentPlayer s = BLACK -> s_gameMode s <> TWO_PLAYER -> s' = s)
  /\ ((s_board s' = s_board s /\ s_moveHistory s' = s_moveHistory s
       /\ s_currentPlayer s' = s_currentPlayer s /\ s_gameState s' = s_gameState s)
      \/ exists m,
           In m (allMoves (s_board s) (s_currentPlayer s)
                   (s_enPassantTarget s) (s_castlingRights s))
           /\ to m = position
           /\ s_board s' = applyMove (s_board s) m
           /\ s_moveHistory s' = s_moveHistory s ++ [m]
           /\ s_currentPlayer s' = opponent (s_currentPlayer s)
           /\ s_selectedPosition s' = None /\ s_validMoves s' = []).
Proof.
  intros Hv (Hlegal & _) Hclick.
  apply handleSquareClick_cases in Hclick
    as [-> | (Hs & Ha & Hturn & Hcase)].
  - repeat split; auto.
  - split; [intros H; contradiction|].
    split; [intros H; congruence|].
    split; [intros Hc Hm; exfalso; apply Hturn; auto|].
    destruct Hcase as [-> | [(Hown & ->) | (m & s1 & Hin & Hto & Hmove & ->)]].
    + left. repeat split; reflexivity.
    + left. unfold selectPiece. destruct (getCell (s_board s) position);
        repeat split; reflexivity.
    + right. exists m. split; [apply Hlegal; exact Hin|]. split; [exact Hto|].
      apply makeMove_fields in Hmove as (Hb & _ & _ & Hh & Hp & _).
      cbn [deselect s_board s_moveHistory s_currentPlayer s_selectedPosition
           s_validMoves].
      rewrite Hb, Hh, Hp. repeat split; auto.
      destruct (s_currentPlayer s); reflexivity.
Qed.

(** X29: every state the component reaches agrees with its move history and
    offers only legal moves: [initializeBoard] (and with it [restartGame]
    and [changeGameMode]) gives such a state, and [handleSquareClick],
    [undoMove] and, with black to move against the computer,
    [performAIMove] keep it so. *)
Theorem handlers_keep_invariants :
  (forall s0 s, initializeBoard s0 = Some s -> replayed s /\ selectionOk s)
  /\ (forall s0 s, restartGame s0 = Some s -> replayed s /\ selectionOk s)
  /\ (forall s0 mode s, changeGameMode s0 mode = Some s ->
                        replayed s /\ selectionOk s /\ s_gameMode s = mode)
  /\ (forall s s' position,
        replayed s -> selectionOk s -> isValidPosition position = true ->
        handleSquareClick s position = Some s' -> replayed s' /\ selectionOk s')
  /\ (forall s s',
        replayed s -> selectionOk s -> undoMove s = Some s' ->
        replayed s' /\ selectionOk s')
  /\ (forall fuel s s',
        replayed s -> selectionOk s ->
        s_currentPlayer s = BLACK -> s_gameMode s <> TWO_PLAYER ->
        performAIMove fuel s = Some s' -> replayed s' /\ selectionOk s').
Proof.
  assert (Hinit : forall s0 s, initializeBoard s0 = Some s ->
                    replayed s /\ selectionOk s /\ s_gameMode s = s_gameMode s0).
  { intros s0 s H. rewrite initializeBoard_fields in H. inversion H; subst s.
    split; [apply initial_replayed|]. split; [|reflexivity].
    unfold selectionOk. cbn. split; [intros m [] | reflexivity]. }
  split; [|split; [|split; [|split; [|split]]]].
  - intros s0 s H. destruct (Hinit s0 s H) as (H1 & H2 & _). auto.
  - intros s0 s H. destruct (Hinit s0 s H) as (H1 & H2 & _). auto.
  - intros s0 mode s H. unfold changeGameMode in H.
    destruct (Hinit _ s H) as (H1 & H2 & H3). auto.
  - intros s s' position Hrep Hsel Hv Hclick.
    apply handleSquareClick_cases in Hclick
      as [-> | (Hs & Ha & Hturn & Hcase)]; [auto|].
    destruct Hcase as [-> | [(Hown & ->) | (m & s1 & Hin & Hto & Hmove & ->)]].
    + split; [exact Hrep | apply deselect_selectionOk].
    + split; [apply selectPiece_replayed; exact Hrep|].
      apply selectPiece_selectionOk; assumption.
    + split; [|apply deselect_selectionOk].
      apply deselect_replayed. eapply makeMove_replayed; eauto.
  - intros s s'. apply undoMove_replayed.
  - intros fuel s s' Hrep Hsel Hblack Hmode Hai.
    destruct Hsel as (Hlegal & Hnone). specialize (Hnone Hblack Hmode).
    unfold performAIMove in Hai. cbv zeta in Hai.
    destruct (findBestMove fuel (s_board s) _ true (s_enPassantTarget s)
                (s_castlingRights s)) as [[m|]|]; [| |discriminate].
    + destruct (makeMove s m) as [s1|] eqn:Em; [|discriminate].
      cbn [option_map] in Hai. inversion Hai; subst s'.
      pose proof (makeMove_replayed s s1 m Hrep Em) as Hrep1.
      apply makeMove_fields in Em as (_ & _ & _ & _ & _ & _ & _ & _ & _ & Hvm & _).
      split; [exact Hrep1|].
      unfold selectionOk, stopThinking. cbn. rewrite Hvm, Hnone.
      split; [intros x [] | reflexivity].
    + inversion Hai; subst s'. split.
      * destruct Hrep as (H1 & H2 & H3).
        split; [exact H1|]. split; [exact H2|].
        cbn [stopThinking updateGameState s_gameState s_board s_currentPlayer].
        rewrite Hblack. reflexivity.
      * unfold selectionOk. cbn. rewrite Hnone.
        split; [intros x [] | reflexivity].
Qed.

(** ** When castling is generated *)

Lemma castlingMoves_kingside (b : Board) (position : Position) (p : Piece)
    (cr : CastlingRights) (r : SideRights) :
  hasMoved p = false -> rightsOf cr (color p) = Some r -> kingSide r = true ->
  getCell b (mkPos (kingRankOf (color p)) 5) = None ->
  getCell b (mkPos (kingRankOf (color p)) 6) = None ->
  isCastlingRook (getCell b (mkPos (kingRankOf (color p)) 7)) (color p) = true ->
  exists m, In m (castlingMoves b position p cr) /\ mtype m = CASTLE_KINGSIDE.
Proof.
  intros Hm Hr Hk H5 H6 Hrook. unfold castlingMoves. cbv zeta.
  rewrite Hm, Hr, Hk, H5, H6, Hrook. cbn [negb occupied andb].
  eexists. split; [apply in_app_iff; left; left; reflexivity | reflexivity].
Qed.

Lemma castlingMoves_queenside (b : Board) (position : Position) (p : Piece)
    (cr : CastlingRights) (r : SideRights) :
  hasMoved p = false -> rightsOf cr (color p) = Some r -> queenSide r = true ->
  getCell b (mkPos (kingRankOf (color p)) 1) = None ->
  getCell b (mkPos (kingRankOf (color p)) 2) = None ->
  getCell b (mkPos (kingRankOf (color p)) 3) = None ->
  isCastlingRook (getCell b (mkPos (kingRankOf (color p)) 0)) (color p) = true ->
  exists m, In m (castlingMoves b position p cr) /\ mtype m = CASTLE_QUEENSIDE.
Proof.
  intros Hm Hr Hq H1 H2 H3 Hrook. unfold castlingMoves. cbv zeta.
  rewrite Hm, Hr, Hq, H1, H2, H3, Hrook. cbn [negb occupied andb].
  eexists. split; [apply in_app_iff; right; left; reflexivity | reflexivity].
Qed.

Lemma isCastlingRook_intro (c : option Piece) (kingColor : PieceColor) (rook : Piece) :
  c = Some rook -> ptype rook = ROOK -> color rook = kingColor ->
  hasMoved rook = false -> isCastlingRook c kingColor = true.
Proof.
  intros -> Ht Hc Hm. cbn [isCastlingRook]. rewrite Ht, Hc, Hm.
  destruct kingColor; reflexivity.
Qed.

(** X30: when castling is generated: a king is given the king-side castling
    exactly when it has not moved, the rights of its colour grant the side,
    the squares on columns 5 and 6 of its home rank are empty and an unmoved
    rook of its colour stands on column 7 of that rank; and the queen-side
    castling likewise with columns 1, 2 and 3 empty and the rook on column 0.
    Neither the square the king stands on nor any attack on the king or on
    the squares it crosses is looked at by the generator. *)
Theorem castling_generated_exact (b : Board) (position : Position) (p : Piece)
    (ep : option Position) (cr : CastlingRights) :
  wf_board b = true -> isValidPosition position = true ->
  getCell b position = Some p -> ptype p = KING ->
  let kingRank := kingRankOf (color p) in
  ((exists m, In m (getPossibleMoves b position ep cr)
              /\ mtype m = CASTLE_KINGSIDE)
   <-> hasMoved p = false
       /\ (exists r, rightsOf cr (color p) = Some r /\ kingSide r = true)
       /\ getCell b (mkPos kingRank 5) = None
       /\ getCell b (mkPos kingRank 6) = None
       /\ exists rook, getCell b (mkPos kingRank 7) = Some rook
                       /\ ptype rook = ROOK /\ color rook = color p
                       /\ hasMoved rook = false)
  /\ ((exists m, In m (getPossibleMoves b position ep cr)
                 /\ mtype m = CASTLE_QUEENSIDE)
      <-> hasMoved p = false
          /\ (exists r, rightsOf cr (color p) = Some r /\ queenSide r = true)
          /\ getCell b (mkPos kingRank 1) = None
          /\ getCell b (mkPos kingRank 2) = None
          /\ getCell b (mkPos kingRank 3) = None
          /\ exists rook, getCell b (mkPos kingRank 0) = Some rook
                          /\ ptype rook = ROOK /\ color rook = color p
                          /\ hasMoved rook = false).
Proof.
  intros _ _ Hcell Hk. cbv zeta.
  assert (Hgen : forall m, In m (castlingMoves b position p cr) ->
                           In m (getPossibleMoves b position ep cr)).
  { intros m Hin. unfold getPossibleMoves. rewrite Hcell, Hk.
    unfold getKingMoves. apply in_app_iff. right. exact Hin. }
  split; split.
  - intros (m & Hin & Hty).
    apply getPossibleMoves_shape in Hin as (q & Hq & Hshape).
    assert (q = p) by congruence. subst q.
    destruct Hshape; cbn [mtype simpleMove] in Hty; try discriminate.
    match goal with
    | H : isCastlingRook _ _ = true |- _ => apply isCastlingRook_inv in H
    end.
    repeat split; eauto.
  - intros (Hm & (r & Hr & Hside) & H5 & H6 & rook & Hrook & Ht & Hc & Hu).
    destruct (castlingMoves_kingside b position p cr r Hm Hr Hside H5 H6)
      as (m & Hin & Hty).
    { eapply isCastlingRook_intro; eauto. }
    exists m. auto.
  - intros (m & Hin & Hty).
    apply getPossibleMoves_shape in Hin as (q & Hq & Hshape).
    assert (q = p) by congruence. subst q.
    destruct Hshape; cbn [mtype simpleMove] in Hty; try discriminate.
    match goal with
    | H : isCastlingRook _ _ = true |- _ => apply isCastlingRook_inv in H
    end.
    repeat split; eauto.
  - intros (Hm & (r & Hr & Hside) & H1 & H2 & H3 & rook & Hrook & Ht & Hc & Hu).
    destruct (castlingMoves_queenside b position p cr r Hm Hr Hside H1 H2 H3)
      as (m & Hin & Hty).
    { eapply isCastlingRook_intro; eauto. }
    exists m. auto.
Qed.

(** ** The further properties at concrete positions *)

Ltac in_list := vm_compute; repeat (first [left; reflexivity | right]).

Lemma generated_move_wellformed_witness :
  wf_board initialBoard = true /\ isValidPosition (mkPos 6 4) = true
  /\ In pawnDouble
       (getPossibleMoves initialBoard (mkPos 6 4) None defaultCastlingRights)
  /\ from pawnDouble = mkPos 6 4
  /\ getCell initialBoard (mkPos 6 4) = Some (piece pawnDouble)
  /\ move_on_grid pawnDouble = true
  /\ to pawnDouble <> from pawnDouble.
Proof.
  assert (Hin : In pawnDouble
                  (getPossibleMoves initialBoard (mkPos 6 4) None
                     defaultCastlingRights)) by in_list.
  split; [reflexivity|]. split; [reflexivity|]. split; [exact Hin|].
  apply (generated_move_wellformed initialBoard (mkPos 6 4) None
           defaultCastlingRights pawnDouble); [reflexivity | reflexivity | exact Hin].
Defined.

Lemma generated_move_target_witness :
  wf_board promotionBoard = true /\ isValidPosition (mkPos 1 0) = true
  /\ In promotionCapture
       (getPossibleMoves promotionBoard (mkPos 1 0) None defaultCastlingRights)
  /\ mtype promotionCapture <> EN_PASSANT
  /\ capturedPiece promotionCapture = getCell promotionBoard (to promotionCapture).
Proof.
  assert (Hin : In promotionCapture
                  (getPossibleMoves promotionBoard (mkPos 1 0) None
                     defaultCastlingRights)) by in_list.
  split; [reflexivity|]. split; [reflexivity|]. split; [exact Hin|].
  split; [discriminate|].
  apply (generated_move_target promotionBoard (mkPos 1 0) None
           defaultCastlingRights promotionCapture);
    [reflexivity | reflexivity | exact Hin | discriminate].
Defined.

Lemma generated_en_passant_witness :
  wf_board enPassantBoard = true /\ isValidPosition (mkPos 3 4) = true
  /\ In enPassantMove
       (getPossibleMoves enPassantBoard (mkPos 3 4) (Some (mkPos 2 5))
          defaultCastlingRights)
  /\ mtype enPassantMove = EN_PASSANT
  /\ ptype (piece enPassantMove) = PAWN
  /\ Some (mkPos 2 5) = Some (to enPassantMove).
Proof.
  assert (Hin : In enPassantMove
                  (getPossibleMoves enPassantBoard (mkPos 3 4) (Some (mkPos 2 5))
                     defaultCastlingRights)) by in_list.
  split; [reflexivity|]. split; [reflexivity|]. split; [exact Hin|].
  split; [reflexivity|].
  destruct (generated_en_passant enPassantBoard (mkPos 3 4) (Some (mkPos 2 5))
              defaultCastlingRights enPassantMove eq_refl eq_refl Hin eq_refl)
    as (H1 & H2 & _).
  split; [exact H1 | exact H2].
Defined.

Lemma sliding_move_path_witness :
  wf_board loneRook = true /\ isValidPosition (mkPos 0 4) = true
  /\ getCell loneRook (mkPos 0 4) = Some (moved ROOK BLACK)
  /\ In rookSlide
       (getPossibleMoves loneRook (mkPos 0 4) None defaultCastlingRights)
  /\ exists d k,
       In d (slidingDirections ROOK) /\ 1 <= k
       /\ to rookSlide = stepsFrom (mkPos 0 4) d k
       /\ forall j, 1 <= j < k -> getCell loneRook (stepsFrom (mkPos 0 4) d j) = None.
Proof.
  assert (Hin : In rookSlide
                  (getPossibleMoves loneRook (mkPos 0 4) None
                     defaultCastlingRights)) by in_list.
  split; [reflexivity|]. split; [reflexivity|]. split; [reflexivity|].
  split; [exact Hin|].
  apply (sliding_move_path loneRook (mkPos 0 4) (moved ROOK BLACK) None
           defaultCastlingRights rookSlide);
    [reflexivity | reflexivity | reflexivity | right; left; reflexivity | exact Hin].
Defined.

Lemma sliding_move_complete_witness :
  wf_board loneRook = true /\ isValidPosition (mkPos 0 4) = true
  /\ getCell loneRook (mkPos 0 4) = Some (moved ROOK BLACK)
  /\ In SOUTH (slidingDirections ROOK)
  /\ isValidPosition (stepsFrom (mkPos 0 4) SOUTH 3) = true
  /\ (forall j, 1 <= j < 3 ->
        getCell loneRook (stepsFrom (mkPos 0 4) SOUTH j) = None)
  /\ In rookSlide
       (getPossibleMoves loneRook (mkPos 0 4) None defaultCastlingRights).
Proof.
  assert (Hfree : forall j, 1 <= j < 3 ->
                    getCell loneRook (stepsFrom (mkPos 0 4) SOUTH j) = None).
  { intros j Hj. assert (E : j = 1 \/ j = 2) by lia.
    destruct E as [-> | ->]; reflexivity. }
  split; [reflexivity|]. split; [reflexivity|]. split; [reflexivity|].
  split; [right; right; left; reflexivity|]. split; [reflexivity|].
  split; [exact Hfree|].
  exact (sliding_move_complete loneRook (mkPos 0 4) (moved ROOK BLACK) None
           defaultCastlingRights SOUTH 3 eq_refl eq_refl eq_refl
           (or_intror (or_introl eq_refl))
           (or_intror (or_intror (or_introl eq_refl)))
           ltac:(lia) eq_refl Hfree).
Defined.

Lemma generated_enPassantTarget_witness :
  wf_board initialBoard = true /\ isValidPosition (mkPos 6 4) = true
  /\ In pawnDouble
       (getPossibleMoves initialBoard (mkPos 6 4) None defaultCastlingRights)
  /\ getEnPassantTarget pawnDouble = Some (mkPos 5 4)
  /\ getEnPassantTarget pawnDouble = makeMove_enPassantTarget pawnDouble
  /\ getCell initialBoard (mkPos 5 4) = None.
Proof.
  assert (Hin : In pawnDouble
                  (getPossibleMoves initialBoard (mkPos 6 4) None
                     defaultCastlingRights)) by in_list.
  split; [reflexivity|]. split; [reflexivity|]. split; [exact Hin|].
  split; [reflexivity|].
  destruct (generated_enPassantTarget initialBoard (mkPos 6 4) None
              defaultCastlingRights pawnDouble eq_refl eq_refl Hin)
    as (H1 & H2).
  split; [exact H1|].
  destruct (H2 (mkPos 5 4) eq_refl) as (_ & _ & _ & _ & _ & H3 & _).
  exact H3.
Defined.

Lemma isValidMove_first_legal_witness :
  wf_board initialBoard = true /\ isValidPosition (mkPos 6 4) = true
  /\ isValidMove initialBoard (mkPos 6 4) (mkPos 4 4) None defaultCastlingRights
     = Some pawnDouble
  /\ In pawnDouble
       (getPossibleMoves initialBoard (mkPos 6 4) None defaultCastlingRights)
  /\ isKingInCheck (applyMove (deepClone initialBoard) pawnDouble) WHITE = false.
Proof.
  assert (Hm : isValidMove initialBoard (mkPos 6 4) (mkPos 4 4) None
                 defaultCastlingRights = Some pawnDouble)
    by (vm_compute; reflexivity).
  split; [reflexivity|]. split; [reflexivity|]. split; [exact Hm|].
  destruct (isValidMove_first_legal initialBoard (mkPos 6 4) (mkPos 4 4) None
              defaultCastlingRights eq_refl eq_refl) as (Hsound & _).
  destruct (Hsound pawnDouble Hm) as (_ & _ & _ & Hin & Hsafe & _).
  split; [exact Hin | exact Hsafe].
Defined.

Lemma calculateGameState_sorts_witness :
  wf_board whiteMated = true
  /\ isCheckmate whiteMated WHITE = true
  /\ calculateGameState whiteMated WHITE = CHECKMATE.
Proof.
  assert (Hmate : isCheckmate whiteMated WHITE = true) by (vm_compute; reflexivity).
  split; [reflexivity|]. split; [exact Hmate|].
  destruct (calculateGameState_sorts whiteMated WHITE eq_refl) as (H & _).
  apply H. exact Hmate.
Defined.

Lemma updateCastlingRights_never_restores_witness :
  rightsWhite defaultCastlingRights <> None
  /\ rightsBlack defaultCastlingRights <> None
  /\ exists cr',
       updateCastlingRights castleMove defaultCastlingRights = Some cr'
       /\ forall c r',
            rightsOf cr' c = Some r' ->
            exists r, rightsOf defaultCastlingRights c = Some r
                      /\ (kingSide r' = true -> kingSide r = true)
                      /\ (queenSide r' = true -> queenSide r = true).
Proof.
  split; [discriminate|]. split; [discriminate|].
  apply (updateCastlingRights_never_restores castleMove defaultCastlingRights);
    discriminate.
Defined.

Lemma king_move_ends_castling_witness :
  ptype (piece castleMove) = KING
  /\ updateCastlingRights castleMove defaultCastlingRights = Some rightsAfterCastle
  /\ rightsOf rightsAfterCastle (color (piece castleMove))
     = Some (mkRights false false).
Proof.
  split; [reflexivity|]. split; [reflexivity|].
  destruct (king_move_ends_castling castleMove defaultCastlingRights
              rightsAfterCastle eq_refl eq_refl) as (H & _).
  exact H.
Defined.


Lemma castling_applied_witness :
  wf_board castleBoard = true /\ isValidPosition (mkPos 7 4) = true
  /\ In castleMove
       (getPossibleMoves castleBoard (mkPos 7 4) None defaultCastlingRights)
  /\ isCastleType (mtype castleMove) = true
  /\ getCell (applyMove castleBoard castleMove) (mkPos 7 6)
     = Some (mkPiece KING WHITE true)
  /\ getCell (applyMove castleBoard castleMove) (mkPos 7 5)
     = Some (mkPiece ROOK WHITE true).
Proof.
  assert (Hin : In castleMove
                  (getPossibleMoves castleBoard (mkPos 7 4) None
                     defaultCastlingRights)) by in_list.
  split; [reflexivity|]. split; [reflexivity|]. split; [exact Hin|].
  split; [reflexivity|].
  pose proof (castling_applied castleBoard (mkPos 7 4) None defaultCastlingRights
                castleMove eq_refl eq_refl Hin eq_refl) as H.
  cbv zeta in H. destruct H as (_ & _ & _ & _ & _ & _ & Hking & Hrook & _).
  split; [exact Hking | exact Hrook].
Defined.

Lemma en_passant_applied_witness :
  wf_board enPassantBoard = true /\ isValidPosition (mkPos 3 4) = true
  /\ In enPassantMove
       (getPossibleMoves enPassantBoard (mkPos 3 4) (Some (mkPos 2 5))
          defaultCastlingRights)
  /\ mtype enPassantMove = EN_PASSANT
  /\ getCell (applyMove enPassantBoard enPassantMove) (mkPos 2 5)
     = Some (mkPiece PAWN WHITE true)
  /\ getCell (applyMove enPassantBoard enPassantMove) (mkPos 3 5) = None.
Proof.
  assert (Hin : In enPassantMove
                  (getPossibleMoves enPassantBoard (mkPos 3 4) (Some (mkPos 2 5))
                     defaultCastlingRights)) by in_list.
  split; [reflexivity|]. split; [reflexivity|]. split; [exact Hin|].
  split; [reflexivity|].
  pose proof (en_passant_applied enPassantBoard (mkPos 3 4) (Some (mkPos 2 5))
                defaultCastlingRights enPassantMove eq_refl eq_refl Hin eq_refl)
    as H.
  cbv zeta in H. destruct H as (Hto & _ & Hcap & _).
  split; [exact Hto | exact Hcap].
Defined.

Lemma promotion_applied_witness :
  wf_board promotionBoard = true /\ isValidPosition (mkPos 1 0) = true
  /\ In promotionCapture
       (getPossibleMoves promotionBoard (mkPos 1 0) None defaultCastlingRights)
  /\ ptype (piece promotionCapture) = PAWN
  /\ mtype promotionCapture <> EN_PASSANT
  /\ exists promotion,
       promotionPieceType promotionCapture = Some promotion
       /\ In promotion promotionPieces
       /\ getCell (applyMove promotionBoard promotionCapture) (to promotionCapture)
          = Some (mkPiece promotion (color (piece promotionCapture)) true)
       /\ getCell (applyMove promotionBoard promotionCapture) (mkPos 1 0) = None
       /\ forall pos, pos <> mkPos 1 0 -> pos <> to promotionCapture ->
                      getCell (applyMove promotionBoard promotionCapture) pos
                      = getCell promotionBoard pos.
Proof.
  assert (Hin : In promotionCapture
                  (getPossibleMoves promotionBoard (mkPos 1 0) None
                     defaultCastlingRights)) by in_list.
  split; [reflexivity|]. split; [reflexivity|]. split; [exact Hin|].
  split; [reflexivity|]. split; [discriminate|].
  destruct (promotion_applied promotionBoard (mkPos 1 0) None
              defaultCastlingRights promotionCapture eq_refl eq_refl Hin eq_refl)
    as (_ & H); [discriminate|].
  apply H. reflexivity.
Defined.

Lemma evaluateKingSafety_range_witness :
  noKingOf loneRook WHITE = true /\ evaluateKingSafety loneRook = 0.
Proof.
  split; [reflexivity|].
  destruct (evaluateKingSafety_range loneRook) as (H & _).
  apply H. left. reflexivity.
Defined.

Lemma isStalemate_exact_witness :
  wf_board blackStalemated = true
  /\ (isStalemate blackStalemated BLACK = true <->
      isKingInCheck blackStalemated BLACK = false
      /\ allMoves blackStalemated BLACK None defaultCastlingRights = []).
Proof.
  split; [reflexivity|].
  destruct (isStalemate_exact blackStalemated BLACK eq_refl) as (H & _).
  exact H.
Defined.

Lemma cutoffs_keep_value_witness :
  0 <= 1 < Z.of_nat 2
  /\ exists z,
       minimaxValue 2 shuffleA 1 true None defaultCastlingRights = Some (Fin z)
       /\ minimax 2 shuffleA 1 NegInf PosInf true None defaultCastlingRights
          = Some (Fin z).
Proof.
  assert (Hd : 0 <= 1 < Z.of_nat 2) by (simpl; lia).
  split; [exact Hd|].
  destruct (cutoffs_keep_value 2 shuffleA 1 true None defaultCastlingRights Hd)
    as (z & H1 & H2 & _).
  exists z. split; [exact H1 | exact H2].
Defined.

Lemma findBestMove_first_best_witness :
  1 <= 1 <= Z.of_nat 1
  /\ allMoves shuffleA (sideToMove true) None defaultCastlingRights <> []
  /\ exists m,
       findBestMove 1 shuffleA 1 true None defaultCastlingRights = Some (Some m)
       /\ In m (allMoves shuffleA (sideToMove true) None defaultCastlingRights).
Proof.
  assert (Hd : 1 <= 1 <= Z.of_nat 1) by (simpl; lia).
  assert (Hne : allMoves shuffleA (sideToMove true) None defaultCastlingRights <> [])
    by (vm_compute; discriminate).
  split; [exact Hd|]. split; [exact Hne|].
  pose proof (findBestMove_first_best 1 shuffleA 1 true None defaultCastlingRights
                Hd Hne) as H.
  cbv zeta in H. destruct H as (before & m & after & s & Hsplit & Hfind & _).
  exists m. split; [exact Hfind|].
  rewrite Hsplit. apply in_or_app. right. left. reflexivity.
Defined.

Lemma square_names_round_trip_witness :
  algebraicToCoords "E4" = Some (mkPos 4 4)
  /\ isValidPosition (mkPos 4 4) = true
  /\ coordsToAlgebraic (mkPos 4 4) = Some (toLowerCase "E4").
Proof.
  split; [reflexivity|].
  destruct square_names_round_trip as (_ & H).
  apply (H "E4"%string (mkPos 4 4)). reflexivity.
Defined.

Lemma material_after_move_witness :
  wf_board promotionBoard = true /\ isValidPosition (mkPos 1 0) = true
  /\ In promotionCapture
       (getPossibleMoves promotionBoard (mkPos 1 0) None defaultCastlingRights)
  /\ (mtype promotionCapture = EN_PASSANT ->
      getCell promotionBoard (to promotionCapture) = None)
  /\ evaluateMaterial (applyMove promotionBoard promotionCapture)
     = evaluateMaterial promotionBoard
       + scoreSign WHITE * (capturedValue promotionCapture
                            + promotionGain promotionCapture).
Proof.
  assert (Hin : In promotionCapture
                  (getPossibleMoves promotionBoard (mkPos 1 0) None
                     defaultCastlingRights)) by in_list.
  split; [reflexivity|]. split; [reflexivity|]. split; [exact Hin|].
  split; [discriminate|].
  apply (material_after_move promotionBoard (mkPos 1 0) None
           defaultCastlingRights promotionCapture);
    [reflexivity | reflexivity | exact Hin | discriminate].
Defined.

Lemma fen_round_trip_witness :
  wf_board initialBoard = true
  /\ rightsWhite defaultCastlingRights <> None
  /\ rightsBlack defaultCastlingRights <> None
  /\ exists fen,
       boardToFEN (mkFEN initialBoard WHITE defaultCastlingRights None) "0 1"
       = Some fen
       /\ parseFEN fen
          = Some (mkFEN (map (map (option_map unmoved)) initialBoard) WHITE
                    defaultCastlingRights None).
Proof.
  split; [reflexivity|]. split; [discriminate|]. split; [discriminate|].
  apply (fen_round_trip (mkFEN initialBoard WHITE defaultCastlingRights None) "0 1");
    [reflexivity | discriminate | discriminate | reflexivity].
Defined.

Lemma isKingInCheck_exact_witness :
  wf_board whiteMated = true
  /\ isKingInCheck whiteMated WHITE = true
  /\ exists kingPosition,
       findKing whiteMated WHITE = Some kingPosition
       /\ exists pos p m,
            isValidPosition pos = true /\ getCell whiteMated pos = Some p
            /\ color p = opponent WHITE
            /\ In m (getPossibleMoves whiteMated pos None defaultCastlingRights)
            /\ to m = kingPosition.
Proof.
  assert (Hcheck : isKingInCheck whiteMated WHITE = true) by (vm_compute; reflexivity).
  split; [reflexivity|]. split; [exact Hcheck|].
  destruct (isKingInCheck_exact whiteMated WHITE eq_refl) as (H & _).
  apply H. exact Hcheck.
Defined.

Lemma step_destinations_witness :
  wf_board initialBoard = true /\ isValidPosition (mkPos 7 1) = true
  /\ getCell initialBoard (mkPos 7 1) = Some (mkPiece KNIGHT WHITE false)
  /\ exists m,
       In m (getPossibleMoves initialBoard (mkPos 7 1) None defaultCastlingRights)
       /\ isCastleType (mtype m) = false /\ to m = mkPos 5 2.
Proof.
  split; [reflexivity|]. split; [reflexivity|]. split; [reflexivity|].
  apply (step_destinations initialBoard (mkPos 7 1) (mkPiece KNIGHT WHITE false)
           None defaultCastlingRights (mkPos 5 2));
    [reflexivity | reflexivity | reflexivity | left; reflexivity |].
  exists (mkDir (-2) 1). split; [in_list|].
  split; [reflexivity|]. split; [reflexivity|].
  intros x Hx. discriminate Hx.
Defined.

Lemma pawn_destinations_witness :
  wf_board initialBoard = true /\ isValidPosition (mkPos 6 4) = true
  /\ getCell initialBoard (mkPos 6 4) = Some (mkPiece PAWN WHITE false)
  /\ exists m,
       In m (getPossibleMoves initialBoard (mkPos 6 4) None defaultCastlingRights)
       /\ to m = mkPos 4 4.
Proof.
  split; [reflexivity|]. split; [reflexivity|]. split; [reflexivity|].
  apply (pawn_destinations initialBoard (mkPos 6 4) (mkPiece PAWN WHITE false)
           None defaultCastlingRights (mkPos 4 4));
    [reflexivity | reflexivity | reflexivity | reflexivity |].
  right. left. repeat split.
Defined.

Lemma undo_restores_witness :
  replayed newGame
  /\ length [pawnDouble] = movesToUndo (s_gameMode newGame)
  /\ exists s',
       makeMoves newGame [pawnDouble] = Some s'
       /\ exists s'',
            undoMove s' = Some s''
            /\ s_board s'' = s_board newGame
            /\ s_moveHistory s'' = s_moveHistory newGame.
Proof.
  assert (Hrep : replayed newGame) by apply initial_replayed.
  split; [exact Hrep|]. split; [reflexivity|].
  eexists. split; [reflexivity|].
  destruct (undo_restores newGame _ [pawnDouble] Hrep eq_refl eq_refl)
    as (s'' & Hundo & Hboard & _ & _ & _ & _ & Hhist & _).
  exists s''. split; [exact Hundo|]. split; [exact Hboard | exact Hhist].
Defined.

Lemma clicks_play_legal_witness :
  isValidPosition (mkPos 6 4) = true
  /\ selectionOk newGame
  /\ handleSquareClick newGame (mkPos 6 4) = Some (selectPiece newGame (mkPos 6 4))
  /\ (s_gameState newGame <> ACTIVE -> selectPiece newGame (mkPos 6 4) = newGame).
Proof.
  assert (Hsel : selectionOk newGame)
    by (split; [intros m [] | reflexivity]).
  split; [reflexivity|]. split; [exact Hsel|]. split; [reflexivity|].
  destruct (clicks_play_legal newGame (selectPiece newGame (mkPos 6 4)) (mkPos 6 4)
              eq_refl Hsel eq_refl) as (H & _).
  exact H.
Defined.

Lemma ai_plays_legal_witness :
  (3 <= 3)%nat
  /\ rightsWhite (s_castlingRights computerGame) <> None
  /\ rightsBlack (s_castlingRights computerGame) <> None
  /\ exists s',
       performAIMove 3 computerGame = Some s' /\ s_isAIThinking s' = false.
Proof.
  split; [lia|]. split; [discriminate|]. split; [discriminate|].
  destruct (ai_plays_legal 3 computerGame) as (s' & H1 & H2 & _);
    [lia | discriminate | discriminate |].
  exists s'. split; [exact H1 | exact H2].
Defined.

Lemma handlers_keep_invariants_witness :
  initializeBoard newGame = Some newGame
  /\ replayed newGame /\ selectionOk newGame.
Proof.
  assert (Hinit : initializeBoard newGame = Some newGame)
    by (vm_compute; reflexivity).
  split; [exact Hinit|].
  destruct handlers_keep_invariants as (H & _).
  apply (H newGame newGame). exact Hinit.
Defined.

Lemma castling_generated_exact_witness :
  wf_board castleBoard = true /\ isValidPosition (mkPos 7 4) = true
  /\ getCell castleBoard (mkPos 7 4) = Some (mkPiece KING WHITE false)
  /\ exists m,
       In m (getPossibleMoves castleBoard (mkPos 7 4) None defaultCastlingRights)
       /\ mtype m = CASTLE_KINGSIDE.
Proof.
  split; [reflexivity|]. split; [reflexivity|]. split; [reflexivity|].
  pose proof (castling_generated_exact castleBoard (mkPos 7 4)
                (mkPiece KING WHITE false) None defaultCastlingRights
                eq_refl eq_refl eq_refl eq_refl) as H.
  cbv zeta in H. destruct H as (H & _). apply H.
  split; [reflexivity|].
  split; [exists (mkRights true true); split; reflexivity|].
  split; [reflexivity|]. split; [reflexivity|].
  exists (mkPiece ROOK WHITE false). repeat split.
Defined.
